(** * image-lite: quality rules, change detection, error recovery, the
    batch loop, the configuration and the enumeration of the inputs,
    embedded from the JavaScript sources.

    Every definition below follows one function of the repository; the
    function and its file are named in the comment above it.  JavaScript
    strings are [string], plain objects used as maps are [gmap string _],
    [undefined]/[null] is [None], numbers that the code only uses as
    integers are [Z], and the specificity score is the double-precision
    number the code computes, each addition and multiplication rounded as
    IEEE 754 says, given as the rational [Q] it stands for. *)

From Stdlib Require Import ZArith QArith Lqa String Ascii List Lia Bool Sorted.
From stdpp Require Import gmap strings list pretty.
From Stdlib Require PrimFloat Uint63.

Local Open Scope string_scope.
Local Open Scope list_scope.
Local Open Scope Z_scope.

#[local] Arguments String.append !_ _ / : simpl nomatch.

(** ** JavaScript string primitives used by the sources *)

Module JsString.

Definition slash : ascii := "/"%char.
Definition backslash : ascii := "\"%char.

(** [s.replace(/\\/g, '/')] *)
Fixpoint replaceBackslashes (s : string) : string :=
  match s with
  | EmptyString => EmptyString
  | String c r =>
      String (if Ascii.eqb c backslash then slash else c) (replaceBackslashes r)
  end.

(** [s.startsWith(p)] *)
Fixpoint startsWith (s p : string) {struct p} : bool :=
  match p with
  | EmptyString => true
  | String a p' =>
      match s with
      | EmptyString => false
      | String b s' => Ascii.eqb a b && startsWith s' p'
      end
  end.

(** [s.includes(t)] *)
Fixpoint includes (s t : string) : bool :=
  startsWith s t ||
  match s with
  | EmptyString => false
  | String _ s' => includes s' t
  end.

(** [s.endsWith('/')] *)
Fixpoint endsWithSlash (s : string) : bool :=
  match s with
  | EmptyString => false
  | String c EmptyString => Ascii.eqb c slash
  | String _ r => endsWithSlash r
  end.

(** [s.split('/')] *)
Fixpoint splitSlash (s : string) : list string :=
  match s with
  | EmptyString => [EmptyString]
  | String c r =>
      if Ascii.eqb c slash then EmptyString :: splitSlash r
      else match splitSlash r with
           | seg :: segs => String c seg :: segs
           | [] => [String c EmptyString]
           end
  end.

(** [segs.join('/')] *)
Fixpoint joinSlash (segs : list string) : string :=
  match segs with
  | [] => EmptyString
  | [seg] => seg
  | seg :: rest => seg +:+ String slash (joinSlash rest)
  end.

(** [s.replace(/[*?]/g, '')] *)
Fixpoint stripWildcards (s : string) : string :=
  match s with
  | EmptyString => EmptyString
  | String c r =>
      if Ascii.eqb c "*"%char || Ascii.eqb c "?"%char then stripWildcards r
      else String c (stripWildcards r)
  end.

(** A name that contains neither separator, for statements about single
    path segments. *)
Fixpoint noSeparator (s : string) : bool :=
  match s with
  | EmptyString => true
  | String c r =>
      negb (Ascii.eqb c slash) && negb (Ascii.eqb c backslash) && noSeparator r
  end.

(** Truthiness of a string-valued property: [undefined] and [''] are falsy. *)
Definition truthy (o : option string) : bool :=
  match o with
  | Some s => negb (String.eqb s EmptyString)
  | None => false
  end.

End JsString.

(** Truthiness of a number-valued property: [undefined] and [0] are falsy. *)
Definition truthyNum (o : option Z) : bool :=
  match o with
  | Some n => negb (Z.eqb n 0)
  | None => false
  end.

(** [a || 0] on a number-valued property. *)
Definition orZero (o : option Z) : Z :=
  match o with
  | Some n => n
  | None => 0
  end.

(** ** JavaScript numbers: the binary64 arithmetic of the score

    A JavaScript number is an IEEE 754 double; [+] and [*] give the exact
    result rounded to the nearest double, ties to the even mantissa.  The
    numbers the score is made of are 0, small integers and sums and
    products with 0.1; none of them lies strictly between 0 and 1/16, so
    each is a whole multiple of 2^-56 and is kept here as that whole
    number, its count of units.  Rounding to a double is then rounding
    the count to 53 significant bits.  (A count from 2^1080 on would be
    larger than any double; no string is nearly that long.) *)

Module Binary64.

(** The number of units in 1. *)
Definition one : Z := 2 ^ 56.

(** The double [0.1] is 3602879701896397 / 2^55. *)
Definition tenth : Z := 7205759403792794.

(** Rounding a count to 53 significant bits, to nearest and ties to even.
    Below 2^53 every count is a double. *)
Definition roundSig (n : Z) : Z :=
  if Z.ltb n (2 ^ 53) then n
  else
    let k := Z.log2 n - 52 in
    let q := n / 2 ^ k in
    let r := n mod 2 ^ k in
    let half := 2 ^ (k - 1) in
    if Z.ltb r half then q * 2 ^ k
    else if Z.ltb half r then (q + 1) * 2 ^ k
    else if Z.even q then q * 2 ^ k
    else (q + 1) * 2 ^ k.

(** An integer of the program as a double. *)
Definition ofInt (i : Z) : Z := roundSig (i * one).

(** [a + b] on doubles. *)
Definition add (a b : Z) : Z := roundSig (a + b).

(** [i * 0.1] for an integer [i] (a string length, itself a double). *)
Definition mulTenth (i : Z) : Z := roundSig (i * tenth).

(** The rational a count stands for. *)
Definition toQ (n : Z) : Q := Qmake n (2 ^ 56)%positive.

(** The machine double a count below 2^63 stands for: the count and 2^56
    are converted and divided without rounding. *)
Definition toFloat (n : Z) : PrimFloat.float :=
  PrimFloat.div (PrimFloat.of_uint63 (Uint63.of_Z n))
    (PrimFloat.of_uint63 (Uint63.of_Z one)).

End Binary64.

(** ** src/core/quality-rules-engine.js : QualityRulesEngine *)

Module QualityRules.
Import JsString.

(** A rule object of the configuration.  Every criterion is optional. *)
Record Rule := mkRule {
  pattern : option string;
  directory : option string;
  minWidth : option Z;
  minHeight : option Z;
  maxWidth : option Z;
  maxHeight : option Z;
  quality : option (gmap string Z)
}.

(** Image metadata handed to the engine ([null] is [None]). *)
Record Metadata := mkMetadata {
  width : option Z;
  height : option Z
}.

(** The injected dependencies of the constructor: the [minimatch] glob
    matcher (called with [{ nocase: true }]) and Node's [path.basename]. *)
Record Dependencies := mkDependencies {
  minimatch : string -> string -> bool;
  basename : string -> string
}.

(** [matchesDirectory(imagePath, ruleDirectory)] *)
Definition dirWithSlash (ruleDirectory : string) : string :=
  let normalizedDir := replaceBackslashes ruleDirectory in
  if endsWithSlash normalizedDir then normalizedDir
  else normalizedDir +:+ String slash EmptyString.

Definition matchesDirectory (imagePath ruleDirectory : string) : bool :=
  let normalizedPath := replaceBackslashes imagePath in
  includes normalizedPath (dirWithSlash ruleDirectory).

(** The test [rule.minWidth || rule.minHeight || rule.maxWidth || rule.maxHeight]. *)
Definition hasSizeRule (rule : Rule) : bool :=
  truthyNum (minWidth rule) || truthyNum (minHeight rule) ||
  truthyNum (maxWidth rule) || truthyNum (maxHeight rule).

(** [checkSizeRule(rule, metadata)] *)
Definition checkSizeRule (rule : Rule) (metadata : option Metadata) : bool :=
  if negb (hasSizeRule rule) then true
  else match metadata with
       | None => false
       | Some md =>
           let w := orZero (width md) in
           let h := orZero (height md) in
           if truthyNum (minWidth rule) && (w <? orZero (minWidth rule)) then false
           else if truthyNum (minHeight rule) && (h <? orZero (minHeight rule)) then false
           else if truthyNum (maxWidth rule) && (orZero (maxWidth rule) <? w) then false
           else if truthyNum (maxHeight rule) && (orZero (maxHeight rule) <? h) then false
           else true
       end.

(** [ruleMatches(rule, imagePath, metadata)] *)
Definition ruleMatches (deps : Dependencies) (rule : Rule)
    (imagePath : string) (metadata : option Metadata) : bool :=
  let patternMatch :=
    negb (truthy (pattern rule)) ||
    minimatch deps (basename deps imagePath) (default EmptyString (pattern rule)) in
  let directoryMatch :=
    negb (truthy (directory rule)) ||
    matchesDirectory imagePath (default EmptyString (directory rule)) in
  let sizeMatch := checkSizeRule rule metadata in
  patternMatch && directoryMatch && sizeMatch.

(** [rule.pattern.replace(/[*?]/g, '').length] *)
Definition nonWildcardChars (p : string) : Z :=
  Z.of_nat (String.length (stripWildcards p)).

(** [rule.directory.split('/').filter(Boolean).length] *)
Definition directoryDepth (d : string) : Z :=
  Z.of_nat (List.length
    (List.filter (fun seg => negb (String.eqb seg EmptyString)) (splitSlash d))).

(** The length of [[!!pattern, !!directory, !!size].filter(Boolean)]. *)
Definition criteriaCount (rule : Rule) : Z :=
  Z.b2z (truthy (pattern rule)) + Z.b2z (truthy (directory rule)) +
  Z.b2z (hasSizeRule rule).

(** [getSpecificityScore(rule)]: the score is accumulated as the code
    does, one [+=] after the other, every sum and product rounded to a
    double. *)
Definition getSpecificityScore (rule : Rule) : Q :=
  let score := 0 in
  let score :=
    if truthy (pattern rule) then
      let score := Binary64.add score (Binary64.ofInt 4) in
      Binary64.add score
        (Binary64.mulTenth (nonWildcardChars (default EmptyString (pattern rule))))
    else score in
  let score :=
    if truthy (directory rule) then
      let score := Binary64.add score (Binary64.ofInt 2) in
      Binary64.add score
        (Binary64.mulTenth (directoryDepth (default EmptyString (directory rule))))
    else score in
  let score :=
    if hasSizeRule rule then Binary64.add score (Binary64.ofInt 1) else score in
  let score :=
    if 1 <? criteriaCount rule
    then Binary64.add score (Binary64.ofInt (criteriaCount rule * 2))
    else score in
  Binary64.toQ score.

(** The comparator of [sortRulesBySpecificity] is [scoreB - scoreA]; a
    positive value moves [b] in front of [a]. *)
Definition comesBefore (b a : Rule) : bool :=
  negb (Qle_bool (getSpecificityScore b) (getSpecificityScore a)).

(** [Array.prototype.sort] is stable: elements the comparator does not
    order keep their input order.  With this comparator the result is the
    stable descending order, computed here by insertion: a rule is placed
    behind the rules that outrank it and in front of everything else. *)
Fixpoint insertRule (a : Rule) (sorted : list Rule) : list Rule :=
  match sorted with
  | [] => [a]
  | b :: rest =>
      if comesBefore b a then b :: insertRule a rest
      else a :: b :: rest
  end.

(** [sortRulesBySpecificity(rules)] *)
Definition sortRulesBySpecificity (rules : list Rule) : list Rule :=
  List.fold_right insertRule [] rules.

(** The engine object: the dependencies and the sorted rule list that the
    constructor stores in [this.rules]. *)
Record Engine := mkEngine {
  deps : Dependencies;
  rules : list Rule
}.

(** [new QualityRulesEngine(rules, dependencies)] *)
Definition newEngine (rs : list Rule) (d : Dependencies) : Engine :=
  {| deps := d; rules := sortRulesBySpecificity rs |}.

(** One step of the merge loop:
    [if (rule.quality) mergedQuality = {...mergedQuality, ...rule.quality}]. *)
Definition applyRule (mergedQuality : gmap string Z) (rule : Rule) : gmap string Z :=
  match quality rule with
  | Some q => q ∪ mergedQuality
  | None => mergedQuality
  end.

(** [getQualityForImage(imagePath, metadata, defaultQuality)] *)
Definition getQualityForImage (e : Engine) (imagePath : string)
    (metadata : option Metadata) (defaultQuality : gmap string Z) : gmap string Z :=
  let matchingRules :=
    List.filter (fun rule => ruleMatches (deps e) rule imagePath metadata) (rules e) in
  let rulesToApply := List.rev matchingRules in
  List.fold_left applyRule rulesToApply defaultQuality.

(** Which criteria a rule carries, in the terms of [getSpecificityScore]:
    the truthiness tests of its three [if]s. *)
Definition hasPattern (rule : Rule) : bool := truthy (pattern rule).
Definition hasDirectory (rule : Rule) : bool := truthy (directory rule).

Definition onlyPattern (rule : Rule) : bool :=
  hasPattern rule && negb (hasDirectory rule) && negb (hasSizeRule rule).

Definition onlyDirectory (rule : Rule) : bool :=
  hasDirectory rule && negb (hasPattern rule) && negb (hasSizeRule rule).

(** The two bonus counts of a rule (0 for an absent criterion). *)
Definition patternChars (rule : Rule) : Z :=
  nonWildcardChars (default EmptyString (pattern rule)).
Definition directorySegments (rule : Rule) : Z :=
  directoryDepth (default EmptyString (directory rule)).

(** The order the sort establishes: [b] scores at least as high as [c]. *)
Definition scoreGe (b c : Rule) : Prop :=
  (getSpecificityScore c <= getSpecificityScore b)%Q.

(** The rules of one score class. *)
Definition sameScore (c : Q) (rule : Rule) : bool :=
  Qeq_bool (getSpecificityScore rule) c.

(** [rule.quality[key]], [None] when the rule has no quality map or the
    map has no such key. *)
Definition valueFor (key : string) (rule : Rule) : option Z :=
  quality rule ≫= (fun q => q !! key).

Definition definesKey (key : string) (rule : Rule) : bool :=
  match valueFor key rule with Some _ => true | None => false end.

(** Among the rules of a declaration list that satisfy [P], the one with
    the highest score, and of several with that score the one declared
    first. *)
Fixpoint topRule (P : Rule -> bool) (declared : list Rule) : option Rule :=
  match declared with
  | [] => None
  | a :: rest =>
      if P a then
        match topRule P rest with
        | Some b => if comesBefore b a then Some b else Some a
        | None => Some a
        end
      else topRule P rest
  end.

End QualityRules.

(** ** The score once more, on the machine's doubles

    The same function over Rocq's primitive floats, whose [+] and [*] are
    the processor's binary64 operations.  It serves to run the score of
    a rule and compare it with [QualityRules.getSpecificityScore]. *)

Module MachineScore.
Import JsString QualityRules PrimFloat.
Local Open Scope float_scope.

Definition ofZ (i : Z) : float := of_uint63 (Uint63.of_Z i).

#[warnings="-inexact-float"] Definition getSpecificityScore (rule : Rule) : float :=
  let score := 0 in
  let score :=
    if truthy (pattern rule) then
      let score := score + 4 in
      score + ofZ (nonWildcardChars (default EmptyString (pattern rule))) * 0.1
    else score in
  let score :=
    if truthy (directory rule) then
      let score := score + 2 in
      score + ofZ (directoryDepth (default EmptyString (directory rule))) * 0.1
    else score in
  let score := if hasSizeRule rule then score + 1 else score in
  let score :=
    if Z.ltb 1 (criteriaCount rule) then score + ofZ (criteriaCount rule) * 2
    else score in
  score.

(** Whether the two definitions give the same double for a rule. *)
Definition agrees (rule : Rule) : bool :=
  eqb (Binary64.toFloat (Qnum (QualityRules.getSpecificityScore rule)))
      (getSpecificityScore rule).

End MachineScore.

(** ** Values shared by the stateful components *)

(** A thrown value, as far as the sources inspect it: [message], [code]
    and [stack]. *)
Record JsError := mkJsError {
  message : option string;
  code : option string;
  stack : option string
}.

(** An [async] call either resolves or rejects. *)
Inductive Completion (A : Type) : Type :=
| Returned (a : A)
| Thrown (e : JsError).
Arguments Returned {A} a.
Arguments Thrown {A} e.

(** Property values of the loosely typed context objects. *)
Inductive JsVal :=
| JsStr (s : string)
| JsNum (n : Z).

(** The strings [optimizeImage] returns. *)
Inductive OptimizeResult :=
| ResProcessed
| ResSkipped
| ResError
| ResLfsPointer
| ResLfsError.

Definition resultString (r : OptimizeResult) : string :=
  match r with
  | ResProcessed => "processed"
  | ResSkipped => "skipped"
  | ResError => "error"
  | ResLfsPointer => "lfs-pointer"
  | ResLfsError => "lfs-error"
  end.

(** ** FileTimestampChecker (src/utils/file-timestamp-checker.js) *)

Module Timestamp.

(** [fileStats.stat(path)] resolved to the modification time in
    milliseconds, [None] when it rejects.  [mtime] is a [Date], hence
    always truthy: the tests [!inputModTime] and [!outputModTime] hold
    exactly when [getModTime] returned [null]. *)
Definition FileStats := string -> option Z.

(** [getModTime(filePath)] *)
Definition getModTime (fileStats : FileStats) (filePath : string) : option Z :=
  fileStats filePath.

(** The [for (const outputPath of outputPaths)] loop of [shouldProcess]. *)
Fixpoint outputsNeedWork (fileStats : FileStats) (inputModTime : Z)
    (outputPaths : list string) : bool :=
  match outputPaths with
  | [] => false
  | outputPath :: rest =>
      match getModTime fileStats outputPath with
      | None => true
      | Some outputModTime =>
          if Z.ltb outputModTime inputModTime then true
          else outputsNeedWork fileStats inputModTime rest
      end
  end.

(** [shouldProcess(inputPath, outputPaths, forceReprocess)] *)
Definition shouldProcess (fileStats : FileStats) (inputPath : string)
    (outputPaths : list string) (forceReprocess : bool) : bool :=
  if forceReprocess then true
  else match getModTime fileStats inputPath with
       | None => false
       | Some inputModTime => outputsNeedWork fileStats inputModTime outputPaths
       end.

End Timestamp.

(** ** ImageOptimizer (src/core/image-optimizer.js) and the Git LFS helpers *)

Module Optimizer.
Import JsString.

(** A file of the working tree: its text and its modification time. *)
Record FileNode := mkFileNode {
  content : string;
  mtime : Z
}.

(** [fs.stat] seen through [FileTimestampChecker.getModTime]. *)
Definition statOf (fs : gmap string FileNode) : Timestamp.FileStats :=
  fun p => mtime <$> fs !! p.

Definition lfsHeader : string := "version https://git-lfs.github.com/spec/v1".

(** [GitLfsDetector.isGitLfsPointer(filePath)]: a file that cannot be read
    is not a pointer. *)
Definition isGitLfsPointer (fs : gmap string FileNode) (filePath : string) : bool :=
  match fs !! filePath with
  | Some f => startsWith (content f) lfsHeader
  | None => false
  end.

(** The part of the configuration [optimizeImage] reads. *)
Record Config := mkConfig {
  formats : list string;
  outputDir : string;
  generateThumbnails : bool
}.

Record Options := mkOptions {
  forceReprocess : bool;
  pullLfs : bool
}.

Record ProcessingConfig := mkProcessingConfig {
  outputPath : string;
  format : string
}.

(** One element of the array [imageProcessor.processImage] resolves to. *)
Record ProcessResult := mkProcessResult {
  success : bool;
  resultError : option string
}.

(** The collaborators of the optimizer: Node's [path] module, the shell
    behind [GitLfsPuller], the injected generators, the codec and the
    file operations.  Those that touch the disk transform the file map. *)
Record Collaborators := mkCollaborators {
  parseName : string -> string;
  parseExtLower : string -> string;
  join : string -> string -> string;
  dirname : string -> string;
  execLfsPull : string -> gmap string FileNode -> Completion unit * gmap string FileNode;
  mkdir : string -> gmap string FileNode -> Completion unit * gmap string FileNode;
  copyFile : string -> string -> gmap string FileNode -> Completion unit * gmap string FileNode;
  generateConfigs : string -> list ProcessingConfig;
  processImage : string -> list ProcessingConfig -> gmap string FileNode ->
                 Completion (list ProcessResult) * gmap string FileNode
}.

(** What [this.logger] is told and which collaborators were invoked. *)
Inductive Event :=
| LogPulling (filename : string)
| LogPullError (filename : string) (msg : option string)
| LogPullFailed (filename : string)
| LogSkipPointer (filename : string)
| LogUpToDate (filename : string)
| LogCopied (filename : string)
| LogOptimized (filename : string)
| LogProcessingError (filename : string) (msg : option string)
| CodecInvoked (inputPath : string) (configs : list ProcessingConfig).

Record World := mkWorld {
  fs : gmap string FileNode;
  events : list Event
}.

Definition emit (ev : Event) (w : World) : World :=
  {| fs := fs w; events := events w ++ [ev] |}.

Definition withFs (fs' : gmap string FileNode) (w : World) : World :=
  {| fs := fs'; events := events w |}.

(** [GitLfsPuller.pullFile(filePath)]: [{success: true}] is [None],
    [{success: false, error}] carries the message. *)
Definition pullFile (c : Collaborators) (filePath : string) (w : World)
    : option (option string) * World :=
  match execLfsPull c filePath (fs w) with
  | (Returned _, fs') => (None, withFs fs' w)
  | (Thrown e, fs') => (Some (message e), withFs fs' w)
  end.

Definition hasFormat (cfg : Config) (f : string) : bool :=
  existsb (String.eqb f) (formats cfg).

(** [generateConfiguredPaths(filename)]: the entries of the [paths]
    object in insertion order. *)
Definition generateConfiguredPaths (c : Collaborators) (cfg : Config)
    (filename : string) : list (string * string) :=
  let name := parseName c filename in
  let ext := parseExtLower c filename in
  (if hasFormat cfg "webp"
   then [("webp", join c (outputDir cfg) (name +:+ ".webp"))] else []) ++
  (if hasFormat cfg "avif"
   then [("avif", join c (outputDir cfg) (name +:+ ".avif"))] else []) ++
  (if hasFormat cfg "original" || hasFormat cfg "jpeg" || hasFormat cfg "png"
   then
     let outputExt :=
       if String.eqb ext ".jpeg" || String.eqb ext ".jpg"
       then (if hasFormat cfg "jpeg" then ".jpg" else ext)
       else if String.eqb ext ".png" then ".png" else ext in
     [("original", join c (outputDir cfg) (name +:+ outputExt))]
   else []) ++
  (if generateThumbnails cfg
   then [("thumbnail", join c (outputDir cfg) (name +:+ "-thumb.webp"))] else []).

(** The [try { ... } catch (error) { return 'error' }] block of
    [optimizeImage]. *)
Definition processFile (c : Collaborators) (cfg : Config)
    (inputPath filename : string) (w : World) : OptimizeResult * World :=
  let ext := parseExtLower c filename in
  let fail (e : JsError) (w' : World) :=
    (ResError, emit (LogProcessingError filename (message e)) w') in
  match mkdir c (dirname c (join c (outputDir cfg) filename)) (fs w) with
  | (Thrown e, fs1) => fail e (withFs fs1 w)
  | (Returned _, fs1) =>
      let w1 := withFs fs1 w in
      if String.eqb ext ".gif" then
        match copyFile c inputPath (join c (outputDir cfg) filename) (fs w1) with
        | (Thrown e, fs2) => fail e (withFs fs2 w1)
        | (Returned _, fs2) => (ResProcessed, emit (LogCopied filename) (withFs fs2 w1))
        end
      else
        let configs := generateConfigs c filename in
        match configs with
        | [] => (ResProcessed, w1)
        | first :: _ =>
            match mkdir c (dirname c (outputPath first)) (fs w1) with
            | (Thrown e, fs2) => fail e (withFs fs2 w1)
            | (Returned _, fs2) =>
                let w2 := emit (CodecInvoked inputPath configs) (withFs fs2 w1) in
                match processImage c inputPath configs (fs w2) with
                | (Thrown e, fs3) => fail e (withFs fs3 w2)
                | (Returned results, fs3) =>
                    let w3 := withFs fs3 w2 in
                    match List.filter (fun r => negb (success r)) results with
                    | bad :: _ =>
                        fail {| message := resultError bad; code := None; stack := None |} w3
                    | [] => (ResProcessed, emit (LogOptimized filename) w3)
                    end
                end
            end
        end
  end.

(** [optimizeImage(inputPath, filename, options)] *)
Definition optimizeImage (c : Collaborators) (cfg : Config)
    (inputPath filename : string) (options : Options) (w : World)
    : OptimizeResult * World :=
  let lfsCheck : option OptimizeResult * World :=
    if isGitLfsPointer (fs w) inputPath then
      if pullLfs options then
        let w1 := emit (LogPulling filename) w in
        match pullFile c inputPath w1 with
        | (Some msg, w2) => (Some ResLfsError, emit (LogPullError filename msg) w2)
        | (None, w2) =>
            if isGitLfsPointer (fs w2) inputPath
            then (Some ResLfsError, emit (LogPullFailed filename) w2)
            else (None, w2)
        end
      else (Some ResLfsPointer, emit (LogSkipPointer filename) w)
    else (None, w) in
  match lfsCheck with
  | (Some r, w') => (r, w')
  | (None, w') =>
      let paths := generateConfiguredPaths c cfg filename in
      let outputPaths := List.map snd paths in
      let needsProcessing :=
        Timestamp.shouldProcess (statOf (fs w')) inputPath outputPaths
          (forceReprocess options) in
      if negb needsProcessing then (ResSkipped, emit (LogUpToDate filename) w')
      else processFile c cfg inputPath filename w'
  end.

End Optimizer.

(** ** The state the recovery manager and the batch loop act on *)

Module Runtime.

(** One line of the error log: [{timestamp, file, error, context}]. *)
Record ErrorEntry := mkErrorEntry {
  timestamp : Z;
  file : option JsVal;
  entryError : JsError;
  context : gmap string JsVal
}.

(** A value of the [processedFiles] map; its [error], when there is
    one, is an [Error] object. *)
Record LedgerEntry := mkLedgerEntry {
  status : option string;
  ledgerError : option JsError;
  outputs : option (list string)
}.

(** The [progress] object of a checkpoint.  A field is [None] when the
    object lacks it or when it was [NaN] (which JSON stores as [null]). *)
Record Progress := mkProgress {
  total : option Z;
  progressProcessed : option Z;
  succeeded : option Z;
  failed : option Z;
  remaining : option Z
}.

Record Files := mkFiles {
  filesProcessed : option (list (string * LedgerEntry));
  pending : list string
}.

(** What [JSON.stringify] writes of a value and [JSON.parse] reads back.
    Of an [Error] object it writes the own enumerable properties only:
    the [code], when one was set; [message] and [stack] are not
    enumerable, so the object comes back without them.  Strings, numbers,
    arrays and plain objects come back as they were. *)
Definition jsonError (e : JsError) : JsError :=
  {| message := None; code := code e; stack := None |}.

Definition jsonEntry (r : LedgerEntry) : LedgerEntry :=
  {| status := status r;
     ledgerError := jsonError <$> ledgerError r;
     outputs := outputs r |}.

Definition jsonLedger (l : list (string * LedgerEntry)) : list (string * LedgerEntry) :=
  List.map (fun kv => (fst kv, jsonEntry (snd kv))) l.

Definition jsonFiles (f : Files) : Files :=
  {| filesProcessed := jsonLedger <$> filesProcessed f;
     pending := pending f |}.

(** The old checkpoint format the resume code still reads. *)
Record Checkpoint := mkCheckpoint {
  processedCount : option Z
}.

(** A parsed checkpoint file. *)
Record SavedState := mkSavedState {
  version : option string;
  startedAt : option Z;
  lastUpdatedAt : option Z;
  configuration : gmap string JsVal;
  checkpoint : option Checkpoint;
  progress : option Progress;
  files : option Files
}.

(** What is left of a state object once it was written as JSON. *)
Definition jsonState (s : SavedState) : SavedState :=
  {| version := version s;
     startedAt := startedAt s;
     lastUpdatedAt := lastUpdatedAt s;
     configuration := configuration s;
     checkpoint := checkpoint s;
     progress := progress s;
     files := jsonFiles <$> files s |}.

(** The text of the checkpoint file: the JSON of a state (given by the
    state [JSON.parse] reads from it), or something [JSON.parse]
    rejects. *)
Inductive StateFileContent :=
| Json (s : SavedState)
| Unparsable.

Inductive LogMessage :=
| MsgRetry (attempt maxRetries : Z) (file : option JsVal) (delay : Z)
| MsgVersionMismatch
| MsgFailedToLoadState
| MsgNoImages
| MsgFound (n : nat)
| MsgForce
| MsgLfsPull
| MsgBlank
| MsgResuming (startIndex : Z)
| MsgFatal (e : JsError).

(** Everything observable from outside, in the order it happens. *)
Inductive Event :=
| ConsoleLog (msg : LogMessage)
| ConsoleWarn (msg : LogMessage)
| ConsoleError (msg : LogMessage)
| Slept (ms : Z)
| ProgressStart (n : nat)
| ProgressSetFilename (f : string)
| ProgressIncrement (st : string) (f : string)
| ProgressFinish
| OptimizeCalled (inputPath f : string).

(** The clock, the two files the manager owns (the checkpoint at
    [stateFile], the log at [errorLog]; [None] when the file does not
    exist), the in-memory error list and ledger, and the trace.  Reads and
    writes of the two files succeed. *)
Record World := mkWorld {
  now : Z;
  stateFile : option StateFileContent;
  errorLog : option (list ErrorEntry);
  errors : list ErrorEntry;
  processedFiles : list (string * LedgerEntry);
  trace : list Event
}.

Definition emit (ev : Event) (w : World) : World :=
  {| now := now w; stateFile := stateFile w; errorLog := errorLog w;
     errors := errors w; processedFiles := processedFiles w;
     trace := trace w ++ [ev] |}.

Definition withStateFile (f : option StateFileContent) (w : World) : World :=
  {| now := now w; stateFile := f; errorLog := errorLog w;
     errors := errors w; processedFiles := processedFiles w;
     trace := trace w |}.

Definition withErrorLog (f : option (list ErrorEntry)) (w : World) : World :=
  {| now := now w; stateFile := stateFile w; errorLog := f;
     errors := errors w; processedFiles := processedFiles w;
     trace := trace w |}.

Definition withErrors (es : list ErrorEntry) (w : World) : World :=
  {| now := now w; stateFile := stateFile w; errorLog := errorLog w;
     errors := es; processedFiles := processedFiles w;
     trace := trace w |}.

Definition withProcessedFiles (l : list (string * LedgerEntry)) (w : World) : World :=
  {| now := now w; stateFile := stateFile w; errorLog := errorLog w;
     errors := errors w; processedFiles := l;
     trace := trace w |}.

(** [sleep(ms)]: the timer lets [ms] milliseconds pass. *)
Definition sleep (ms : Z) (w : World) : World :=
  let w' := emit (Slept ms) w in
  {| now := now w' + Z.max 0 ms; stateFile := stateFile w'; errorLog := errorLog w';
     errors := errors w'; processedFiles := processedFiles w';
     trace := trace w' |}.

(** [Map.prototype.set]: an existing key keeps its place. *)
Fixpoint mapSet (k : string) (v : LedgerEntry) (l : list (string * LedgerEntry))
    : list (string * LedgerEntry) :=
  match l with
  | [] => [(k, v)]
  | (k', v') :: rest =>
      if String.eqb k k' then (k, v) :: rest else (k', v') :: mapSet k v rest
  end.

(** [Map.prototype.has] *)
Definition mapHas (k : string) (l : list (string * LedgerEntry)) : bool :=
  existsb (fun kv => String.eqb k (fst kv)) l.

End Runtime.

(** ** ErrorLogger (src/utils/error-logger.js) *)

Module ErrorLogger.
Import Runtime.

Definition truthyVal (v : JsVal) : bool :=
  match v with
  | JsStr s => negb (String.eqb s EmptyString)
  | JsNum n => negb (Z.eqb n 0)
  end.

(** [context.attempt || 0] *)
Definition retryCount (ctx : gmap string JsVal) : JsVal :=
  match ctx !! "attempt" with
  | Some v => if truthyVal v then v else JsNum 0
  | None => JsNum 0
  end.

Definition makeEntry (f : option JsVal) (e : JsError) (ctx : gmap string JsVal)
    (w : World) : ErrorEntry :=
  {| timestamp := now w;
     file := f;
     entryError := {| message := message e; code := code e; stack := stack e |};
     context := <["retryCount" := retryCount ctx]> ctx |}.

(** [log(file, error, context)]: push onto [this.errors], then append the
    line to the log file (creating it when absent). *)
Definition log (f : option JsVal) (e : JsError) (ctx : gmap string JsVal)
    (w : World) : World :=
  let errorEntry := makeEntry f e ctx w in
  let w1 := withErrors (errors w ++ [errorEntry]) w in
  withErrorLog (Some (default [] (errorLog w1) ++ [errorEntry])) w1.

(** [getErrors()], [getErrorCount()] *)
Definition getErrors (w : World) : list ErrorEntry := errors w.
Definition getErrorCount (w : World) : nat := List.length (errors w).

(** [clear()]: forget the in-memory errors and unlink the log file. *)
Definition clear (w : World) : World :=
  withErrorLog None (withErrors [] w).

End ErrorLogger.

(** ** StatePersistenceManager (src/state/state-persistence-manager.js) *)

Module StatePersistence.
Import Runtime.

(** The argument of [save]: the fields it reads. *)
Record StateToSave := mkStateToSave {
  argStartedAt : option Z;
  argConfiguration : option (gmap string JsVal);
  argProgress : option Progress;
  argFiles : option Files
}.

(** [save(state)]: [JSON.stringify(stateData, null, 2)] is written to the
    file. *)
Definition save (state : StateToSave) (w : World) : World :=
  let stateData :=
    {| version := Some "1.0";
       startedAt := Some (default (now w) (argStartedAt state));
       lastUpdatedAt := Some (now w);
       configuration := default ∅ (argConfiguration state);
       checkpoint := None;
       progress := Some (default (mkProgress None None None None None) (argProgress state));
       files := Some (default (mkFiles (Some []) []) (argFiles state)) |} in
  withStateFile (Some (Json (jsonState stateData))) w.

(** [load()]: [null] for a missing, unparsable or differently versioned
    checkpoint. *)
Definition load (w : World) : option SavedState * World :=
  match stateFile w with
  | None => (None, w)
  | Some Unparsable => (None, emit (ConsoleError MsgFailedToLoadState) w)
  | Some (Json state) =>
      if negb (match version state with
               | Some v => String.eqb v "1.0"
               | None => false
               end)
      then (None, emit (ConsoleWarn MsgVersionMismatch) w)
      else (Some state, w)
  end.

(** [clear()] *)
Definition clear (w : World) : World := withStateFile None w.

(** [exists()] *)
Definition exists_ (w : World) : bool :=
  match stateFile w with Some _ => true | None => false end.

End StatePersistence.

(** ** ErrorRecoveryManager (src/state/error-recovery-manager.js) *)

Module Recovery.
Import JsString Runtime.

(** The [options] object of the constructor. *)
Record ManagerOptions := mkManagerOptions {
  optContinueOnError : option bool;
  optMaxRetries : option Z;
  optRetryDelay : option Z;
  optExponentialBackoff : option bool
}.

(** The configuration fields of the manager. *)
Record Manager := mkManager {
  continueOnError : bool;
  maxRetries : Z;
  retryDelay : Z;
  exponentialBackoff : bool
}.

(** [new ErrorRecoveryManager(options)] *)
Definition newManager (options : ManagerOptions) : Manager :=
  {| continueOnError := default false (optContinueOnError options);
     maxRetries :=
       if truthyNum (optMaxRetries options) then orZero (optMaxRetries options) else 3;
     retryDelay :=
       if truthyNum (optRetryDelay options) then orZero (optRetryDelay options) else 1000;
     exponentialBackoff :=
       match optExponentialBackoff options with
       | Some false => false
       | _ => true
       end |}.

Definition retryableErrors : list string :=
  ["ENOENT"; "EBUSY"; "ETIMEDOUT"; "ECONNRESET"; "ENOTFOUND"].

(** [retryableErrors.includes(error.code) ||
     (error.message && error.message.includes('LFS'))] *)
Definition isRetryable (e : JsError) : bool :=
  match code e with
  | Some c => existsb (String.eqb c) retryableErrors
  | None => false
  end ||
  match message e with
  | Some msg => negb (String.eqb msg EmptyString) && includes msg "LFS"
  | None => false
  end.

(** [exponentialBackoff ? retryDelay * Math.pow(2, attempt - 1) : retryDelay] *)
Definition retryDelayFor (m : Manager) (attempt : Z) : Z :=
  if exponentialBackoff m then retryDelay m * 2 ^ (attempt - 1)
  else retryDelay m.

(** What [processWithRecovery] resolves to. *)
Record RecoveryResult (R : Type) := mkRecoveryResult {
  success : bool;
  result : option R;
  error : option JsError;
  attempts : Z
}.
Arguments mkRecoveryResult {R}.
Arguments success {R}.
Arguments result {R}.
Arguments error {R}.
Arguments attempts {R}.

(** The [for (let attempt = 1; attempt <= this.maxRetries; attempt++)]
    loop.  [operation k] is the outcome of the call number [k] (from 0) of
    the operation; every pass of the loop calls it once.  [fuel] bounds
    the number of times the loop condition is evaluated; [None] means the
    bound was too small. *)
Fixpoint attemptLoop {R : Type} (m : Manager) (operation : nat -> Completion R)
    (ctx : gmap string JsVal) (fuel : nat) (attempt : Z)
    (lastError : option JsError) (w : World)
    : option (Completion (RecoveryResult R) * World) :=
  match fuel with
  | O => None
  | S fuel' =>
      if Z.leb attempt (maxRetries m) then
        match operation (Z.to_nat (attempt - 1)) with
        | Returned r =>
            Some (Returned (mkRecoveryResult true (Some r) None attempt), w)
        | Thrown e =>
            if negb (isRetryable e) || Z.eqb attempt (maxRetries m) then
              let w1 :=
                ErrorLogger.log (ctx !! "file") e (<["attempt" := JsNum attempt]> ctx) w in
              if continueOnError m
              then Some (Returned (mkRecoveryResult false None (Some e) attempt), w1)
              else Some (Thrown e, w1)
            else
              let delay := retryDelayFor m attempt in
              let w1 :=
                emit (ConsoleLog (MsgRetry attempt (maxRetries m) (ctx !! "file") delay)) w in
              let w2 := sleep delay w1 in
              attemptLoop m operation ctx fuel' (attempt + 1) (Some e) w2
        end
      else
        Some (Returned (mkRecoveryResult false None lastError (maxRetries m)), w)
  end.

(** [processWithRecovery(operation, context)] *)
Definition processWithRecovery {R : Type} (m : Manager)
    (operation : nat -> Completion R) (ctx : gmap string JsVal) (w : World)
    : option (Completion (RecoveryResult R) * World) :=
  attemptLoop m operation ctx (S (Z.to_nat (maxRetries m))) 1 None w.

(** What one retry does between two attempts: the log line and the
    sleep of the loop body. *)
Definition retryStep (m : Manager) (ctx : gmap string JsVal) (attempt : Z)
    (w : World) : World :=
  let delay := retryDelayFor m attempt in
  sleep delay
    (emit (ConsoleLog (MsgRetry attempt (maxRetries m) (ctx !! "file") delay)) w).

(** [k] retries in a row, the first one after attempt [attempt]. *)
Fixpoint retrySteps (m : Manager) (ctx : gmap string JsVal) (k : nat)
    (attempt : Z) (w : World) : World :=
  match k with
  | O => w
  | S k' => retrySteps m ctx k' (attempt + 1) (retryStep m ctx attempt w)
  end.

(** The sleeps recorded in a trace, in order. *)
Definition sleptIn (t : list Event) : list Z :=
  omap (fun ev => match ev with Slept ms => Some ms | _ => None end) t.

(** The log lines of an invocation and the value it settles with, for
    statements about its outcome. *)
Definition isSuccess {R : Type} (c : Completion (RecoveryResult R)) : bool :=
  match c with
  | Returned r => success r
  | Thrown _ => false
  end.

(** The argument of [saveState]: the fields it reads. *)
Record SaveArg := mkSaveArg {
  argTotal : option Z;
  argPending : option (list string);
  argStartedAt : option Z;
  argConfiguration : option (gmap string JsVal)
}.

Definition countStatus (st : string) (l : list (string * LedgerEntry)) : Z :=
  Z.of_nat (List.length
    (List.filter (fun kv => match status (snd kv) with
                            | Some s => String.eqb s st
                            | None => false
                            end) l)).

(** [saveState(state)] *)
Definition saveState (state : SaveArg) (w : World) : World :=
  let processedArray := processedFiles w in
  let size := Z.of_nat (List.length (processedFiles w)) in
  let stateToSave :=
    {| StatePersistence.argStartedAt := argStartedAt state;
       StatePersistence.argConfiguration := argConfiguration state;
       StatePersistence.argProgress := Some
         {| total := Some (if truthyNum (argTotal state) then orZero (argTotal state) else 0);
            progressProcessed := Some size;
            succeeded := Some (countStatus "success" processedArray);
            failed := Some (countStatus "failed" processedArray);
            remaining := (fun t => t - size) <$> argTotal state |};
       StatePersistence.argFiles := Some
         {| filesProcessed := Some processedArray;
            pending := default [] (argPending state) |} |} in
  StatePersistence.save stateToSave w.

(** [loadState()]: restores the ledger from [state.files.processed]. *)
Definition loadState (w : World) : option SavedState * World :=
  match StatePersistence.load w with
  | (Some state, w1) =>
      match files state with
      | Some fl =>
          match filesProcessed fl with
          | Some recs =>
              (Some state,
               withProcessedFiles
                 (List.fold_left (fun acc kv => mapSet (fst kv) (snd kv) acc)
                    recs (processedFiles w1)) w1)
          | None => (Some state, w1)
          end
      | None => (Some state, w1)
      end
  | (None, w1) => (None, w1)
  end.

(** [clearState()] *)
Definition clearState (w : World) : World :=
  withProcessedFiles [] (ErrorLogger.clear (StatePersistence.clear w)).

(** [recordProcessedFile(filePath, result)] *)
Definition recordProcessedFile (filePath : string) (r : LedgerEntry) (w : World) : World :=
  withProcessedFiles (mapSet filePath r (processedFiles w)) w.

(** [isFileProcessed(filePath)] *)
Definition isFileProcessed (filePath : string) (w : World) : bool :=
  mapHas filePath (processedFiles w).

(** [logError(file, error, context)] *)
Definition logError (f : option JsVal) (e : JsError) (ctx : gmap string JsVal)
    (w : World) : World :=
  ErrorLogger.log f e ctx w.

End Recovery.

(** ** ImageOptimizerApp: the batch loop (src/app.js) *)

Module App.
Import Runtime Recovery.

Record Stats := mkStats {
  processed : Z;
  skipped : Z;
  errors : Z;
  lfsPointers : Z;
  lfsErrors : Z
}.

Definition zeroStats : Stats := mkStats 0 0 0 0 0.

(** The [options] argument of [processImages]. *)
Record RunOptions := mkRunOptions {
  forceReprocess : bool;
  pullLfs : bool;
  continueOnError : bool;
  resumeFlag : bool
}.

(** The third argument of [optimizer.optimizeImage]. *)
Record OptimizeOptions := mkOptimizeOptions {
  optForceReprocess : bool;
  optPullLfs : bool;
  optQuality : gmap string Z
}.

(** The fields of the application object.  The optimizer is an injected
    collaborator: a call resolves to one of the result strings or rejects. *)
Record App := mkApp {
  configQuality : gmap string Z;
  qualityRulesEngine : QualityRules.Engine;
  optimizer : string -> string -> OptimizeOptions -> Completion OptimizeResult;
  inputDir : string;
  join : string -> string -> string
}.

(** What the file system answers at the start of a run: the outcome of
    [fs.mkdir(outputDir)] and of the enumeration [_findImageFiles]. *)
Record Environment := mkEnvironment {
  mkdirOutput : Completion unit;
  imageFiles : Completion (list string)
}.

(** [_updateStats(stats, result, file)] *)
Definition updateStats (stats : Stats) (r : OptimizeResult) (f : string) (w : World)
    : Stats * World :=
  match r with
  | ResProcessed =>
      (mkStats (processed stats + 1) (skipped stats) (errors stats)
               (lfsPointers stats) (lfsErrors stats),
       emit (ProgressIncrement "processed" f) w)
  | ResSkipped =>
      (mkStats (processed stats) (skipped stats + 1) (errors stats)
               (lfsPointers stats) (lfsErrors stats),
       emit (ProgressIncrement "skipped" f) w)
  | ResError =>
      (mkStats (processed stats) (skipped stats) (errors stats + 1)
               (lfsPointers stats) (lfsErrors stats),
       emit (ProgressIncrement "error" f) w)
  | ResLfsPointer =>
      (mkStats (processed stats) (skipped stats) (errors stats)
               (lfsPointers stats + 1) (lfsErrors stats),
       emit (ProgressIncrement "skipped" f) w)
  | ResLfsError =>
      (mkStats (processed stats) (skipped stats) (errors stats)
               (lfsPointers stats) (lfsErrors stats + 1),
       emit (ProgressIncrement "error" f) w)
  end.

Definition processingErrorContext : gmap string JsVal :=
  {[ "type" := JsStr "processing_error" ]}.

(** The argument [{ processedCount, totalCount }] the loop gives to
    [saveState] has none of the fields [saveState] reads. *)
Definition loopSaveArg : SaveArg := mkSaveArg None None None None.

(** The [catch (error)] block inside the loop.  The third component is
    the error that leaves the loop, if any. *)
Definition catchInLoop (opts : RunOptions) (f : string) (e : JsError)
    (stats : Stats) (w : World) : Stats * World * option JsError :=
  let stats1 :=
    mkStats (processed stats) (skipped stats) (errors stats + 1)
            (lfsPointers stats) (lfsErrors stats) in
  let w1 := emit (ProgressIncrement "error" f) w in
  let w2 := logError (Some (JsStr f)) e processingErrorContext w1 in
  (stats1, w2, if continueOnError opts then None else Some e).

(** One pass of the [for (let i = 0; i < filesToProcess.length; i++)] loop. *)
Definition processOne (app : App) (opts : RunOptions) (i : nat) (f : string)
    (stats : Stats) (w : World) : Stats * World * option JsError :=
  let w0 := emit (ProgressSetFilename f) w in
  let inputPath := join app (inputDir app) f in
  let imageQuality :=
    QualityRules.getQualityForImage (qualityRulesEngine app) inputPath None ∅ in
  let mergedQuality := imageQuality ∪ configQuality app in
  let w1 := emit (OptimizeCalled inputPath f) w0 in
  match optimizer app inputPath f
          (mkOptimizeOptions (forceReprocess opts) (pullLfs opts) mergedQuality) with
  | Thrown e => catchInLoop opts f e stats w1
  | Returned r =>
      let '(stats2, w2) := updateStats stats r f w1 in
      let finish (w' : World) : Stats * World * option JsError :=
        let w3 :=
          recordProcessedFile f (mkLedgerEntry (Some (resultString r)) None None) w' in
        let w4 := if Nat.eqb (i mod 10) 0 then saveState loopSaveArg w3 else w3 in
        (stats2, w4, None) in
      match r with
      | ResError =>
          let e := mkJsError (Some ("Failed to process " +:+ f)) None None in
          let w3 := logError (Some (JsStr f)) e processingErrorContext w2 in
          if negb (continueOnError opts) then catchInLoop opts f e stats2 w3
          else finish w3
      | _ => finish w2
      end
  end.

(** The loop over [filesToProcess], from index [i]. *)
Fixpoint processFiles (app : App) (opts : RunOptions) (filesToProcess : list string)
    (i : nat) (stats : Stats) (w : World) : Stats * World * option JsError :=
  match filesToProcess with
  | [] => (stats, w, None)
  | f :: rest =>
      match processOne app opts i f stats w with
      | (stats', w', Some e) => (stats', w', Some e)
      | (stats', w', None) => processFiles app opts rest (S i) stats' w'
      end
  end.

(** [savedState.checkpoint?.processedCount || savedState.progress?.processed || 0] *)
Definition savedStartIndex (savedState : SavedState) : Z :=
  let fromCheckpoint := checkpoint savedState ≫= processedCount in
  let fromProgress := progress savedState ≫= progressProcessed in
  if truthyNum fromCheckpoint then orZero fromCheckpoint
  else if truthyNum fromProgress then orZero fromProgress
  else 0.

(** [imageFiles.slice(startIndex)]: a negative start counts from the end. *)
Definition slice (l : list string) (start : Z) : list string :=
  if Z.ltb start 0
  then drop (Z.to_nat (Z.max (Z.of_nat (List.length l) + start) 0)) l
  else drop (Z.to_nat start) l.

(** The outer [catch (error)] block of [processImages]. *)
Definition fatal (e : JsError) (w : World) : Completion Stats * World :=
  let w1 := emit ProgressFinish w in
  let w2 := emit (ConsoleError (MsgFatal e)) w1 in
  let w3 := logError (Some (JsStr "FATAL")) e {[ "type" := JsStr "fatal" ]} w2 in
  (Thrown e, w3).

Definition startIndexOf (opts : RunOptions) (savedState : option SavedState) : Z :=
  match savedState with
  | Some s => if resumeFlag opts then savedStartIndex s else 0
  | None => 0
  end.

(** [processImages(options)] *)
Definition processImages (app : App) (env : Environment) (opts : RunOptions)
    (w : World) : Completion Stats * World :=
  match mkdirOutput env with
  | Thrown e => fatal e w
  | Returned _ =>
      match imageFiles env with
      | Thrown e => fatal e w
      | Returned found =>
          if Nat.eqb (List.length found) 0
          then (Returned zeroStats, emit (ConsoleLog MsgNoImages) w)
          else
            let w1 := emit (ProgressStart (List.length found)) w in
            let w2 := emit (ConsoleLog (MsgFound (List.length found))) w1 in
            let w3 := if forceReprocess opts then emit (ConsoleLog MsgForce) w2 else w2 in
            let w4 := if pullLfs opts then emit (ConsoleLog MsgLfsPull) w3 else w3 in
            let w5 := emit (ConsoleLog MsgBlank) w4 in
            let '(savedState, w6) := loadState w5 in
            let startIndex := startIndexOf opts savedState in
            let w7 :=
              if Z.ltb 0 startIndex
              then emit (ConsoleLog (MsgResuming startIndex)) w6 else w6 in
            let filesToProcess := slice found startIndex in
            match processFiles app opts filesToProcess 0 zeroStats w7 with
            | (_, w8, Some e) => fatal e w8
            | (stats, w8, None) =>
                let w9 := emit ProgressFinish w8 in
                let w10 :=
                  if Z.eqb (errors stats) 0 then clearState w9
                  else saveState loopSaveArg w9 in
                (Returned stats, w10)
            end
      end
  end.

(** What the optimizer answers for a file of the enumeration, with the
    arguments the loop passes. *)
Definition outcomeOf (app : App) (opts : RunOptions) (f : string)
    : Completion OptimizeResult :=
  let inputPath := join app (inputDir app) f in
  optimizer app inputPath f
    (mkOptimizeOptions (forceReprocess opts) (pullLfs opts)
       (QualityRules.getQualityForImage (qualityRulesEngine app) inputPath None ∅
        ∪ configQuality app)).

(** The outcomes that raise [stats.errors]: the result 'error' and a
    rejected call. *)
Definition countsAsError (c : Completion OptimizeResult) : bool :=
  match c with
  | Thrown _ => true
  | Returned ResError => true
  | Returned _ => false
  end.

(** The number of files of a list that raise [stats.errors]. *)
Definition errorCount (app : App) (opts : RunOptions) (l : list string) : Z :=
  Z.of_nat (List.length
    (List.filter (fun f => countsAsError (outcomeOf app opts f)) l)).

(** The files handed to the optimizer, in order, as recorded in a trace. *)
Definition optimizedFiles (t : list Event) : list string :=
  omap (fun ev => match ev with
                  | OptimizeCalled _ f => Some f
                  | _ => None
                  end) t.

End App.

(** ** Concrete inputs used to run the definitions *)

Module Samples.

(** Two directory rules of equal score that both match x/y/f.png, and
    dependencies for rules without a pattern. *)
Definition tieFirst : QualityRules.Rule :=
  QualityRules.mkRule None (Some "x/") None None None None (Some {[ "webp" := 90 ]}).
Definition tieSecond : QualityRules.Rule :=
  QualityRules.mkRule None (Some "y/") None None None None (Some {[ "webp" := 70 ]}).
Definition tieDeps : QualityRules.Dependencies :=
  QualityRules.mkDependencies (fun _ _ => false) (fun s => s).

(** The nested directory rules of the test suite. *)
Definition nestedRules : list QualityRules.Rule :=
  [QualityRules.mkRule None (Some "assets/images/") None None None None
     (Some {[ "webp" := 75 ]});
   QualityRules.mkRule None (Some "assets/images/heroes/") None None None None
     (Some {[ "webp" := 90 ]})].

(** The hero rules of the test suite. *)
Definition heroRule : QualityRules.Rule :=
  QualityRules.mkRule (Some "*-hero.*") None None None None None
    (Some {[ "webp" := 90 ]}).
Definition heroInBannersRule : QualityRules.Rule :=
  QualityRules.mkRule (Some "*-hero.*") (Some "banners/") None None None None
    (Some {[ "webp" := 95 ]}).

(** An input and an output with the same modification time. *)
Definition equalStats : Timestamp.FileStats :=
  fun p =>
    if String.eqb p "in.png" then Some 100
    else if String.eqb p "out.webp" then Some 100
    else None.

(** Collaborators over an idle disk: path functions on flat names, and
    operations that succeed without touching a file. *)
Definition idleCollaborators : Optimizer.Collaborators :=
  {| Optimizer.parseName := fun f => f;
     Optimizer.parseExtLower := fun _ => ".png";
     Optimizer.join := fun a b => a +:+ "/" +:+ b;
     Optimizer.dirname := fun p => p;
     Optimizer.execLfsPull := fun _ fs => (Returned tt, fs);
     Optimizer.mkdir := fun _ fs => (Returned tt, fs);
     Optimizer.copyFile := fun _ _ fs => (Returned tt, fs);
     Optimizer.generateConfigs := fun _ => [];
     Optimizer.processImage := fun _ _ fs => (Returned [], fs) |}.

Definition defaultConfig : Optimizer.Config :=
  Optimizer.mkConfig ["webp"; "avif"; "original"] "optimized" true.

Definition emptyWorld : Optimizer.World := Optimizer.mkWorld ∅ [].

(** The manager of the unit tests: three attempts, continue on error. *)
Definition testManager : Recovery.Manager :=
  Recovery.newManager (Recovery.mkManagerOptions (Some true) (Some 3) (Some 50) None).

Definition busyError : JsError := mkJsError (Some "Busy") (Some "EBUSY") None.
Definition timeoutError : JsError := mkJsError (Some "Timeout") (Some "ETIMEDOUT") None.
Definition formatError : JsError := mkJsError (Some "Invalid format") None None.

(** Fails twice with EBUSY, then succeeds. *)
Definition flakyOperation : nat -> Completion string :=
  fun k => match k with
           | O | S O => Thrown busyError
           | _ => Returned "success"
           end.

Definition alwaysTimeout : nat -> Completion string :=
  fun _ => Thrown timeoutError.

Definition alwaysInvalid : nat -> Completion string :=
  fun _ => Thrown formatError.

Definition testContext : gmap string JsVal := {[ "file" := JsStr "test.png" ]}.

(** No checkpoint, no log, empty ledger, clock at 0. *)
Definition freshWorld : Runtime.World := Runtime.mkWorld 0 None None [] [] [].

(** A checkpoint as [StatePersistenceManager.save] writes it, with
    [progress.processed = 5]. *)
Definition checkpointAtFive : Runtime.SavedState :=
  {| Runtime.version := Some "1.0";
     Runtime.startedAt := Some 0;
     Runtime.lastUpdatedAt := Some 0;
     Runtime.configuration := ∅;
     Runtime.checkpoint := None;
     Runtime.progress :=
       Some (Runtime.mkProgress (Some 10) (Some 5) (Some 5) (Some 0) (Some 5));
     Runtime.files := Some (Runtime.mkFiles (Some []) []) |}.

Definition oldEntry : Runtime.ErrorEntry :=
  Runtime.mkErrorEntry 0 (Some (JsStr "old.png")) formatError ∅.

(** A disk that holds a checkpoint and an error log from an earlier run. *)
Definition interruptedWorld : Runtime.World :=
  Runtime.mkWorld 0 (Some (Runtime.Json checkpointAtFive)) (Some [oldEntry])
    [] [] [].

Definition tenFiles : list string :=
  ["image0.png"; "image1.png"; "image2.png"; "image3.png"; "image4.png";
   "image5.png"; "image6.png"; "image7.png"; "image8.png"; "image9.png"].

(** An application whose optimizer answers the same for every file. *)
Definition appAnswering (c : Completion OptimizeResult) : App.App :=
  {| App.configQuality := {[ "webp" := 80 ]};
     App.qualityRulesEngine := QualityRules.newEngine [] tieDeps;
     App.optimizer := fun _ _ _ => c;
     App.inputDir := "original";
     App.join := fun a b => a +:+ "/" +:+ b |}.

Definition envWith (found : list string) : App.Environment :=
  App.mkEnvironment (Returned tt) (Returned found).

Definition resumeOptions : App.RunOptions := App.mkRunOptions false false true true.
Definition plainOptions : App.RunOptions := App.mkRunOptions false false true false.

(** Two files that both end as 'error', continuing on errors, from a
    clean start. *)
Definition twoErrorsRun : Completion App.Stats * Runtime.World :=
  App.processImages (appAnswering (Returned ResError))
    (envWith ["a.png"; "b.png"]) plainOptions freshWorld.

(** One file that ends as 'lfs-error', over the interrupted disk. *)
Definition lfsErrorRun : Completion App.Stats * Runtime.World :=
  App.processImages (appAnswering (Returned ResLfsError))
    (envWith ["a.png"]) plainOptions interruptedWorld.

End Samples.

(** ** Rules for running the score *)

Module ScoreCases.
Import QualityRules.

Fixpoint repeated (s : string) (n : nat) : string :=
  match n with
  | O => EmptyString
  | S k => s +:+ repeated s k
  end.

(** A rule whose pattern has [c] literal characters and whose directory
    has [d] segments (none of either for 0), with or without a size
    bound. *)
Definition ruleWith (c d : nat) (size : bool) : Rule :=
  mkRule (if Nat.eqb c 0 then None else Some (repeated "a" c))
         (if Nat.eqb d 0 then None else Some (repeated "x/" d))
         (if size then Some 100 else None) None None None None.

(** All such rules with fewer than 100 characters and 12 segments. *)
Definition grid : list Rule :=
  c ← List.seq 0 100; d ← List.seq 0 12; size ← [false; true];
  [ruleWith c d size].

(** Two rules whose scores both read 10.4 in decimals. *)
Definition shortInDeep : Rule :=
  mkRule (Some "a*") (Some "x/y/z/") None None None None (Some {[ "webp" := 90 ]}).
Definition longInShallow : Rule :=
  mkRule (Some "a*g") (Some "x/y/") None None None None (Some {[ "webp" := 70 ]}).

(** Dependencies whose matcher accepts the file name ag for both
    patterns, as minimatch does. *)
Definition matchBoth : Dependencies :=
  mkDependencies (fun _ _ => true) (fun s => s).

End ScoreCases.

(** ** QualityRulesEngine.explainMatch *)

Module Explain.
Import JsString QualityRules.

(** [parts.join(sep)] *)
Fixpoint joinWith (sep : string) (parts : list string) : string :=
  match parts with
  | [] => EmptyString
  | [part] => part
  | part :: rest => part +:+ sep +:+ joinWith sep rest
  end.

(** One element of the array [explainMatch] returns. *)
Record Explanation := mkExplanation {
  criteria : string;
  explainedQuality : option (gmap string Z);
  specificity : Q
}.

(** The [parts] array built for a rule: one entry per truthy criterion, in
    the order of the [if]s; a number is printed in decimal. *)
Definition criteriaParts (rule : Rule) : list string :=
  (if truthy (pattern rule)
   then ["pattern: " +:+ default EmptyString (pattern rule)] else []) ++
  (if truthy (directory rule)
   then ["directory: " +:+ default EmptyString (directory rule)] else []) ++
  (if truthyNum (minWidth rule)
   then ["minWidth: " +:+ pretty (orZero (minWidth rule))] else []) ++
  (if truthyNum (minHeight rule)
   then ["minHeight: " +:+ pretty (orZero (minHeight rule))] else []) ++
  (if truthyNum (maxWidth rule)
   then ["maxWidth: " +:+ pretty (orZero (maxWidth rule))] else []) ++
  (if truthyNum (maxHeight rule)
   then ["maxHeight: " +:+ pretty (orZero (maxHeight rule))] else []).

Definition explainRule (rule : Rule) : Explanation :=
  {| criteria := joinWith ", " (criteriaParts rule);
     explainedQuality := quality rule;
     specificity := getSpecificityScore rule |}.

(** [explainMatch(imagePath, metadata)] *)
Definition explainMatch (e : Engine) (imagePath : string)
    (metadata : option Metadata) : list Explanation :=
  let matchingRules :=
    List.filter (fun rule => ruleMatches (deps e) rule imagePath metadata) (rules e) in
  List.map explainRule matchingRules.

End Explain.

(** ** Further concrete inputs *)

Module Cases.

(** A rule bounded by [maxWidth] only, and metadata without dimensions. *)
Definition thumbnailRule : QualityRules.Rule :=
  QualityRules.mkRule None None None None (Some 500) None (Some {[ "webp" := 60 ]}).
Definition blankMetadata : QualityRules.Metadata :=
  QualityRules.mkMetadata None None.

End Cases.

Module OptimizerCases.

(** A disk with an LFS pointer in place of the image. *)
Definition pointerNode : Optimizer.FileNode :=
  Optimizer.mkFileNode "version https://git-lfs.github.com/spec/v1 oid sha256:0" 10.
Definition pointerWorld : Optimizer.World :=
  Optimizer.mkWorld {[ "original/a.png" := pointerNode ]} [].

(** A disk with the image and all four outputs, the thumbnail written in
    the same millisecond as the input. *)
Definition imageNode : Optimizer.FileNode := Optimizer.mkFileNode "PNG" 100.
Definition freshOutputs : gmap string Optimizer.FileNode :=
  {[ "original/a.png" := imageNode;
     "optimized/a.png.webp" := Optimizer.mkFileNode "webp" 120;
     "optimized/a.png.avif" := Optimizer.mkFileNode "avif" 120;
     "optimized/a.png.png" := Optimizer.mkFileNode "png" 120;
     "optimized/a.png-thumb.webp" := Optimizer.mkFileNode "thumb" 100 ]}.
Definition upToDateWorld : Optimizer.World := Optimizer.mkWorld freshOutputs [].

(** A codec whose second output fails. *)
Definition failingCodec : Optimizer.Collaborators :=
  {| Optimizer.parseName := fun f => f;
     Optimizer.parseExtLower := fun _ => ".png";
     Optimizer.join := fun a b => a +:+ "/" +:+ b;
     Optimizer.dirname := fun p => p;
     Optimizer.execLfsPull := fun _ fs => (Returned tt, fs);
     Optimizer.mkdir := fun _ fs => (Returned tt, fs);
     Optimizer.copyFile := fun _ _ fs => (Returned tt, fs);
     Optimizer.generateConfigs := fun f =>
       [Optimizer.mkProcessingConfig ("optimized/" +:+ f +:+ ".webp") "webp";
        Optimizer.mkProcessingConfig ("optimized/" +:+ f +:+ ".avif") "avif"];
     Optimizer.processImage := fun _ _ fs =>
       (Returned [Optimizer.mkProcessResult true None;
                  Optimizer.mkProcessResult false (Some "avif failed")], fs) |}.

(** The same codec with both outputs succeeding. *)
Definition workingCodec : Optimizer.Collaborators :=
  {| Optimizer.parseName := fun f => f;
     Optimizer.parseExtLower := fun _ => ".png";
     Optimizer.join := fun a b => a +:+ "/" +:+ b;
     Optimizer.dirname := fun p => p;
     Optimizer.execLfsPull := fun _ fs => (Returned tt, fs);
     Optimizer.mkdir := fun _ fs => (Returned tt, fs);
     Optimizer.copyFile := fun _ _ fs => (Returned tt, fs);
     Optimizer.generateConfigs := fun f =>
       [Optimizer.mkProcessingConfig ("optimized/" +:+ f +:+ ".webp") "webp";
        Optimizer.mkProcessingConfig ("optimized/" +:+ f +:+ ".avif") "avif"];
     Optimizer.processImage := fun _ _ fs =>
       (Returned [Optimizer.mkProcessResult true None;
                  Optimizer.mkProcessResult true None], fs) |}.

Definition imageWorld : Optimizer.World :=
  Optimizer.mkWorld {[ "original/a.png" := imageNode ]} [].

End OptimizerCases.

(** ** Notions used to state properties of the manager *)

Module Ledger.
Import Runtime.

(** The in-memory error list and the lines of the log file agree (a
    missing file has no lines). *)
Definition mirrored (w : World) : Prop :=
  errors w = default [] (errorLog w).

(** The keys of the [processedFiles] map, in insertion order. *)
Definition keys (l : list (string * LedgerEntry)) : list string :=
  List.map fst l.

(** The sum of a list of delays. *)
Definition totalDelay (l : list Z) : Z := List.fold_right Z.add 0 l.

(** The delays of [k] retries in a row, the first one after attempt [a]. *)
Definition retryDelaysFrom (m : Recovery.Manager) (a : Z) (k : nat) : list Z :=
  List.map (fun i => Recovery.retryDelayFor m (a + Z.of_nat i)) (List.seq 0 k).

(** The delays of the first [k] retries of an invocation. *)
Definition retryDelays (m : Recovery.Manager) (k : nat) : list Z :=
  retryDelaysFrom m 1 k.

(** The total time slept after [k] retries, in closed form. *)
Definition backoffTotal (m : Recovery.Manager) (k : nat) : Z :=
  if Recovery.exponentialBackoff m
  then Recovery.retryDelay m * (2 ^ Z.of_nat k - 1)
  else Z.of_nat k * Recovery.retryDelay m.

(** No entry of the ledger carries an error object: what the application
    records.  (JSON does not keep the fields of an [Error].) *)
Definition plainEntries (l : list (string * LedgerEntry)) : Prop :=
  Forall (fun kv => ledgerError (snd kv) = None) l.

(** Options that ask for no retries at all. *)
Definition zeroRetries : Recovery.ManagerOptions :=
  Recovery.mkManagerOptions (Some true) (Some 0) (Some 0) None.

(** A manager whose ledger is empty, over the same disk: what a new
    process starts with. *)
Definition restarted (w : World) : World :=
  withErrors [] (withProcessedFiles [] w).

(** A ledger with two files. *)
Definition twoFiles : list (string * LedgerEntry) :=
  [("a.png", mkLedgerEntry (Some "success") None None);
   ("b.png", mkLedgerEntry (Some "failed") None None)].

Definition twoFilesWorld : World := mkWorld 0 None None [] twoFiles [].

End Ledger.

(** ** Notions used to state properties of a run *)

Module Accounts.
Import Runtime Recovery App.

(** The counters after one more file with the given outcome. *)
Definition addOutcome (stats : Stats) (c : Completion OptimizeResult) : Stats :=
  match c with
  | Returned ResProcessed =>
      mkStats (processed stats + 1) (skipped stats) (errors stats)
              (lfsPointers stats) (lfsErrors stats)
  | Returned ResSkipped =>
      mkStats (processed stats) (skipped stats + 1) (errors stats)
              (lfsPointers stats) (lfsErrors stats)
  | Returned ResLfsPointer =>
      mkStats (processed stats) (skipped stats) (errors stats)
              (lfsPointers stats + 1) (lfsErrors stats)
  | Returned ResLfsError =>
      mkStats (processed stats) (skipped stats) (errors stats)
              (lfsPointers stats) (lfsErrors stats + 1)
  | Returned ResError | Thrown _ =>
      mkStats (processed stats) (skipped stats) (errors stats + 1)
              (lfsPointers stats) (lfsErrors stats)
  end.

Definition isProcessed (c : Completion OptimizeResult) : bool :=
  match c with Returned ResProcessed => true | _ => false end.
Definition isSkipped (c : Completion OptimizeResult) : bool :=
  match c with Returned ResSkipped => true | _ => false end.
Definition isLfsPointer (c : Completion OptimizeResult) : bool :=
  match c with Returned ResLfsPointer => true | _ => false end.
Definition isLfsError (c : Completion OptimizeResult) : bool :=
  match c with Returned ResLfsError => true | _ => false end.

(** The number of files of a list whose outcome satisfies [p]. *)
Definition countWhere (app : App) (opts : RunOptions)
    (p : Completion OptimizeResult -> bool) (l : list string) : Z :=
  Z.of_nat (List.length (List.filter (fun f => p (outcomeOf app opts f)) l)).

Definition sumStats (stats : Stats) : Z :=
  processed stats + skipped stats + errors stats + lfsPointers stats + lfsErrors stats.

(** The error a failing file is logged with: the one the optimizer threw,
    or the one the loop makes for the result 'error'. *)
Definition failureOf (app : App) (opts : RunOptions) (f : string) : option JsError :=
  match outcomeOf app opts f with
  | Thrown e => Some e
  | Returned ResError => Some (mkJsError (Some ("Failed to process " +:+ f)) None None)
  | Returned _ => None
  end.

Definition failureEntry (f : string) (e : JsError) (w : World) : ErrorEntry :=
  ErrorLogger.makeEntry (Some (JsStr f)) e processingErrorContext w.

(** One log entry for each failing file of a list, in order. *)
Definition loggedFailures (app : App) (opts : RunOptions) (l : list string)
    (w : World) : list ErrorEntry :=
  omap (fun f => (fun e => failureEntry f e w) <$> failureOf app opts f) l.

(** The entries for the file at which a run stops: the result 'error' is
    logged where it is seen and again where the error it raises is
    caught. *)
Definition abortEntries (app : App) (opts : RunOptions) (f : string)
    (w : World) : list ErrorEntry :=
  match outcomeOf app opts f with
  | Thrown e => [failureEntry f e w]
  | Returned ResError =>
      let e := mkJsError (Some ("Failed to process " +:+ f)) None None in
      [failureEntry f e w; failureEntry f e w]
  | Returned _ => []
  end.

Definition fatalEntry (e : JsError) (w : World) : ErrorEntry :=
  ErrorLogger.makeEntry (Some (JsStr "FATAL")) e {[ "type" := JsStr "fatal" ]} w.

(** The ledger after the files of a list were handled: one entry for
    each file whose call returned. *)
Definition ledgerAfter (app : App) (opts : RunOptions) (l : list string)
    (ledger : list (string * LedgerEntry)) : list (string * LedgerEntry) :=
  List.fold_left
    (fun acc f =>
       match outcomeOf app opts f with
       | Returned r => mapSet f (mkLedgerEntry (Some (resultString r)) None None) acc
       | Thrown _ => acc
       end) l ledger.

Definition hasReturned (c : Completion OptimizeResult) : bool :=
  match c with Returned _ => true | Thrown _ => false end.

(** The ledger once the checkpoint on disk was loaded. *)
Definition restoredLedger (w : World) : list (string * LedgerEntry) :=
  processedFiles (snd (loadState w)).

(** The files a run over [found] selects. *)
Definition toProcess (found : list string) (opts : RunOptions) (w : World)
    : list string :=
  slice found (startIndexOf opts (fst (loadState w))).

(** An application that rejects "bad.png", answers 'error' for
    "broken.png" and 'processed' for every other file. *)
Definition mixedApp : App :=
  {| configQuality := ∅;
     qualityRulesEngine := QualityRules.newEngine [] Samples.tieDeps;
     optimizer := fun _ f _ =>
       if String.eqb f "bad.png" then Thrown Samples.busyError
       else if String.eqb f "broken.png" then Returned ResError
       else Returned ResProcessed;
     inputDir := "original";
     join := fun a b => a +:+ "/" +:+ b |}.

Definition mixedFiles : list string := ["a.png"; "bad.png"; "broken.png"; "b.png"].

Definition stopOptions : RunOptions := mkRunOptions false false false false.

(** An environment whose output directory cannot be made. *)
Definition noOutputDir : Environment :=
  mkEnvironment (Thrown Samples.busyError) (Returned mixedFiles).

(** The ledger entries of the files of a list whose call returned. *)
Definition returnedEntries (app : App) (opts : RunOptions) (l : list string)
    : list (string * LedgerEntry) :=
  omap (fun f =>
          match outcomeOf app opts f with
          | Returned r => Some (f, mkLedgerEntry (Some (resultString r)) None None)
          | Thrown _ => None
          end) l.

(** A run over the four files that continues on errors, from a clean
    start. *)
Definition mixedRun : Completion Stats * World :=
  processImages mixedApp (Samples.envWith mixedFiles) Samples.plainOptions
    Samples.freshWorld.

Definition mixedStats : Stats :=
  match fst mixedRun with
  | Returned stats => stats
  | Thrown _ => zeroStats
  end.

Definition mixedWorld : World := snd mixedRun.

End Accounts.

(** ** ProcessingConfigGenerator (src/core/processing-config-generator.js)
       and OutputPathGenerator (src/utils/output-path-generator.js) *)

Module Generator.
Import JsString.

(** The functions of Node's [path] module the generators call;
    [parseExtLower f] is [path.parse(f).ext.toLowerCase()]. *)
Record NodePath := mkNodePath {
  dirname : string -> string;
  parseName : string -> string;
  parseExtLower : string -> string;
  join : string -> string -> string
}.

(** The [resize] object of an output configuration. *)
Record Resize := mkResize {
  resizeWidth : Z;
  resizeHeight : Z;
  withoutEnlargement : option bool;
  fit : option string
}.

(** The object [generatePaths] returns. *)
Record Paths := mkPaths {
  webp : string;
  avif : string;
  original : string;
  thumbnail : string
}.

(** The fields of a configuration object the generator reads; [None] is
    a missing property. *)
Record GeneratorConfig := mkGeneratorConfig {
  formats : option (list string);
  quality : option (gmap string Z);
  resize : option Resize;
  generateThumbnails : option bool;
  thumbnailWidth : option Z
}.

(** The [options] object of an output configuration: [{ quality }] or
    [{ compressionLevel }]. *)
Inductive FormatOptions :=
| QualityOption (q : Z)
| CompressionLevel (n : Z).

Record OutputConfig := mkOutputConfig {
  outputPath : string;
  format : string;
  options : FormatOptions;
  resizeTo : Resize
}.

(** [generatePaths(filename, relativePath)] *)
Definition generatePaths (np : NodePath) (outputDir filename relativePath : string)
    : Paths :=
  let dir := dirname np filename in
  let name := parseName np filename in
  let ext := parseExtLower np filename in
  let outputSubDir :=
    if negb (String.eqb dir EmptyString) && negb (String.eqb dir ".") then dir
    else if negb (String.eqb relativePath EmptyString) then dirname np relativePath
    else EmptyString in
  let fullOutputDir := join np outputDir outputSubDir in
  {| webp := join np fullOutputDir (name +:+ ".webp");
     avif := join np fullOutputDir (name +:+ ".avif");
     original :=
       join np fullOutputDir (name +:+ (if String.eqb ext ".png" then ".png" else ".jpg"));
     thumbnail := join np fullOutputDir (name +:+ "-thumb.webp") |}.

Definition orElse {A : Type} (o d : option A) : option A :=
  match o with
  | Some a => Some a
  | None => d
  end.

(** [{ ...this.defaultConfig, ...customConfig }] *)
Definition mergeConfig (defaultConfig customConfig : GeneratorConfig) : GeneratorConfig :=
  {| formats := orElse (formats customConfig) (formats defaultConfig);
     quality := orElse (quality customConfig) (quality defaultConfig);
     resize := orElse (resize customConfig) (resize defaultConfig);
     generateThumbnails :=
       orElse (generateThumbnails customConfig) (generateThumbnails defaultConfig);
     thumbnailWidth := orElse (thumbnailWidth customConfig) (thumbnailWidth defaultConfig) |}.

(** [config.formats?.includes(f)] *)
Definition wants (config : GeneratorConfig) (f : string) : bool :=
  match formats config with
  | Some l => existsb (String.eqb f) l
  | None => false
  end.

(** [config.quality?.[k] || d] *)
Definition qualityOr (config : GeneratorConfig) (k : string) (d : Z) : Z :=
  match quality config ≫= (fun q => q !! k) with
  | Some q => if Z.eqb q 0 then d else q
  | None => d
  end.

Definition defaultResize : Resize := mkResize 2000 2000 (Some true) (Some "inside").

(** [config.formats && config.formats.length === 1 &&
     config.formats[0] === 'original'] *)
Definition isOriginalOnly (config : GeneratorConfig) : bool :=
  match formats config with
  | Some [f] => String.eqb f "original"
  | _ => false
  end.

Definition thumbnailResize (config : GeneratorConfig) : Resize :=
  let side := if truthyNum (thumbnailWidth config) then orZero (thumbnailWidth config)
              else 200 in
  mkResize side side (Some true) (Some "cover").

(** [generate(filename, paths, customConfig)] *)
Definition generate (np : NodePath) (defaultConfig : GeneratorConfig)
    (filename : string) (paths : Paths) (customConfig : GeneratorConfig)
    : list OutputConfig :=
  let ext := parseExtLower np filename in
  let config := mergeConfig defaultConfig customConfig in
  let rz := default defaultResize (resize config) in
  let isJpeg := String.eqb ext ".jpg" || String.eqb ext ".jpeg" in
  (if wants config "webp" && negb (String.eqb ext ".webp")
   then [mkOutputConfig (webp paths) "webp"
           (QualityOption (qualityOr config "webp" 85)) rz]
   else []) ++
  (if wants config "avif"
   then [mkOutputConfig (avif paths) "avif"
           (QualityOption (qualityOr config "avif" 80)) rz]
   else []) ++
  (if wants config "original" ||
      (String.eqb ext ".png" && wants config "png") ||
      (isJpeg && wants config "jpeg")
   then [mkOutputConfig (original paths) (if isJpeg then "jpeg" else "png")
           (if isJpeg then QualityOption (qualityOr config "jpeg" 90)
            else CompressionLevel 9) rz]
   else []) ++
  (if match generateThumbnails config with Some b => b | None => false end &&
      negb (isOriginalOnly config)
   then [mkOutputConfig (thumbnail paths) "webp"
           (QualityOption (qualityOr config "thumbnail" 70)) (thumbnailResize config)]
   else []).

(** Whether an output configuration is the one for the thumbnail. *)
Definition isThumbnailOf (config : GeneratorConfig) (paths : Paths)
    (c : OutputConfig) : Prop :=
  outputPath c = thumbnail paths /\ format c = "webp" /\
  resizeTo c = thumbnailResize config.

End Generator.

(** ** ConfigLoader (src/config/config-loader.js)

    A configuration object is modelled with the types its fields are meant
    to have (the [typeof] tests of the validation then hold); [None] is a
    missing property.  The [quality] property is the exception: the merge
    tests its type and the validation does not, so a [quality] that is a
    number or a boolean is modelled too. *)

Module ConfigLoader.
Import JsString QualityRules.

(** The value of [preserveMetadata]: a boolean, an object (its keys in
    enumeration order, a value that is not a boolean being [None]), or
    anything else. *)
Inductive MetadataSetting :=
| MetaBool (b : bool)
| MetaFields (fields : list (string * option bool))
| MetaOther.

(** A value whose [typeof] is 'number' or 'boolean'. *)
Inductive Scalar :=
| ScalarNumber (n : Z)
| ScalarBoolean (b : bool).

(** The value of [quality]: an object with a number for each of its keys
    ([null], whose [typeof] is 'object' too and which spreads to nothing,
    is the empty object here), or a number or a boolean.  A string is
    left out: it spreads to its characters, which are no numbers. *)
Inductive QualitySetting :=
| QualityObject (q : gmap string Z)
| QualityOther (v : Scalar).

Record ImageConfig := mkImageConfig {
  formats : option (list string);
  quality : option QualitySetting;
  outputDir : option string;
  generateThumbnails : option bool;
  thumbnailWidth : option Z;
  preserveMetadata : option MetadataSetting;
  qualityRules : option (list Rule)
}.

(** What the validation throws, by the message. *)
Inductive ConfigError :=
| InvalidJson
| EmptyFormats
| InvalidFormat (f : string)
| QualityOutOfRange (f : string)
| ThumbnailWidthOutOfRange
| EmptyOutputDir
| InvalidMetadataField (key : string)
| MetadataFieldNotBoolean (key : string)
| InvalidPreserveMetadata
| RuleWithoutCriteria (index : nat)
| RuleSizeNotPositive (index : nat) (prop : string)
| RuleQualityMissing (index : nat)
| RuleQualityOutOfRange (index : nat).

Definition defaultConfig : ImageConfig :=
  {| formats := Some ["webp"; "avif"; "original"];
     quality := Some (QualityObject {[ "webp" := 80; "avif" := 80; "jpeg" := 80 ]});
     outputDir := Some "optimized";
     generateThumbnails := Some true;
     thumbnailWidth := Some 200;
     preserveMetadata := Some (MetaBool false);
     qualityRules := None |}.

Definition validFormats : list string := ["webp"; "avif"; "original"; "jpeg"; "png"].

Definition inRange (lo hi v : Z) : bool := Z.leb lo v && Z.leb v hi.

(** The first check that fails decides. *)
Definition andThen (first next : option ConfigError) : option ConfigError :=
  match first with
  | Some e => Some e
  | None => next
  end.

Definition checkFormats (config : ImageConfig) : option ConfigError :=
  match formats config with
  | None => None
  | Some [] => Some EmptyFormats
  | Some l =>
      InvalidFormat <$>
        List.find (fun f => negb (existsb (String.eqb f) validFormats)) l
  end.

(** [config.quality[format]]: a number or a boolean has none of the
    formats as a property. *)
Definition qualityOf (q : QualitySetting) (format : string) : option Z :=
  match q with
  | QualityObject o => o !! format
  | QualityOther _ => None
  end.

Definition checkQuality (config : ImageConfig) : option ConfigError :=
  match quality config with
  | None => None
  | Some q =>
      QualityOutOfRange <$>
        List.find (fun f => match qualityOf q f with
                            | Some v => negb (inRange 1 100 v)
                            | None => false
                            end) ["webp"; "avif"; "jpeg"]
  end.

Definition checkThumbnailWidth (config : ImageConfig) : option ConfigError :=
  match thumbnailWidth config with
  | Some w => if inRange 10 1000 w then None else Some ThumbnailWidthOutOfRange
  | None => None
  end.

(** [isBlank d] is [d.trim() === '']. *)
Definition checkOutputDir (isBlank : string -> bool) (config : ImageConfig)
    : option ConfigError :=
  match outputDir config with
  | Some d => if isBlank d then Some EmptyOutputDir else None
  | None => None
  end.

Definition validMetadataFields : list string :=
  ["copyright"; "creator"; "datetime"; "camera"; "gps"; "all"].

Fixpoint checkMetadataFields (fields : list (string * option bool))
    : option ConfigError :=
  match fields with
  | [] => None
  | (key, value) :: rest =>
      if negb (existsb (String.eqb key) validMetadataFields)
      then Some (InvalidMetadataField key)
      else match value with
           | None => Some (MetadataFieldNotBoolean key)
           | Some _ => checkMetadataFields rest
           end
  end.

Definition checkPreserveMetadata (config : ImageConfig) : option ConfigError :=
  match preserveMetadata config with
  | None => None
  | Some (MetaBool _) => None
  | Some (MetaFields fields) => checkMetadataFields fields
  | Some MetaOther => Some InvalidPreserveMetadata
  end.

Definition sizeProps (rule : Rule) : list (string * option Z) :=
  [("minWidth", minWidth rule); ("minHeight", minHeight rule);
   ("maxWidth", maxWidth rule); ("maxHeight", maxHeight rule)].

(** All values of a quality object lie between 1 and 100. *)
Definition qualityValuesOk (q : gmap string Z) : bool :=
  forallb (fun kv => inRange 1 100 (snd kv)) (map_to_list q).

(** The callback of [config.qualityRules.forEach]. *)
Definition checkRule (index : nat) (rule : Rule) : option ConfigError :=
  if negb (truthy (pattern rule)) && negb (truthy (directory rule)) &&
     negb (truthyNum (minWidth rule)) && negb (truthyNum (minHeight rule)) &&
     negb (truthyNum (maxWidth rule)) && negb (truthyNum (maxHeight rule))
  then Some (RuleWithoutCriteria index)
  else
    match List.find (fun p => match snd p with
                              | Some v => Z.leb v 0
                              | None => false
                              end) (sizeProps rule) with
    | Some p => Some (RuleSizeNotPositive index (fst p))
    | None =>
        match QualityRules.quality rule with
        | None => Some (RuleQualityMissing index)
        | Some q =>
            if qualityValuesOk q then None else Some (RuleQualityOutOfRange index)
        end
    end.

Fixpoint checkRules (index : nat) (rules : list Rule) : option ConfigError :=
  match rules with
  | [] => None
  | rule :: rest => andThen (checkRule index rule) (checkRules (S index) rest)
  end.

Definition checkQualityRules (config : ImageConfig) : option ConfigError :=
  match qualityRules config with
  | None => None
  | Some rules => checkRules 0 rules
  end.

(** [validateConfig(config)]: [None] when it returns, the error it
    throws otherwise. *)
Definition validateConfig (isBlank : string -> bool) (config : ImageConfig)
    : option ConfigError :=
  andThen (checkFormats config)
    (andThen (checkQuality config)
       (andThen (checkThumbnailWidth config)
          (andThen (checkOutputDir isBlank config)
             (andThen (checkPreserveMetadata config)
                (checkQualityRules config))))).

Definition orElse {A : Type} (o d : option A) : option A :=
  match o with
  | Some a => Some a
  | None => d
  end.

(** [{ ...value }]: the own properties of an object; a missing value, a
    number and a boolean have none. *)
Definition spread (value : option QualitySetting) : gmap string Z :=
  match value with
  | Some (QualityObject o) => o
  | Some (QualityOther _) => ∅
  | None => ∅
  end.

(** One round of [for (const key in source) ...] of [mergeConfigs]: every
    key of the source replaces the merged one, except that a [quality]
    whose [typeof] is 'object' is merged format by format. *)
Definition mergeInto (merged source : ImageConfig) : ImageConfig :=
  {| formats := orElse (formats source) (formats merged);
     quality :=
       match quality source with
       | Some (QualityObject q) => Some (QualityObject (q ∪ spread (quality merged)))
       | Some (QualityOther v) => Some (QualityOther v)
       | None => quality merged
       end;
     outputDir := orElse (outputDir source) (outputDir merged);
     generateThumbnails := orElse (generateThumbnails source) (generateThumbnails merged);
     thumbnailWidth := orElse (thumbnailWidth source) (thumbnailWidth merged);
     preserveMetadata := orElse (preserveMetadata source) (preserveMetadata merged);
     qualityRules := orElse (qualityRules source) (qualityRules merged) |}.

(** [mergeConfigs(defaults, fileConfig, cliArgs)] *)
Definition mergeConfigs (defaults fileConfig cliArgs : ImageConfig) : ImageConfig :=
  mergeInto (mergeInto defaults fileConfig) cliArgs.

Definition emptyConfig : ImageConfig :=
  mkImageConfig None None None None None None None.

(** What reading the configuration file gives: no file was found, it
    could not be read (with an error whose message does not mention
    'Invalid JSON'), it is not JSON, or it holds an object. *)
Inductive ConfigFile :=
| NoFile
| Unreadable
| NotJson
| Parsed (config : ImageConfig).

(** The value of [fileConfig] when the file is not rejected: [{}] unless
    the file was read and parsed. *)
Definition fileConfigOf (file : ConfigFile) : ImageConfig :=
  match file with
  | Parsed c => c
  | _ => emptyConfig
  end.

(** [loadConfig(projectRoot, cliArgs)], from the content of the file on. *)
Definition loadConfig (isBlank : string -> bool) (file : ConfigFile)
    (cliArgs : ImageConfig) : ConfigError + ImageConfig :=
  match file with
  | NotJson => inl InvalidJson
  | _ =>
      let fileConfig := fileConfigOf file in
      let merged := mergeConfigs defaultConfig fileConfig cliArgs in
      match validateConfig isBlank merged with
      | Some e => inl e
      | None => inr merged
      end
  end.

(** A rule set and a file configuration for the examples. *)
Definition heroRules : list Rule :=
  [mkRule (Some "*-hero.*") None None None None None (Some {[ "webp" := 95 ]});
   mkRule None (Some "products/") (Some 100) None None None
     (Some {[ "webp" := 70; "avif" := 60 ]})].

Definition heroFile : ImageConfig :=
  mkImageConfig None (Some (QualityObject {[ "webp" := 90 ]})) None None None None
    (Some heroRules).

(** A file that holds [{ "quality": 85 }], and command line arguments
    that hold [{ quality: { webp: 90 } }]. *)
Definition numberFile : ImageConfig :=
  mkImageConfig None (Some (QualityOther (ScalarNumber 85))) None None None None None.

Definition webpArgs : ImageConfig :=
  mkImageConfig None (Some (QualityObject {[ "webp" := 90 ]})) None None None None None.

Definition asciiBlank (s : string) : bool := String.eqb s EmptyString.

Definition heroMerged : ImageConfig := mergeConfigs defaultConfig heroFile emptyConfig.

Definition heroQuality : gmap string Z := {[ "webp" := 90; "avif" := 80; "jpeg" := 80 ]}.

End ConfigLoader.

(** ** The enumeration of the input directory
       (ImageOptimizerApp._findImageFiles) *)

Module Enumeration.
Import JsString.

(** An ASCII capital letter becomes the small one, as the [i] flag of the
    regular expression sees it; every other character stays. *)
Definition toLowerAscii (c : ascii) : ascii :=
  let n := nat_of_ascii c in
  if Nat.leb 65 n && Nat.leb n 90 then ascii_of_nat (n + 32) else c.

Fixpoint lower (s : string) : string :=
  match s with
  | EmptyString => EmptyString
  | String c rest => String (toLowerAscii c) (lower rest)
  end.

Definition endsWith (s suffix : string) : bool :=
  Nat.leb (String.length suffix) (String.length s) &&
  String.eqb
    (substring (String.length s - String.length suffix) (String.length suffix) s)
    suffix.

Definition imageExtensions : list string := [".jpg"; ".jpeg"; ".png"; ".gif"; ".webp"].

(** [/\.(jpg|jpeg|png|gif|webp)$/i.test(name)] *)
Definition isImageName (name : string) : bool :=
  existsb (endsWith (lower name)) imageExtensions.

(** What [readdir(dir, { withFileTypes: true })] lists: a regular file, a
    directory (with what reading it gives in turn), or anything else (a
    link, a socket, ...). *)
#[warnings="-register-all"] Inductive DirEntry :=
| EntryFile (name : string)
| EntryDirectory (name : string) (content : Completion (list DirEntry))
| EntryOther (name : string).

(** [relativePath ? path.join(relativePath, entry.name) : entry.name] *)
Definition relJoin (join : string -> string -> string) (relativePath name : string)
    : string :=
  if String.eqb relativePath EmptyString then name else join relativePath name.

(** One pass of the loop over the entries: what the entry adds to
    [files], or the error that leaves the function. *)
Fixpoint scanEntry (join : string -> string -> string) (relativePath : string)
    (entry : DirEntry) {struct entry} : Completion (list string) :=
  match entry with
  | EntryFile name =>
      Returned (if isImageName name then [relJoin join relativePath name] else [])
  | EntryOther _ => Returned []
  | EntryDirectory name content =>
      match content with
      | Thrown e => Thrown e
      | Returned entries =>
          (fix scanAll (l : list DirEntry) : Completion (list string) :=
             match l with
             | [] => Returned []
             | first :: rest =>
                 match scanEntry join (relJoin join relativePath name) first with
                 | Thrown e => Thrown e
                 | Returned subFiles =>
                     match scanAll rest with
                     | Thrown e => Thrown e
                     | Returned files => Returned (subFiles ++ files)
                     end
                 end
             end) entries
      end
  end.

(** The loop over the entries of a directory that was read. *)
Fixpoint scanEntries (join : string -> string -> string) (relativePath : string)
    (entries : list DirEntry) : Completion (list string) :=
  match entries with
  | [] => Returned []
  | first :: rest =>
      match scanEntry join relativePath first with
      | Thrown e => Thrown e
      | Returned subFiles =>
          match scanEntries join relativePath rest with
          | Thrown e => Thrown e
          | Returned files => Returned (subFiles ++ files)
          end
      end
  end.

(** [_findImageFiles(dir, relativePath)], given what reading [dir] gives. *)
Definition findImageFiles (join : string -> string -> string) (relativePath : string)
    (content : Completion (list DirEntry)) : Completion (list string) :=
  match content with
  | Thrown e => Thrown e
  | Returned entries => scanEntries join relativePath entries
  end.

(** A path is listed below a directory: it is the path of a regular file
    with an image name in the directory or in a readable directory below
    it. *)
Inductive listed (join : string -> string -> string)
    : string -> list DirEntry -> string -> Prop :=
| listed_here (relativePath : string) (entries : list DirEntry) (name : string) :
    In (EntryFile name) entries -> isImageName name = true ->
    listed join relativePath entries (relJoin join relativePath name)
| listed_below (relativePath : string) (entries : list DirEntry) (name : string)
    (sub : list DirEntry) (p : string) :
    In (EntryDirectory name (Returned sub)) entries ->
    listed join (relJoin join relativePath name) sub p ->
    listed join relativePath entries p.

(** Some directory at or below the entries cannot be read. *)
Inductive unreadable : list DirEntry -> Prop :=
| unreadable_here (entries : list DirEntry) (name : string) (e : JsError) :
    In (EntryDirectory name (Thrown e)) entries -> unreadable entries
| unreadable_below (entries : list DirEntry) (name : string) (sub : list DirEntry) :
    In (EntryDirectory name (Returned sub)) entries -> unreadable sub ->
    unreadable entries.

(** What the first entry of a list contributes to the two notions. *)
Definition headListed (join : string -> string -> string) (relativePath : string)
    (entry : DirEntry) (p : string) : Prop :=
  match entry with
  | EntryFile name => isImageName name = true /\ p = relJoin join relativePath name
  | EntryDirectory name (Returned sub) => listed join (relJoin join relativePath name) sub p
  | _ => False
  end.

Definition headUnreadable (entry : DirEntry) : Prop :=
  match entry with
  | EntryDirectory _ (Thrown _) => True
  | EntryDirectory _ (Returned sub) => unreadable sub
  | _ => False
  end.

(** The number of entries at and below a list of entries. *)
Fixpoint entrySize (entry : DirEntry) : nat :=
  match entry with
  | EntryDirectory _ (Returned entries) =>
      S ((fix sum (l : list DirEntry) : nat :=
            match l with
            | [] => O
            | first :: rest => (entrySize first + sum rest)%nat
            end) entries)
  | _ => 1%nat
  end.

Fixpoint entriesSize (entries : list DirEntry) : nat :=
  match entries with
  | [] => O
  | first :: rest => (entrySize first + entriesSize rest)%nat
  end.

(** A small tree: two images, a text file, a link with an image name and
    a directory that is named like an image. *)
Definition sampleTree : list DirEntry :=
  [EntryFile "a.PNG";
   EntryFile "notes.txt";
   EntryOther "link.jpg";
   EntryDirectory "shots.png" (Returned [EntryFile "b.jpeg"; EntryFile "c.tiff"])].

Definition slashJoin (a b : string) : string := a +:+ "/" +:+ b.

End Enumeration.

(** * Properties *)

(** ** Strings *)

Section StringFacts.
Import JsString.

Lemma append_nil_r (s : string) : s +:+ EmptyString = s.
Proof. induction s as [|c s IH]; simpl; [reflexivity | now rewrite IH]. Qed.

Lemma append_assoc (a b c : string) : (a +:+ b) +:+ c = a +:+ (b +:+ c).
Proof. induction a as [|x a IH]; simpl; [reflexivity | now rewrite IH]. Qed.

Lemma startsWith_spec (s p : string) :
  startsWith s p = true <-> exists r, s = p +:+ r.
Proof.
  revert s; induction p as [|a p IH]; intros s; simpl.
  - split; [intros _; now exists s | reflexivity].
  - destruct s as [|b s].
    + split; [discriminate | intros [r Hr]; discriminate].
    + rewrite andb_true_iff, Ascii.eqb_eq, IH. split.
      * intros [-> [r ->]]. now exists r.
      * intros [r Hr]. injection Hr as -> ->. split; [reflexivity | now exists r].
Qed.

Lemma includes_spec (s t : string) :
  includes s t = true <-> exists pre post, s = pre +:+ t +:+ post.
Proof.
  induction s as [|c s IH]; simpl.
  - rewrite orb_false_r, startsWith_spec. split.
    + intros [r Hr]. now exists EmptyString, r.
    + intros [pre [post H]]. destruct pre; [now exists post | discriminate].
  - rewrite orb_true_iff, IH. split.
    + intros [H | [pre [post ->]]].
      * apply (startsWith_spec (String c s) t) in H as [r Hr].
        now exists EmptyString, r.
      * now exists (String c pre), post.
    + intros [pre [post H]]. destruct pre as [|x pre].
      * left. apply (startsWith_spec (String c s) t). now exists post.
      * right. injection H as -> ->. now exists pre, post.
Qed.

Lemma replaceBackslashes_noSeparator (s : string) :
  noSeparator s = true -> replaceBackslashes s = s.
Proof.
  induction s as [|c s IH]; simpl; [reflexivity |].
  rewrite !andb_true_iff, !negb_true_iff. intros [[_ Hb] Hs].
  now rewrite Hb, IH.
Qed.

Lemma endsWithSlash_noSeparator (s : string) :
  noSeparator s = true -> endsWithSlash s = false.
Proof.
  induction s as [|c s IH]; simpl; [reflexivity |].
  rewrite !andb_true_iff, !negb_true_iff. intros [[Hs _] Hr].
  destruct s; [exact Hs | now apply IH].
Qed.

Lemma endsWithSlash_append_slash (s : string) :
  endsWithSlash (s +:+ String slash EmptyString) = true.
Proof.
  induction s as [|c s IH]; simpl; [reflexivity |].
  destruct s; simpl in *; [reflexivity | exact IH].
Qed.

Lemma replaceBackslashes_append (a b : string) :
  replaceBackslashes (a +:+ b) = replaceBackslashes a +:+ replaceBackslashes b.
Proof. induction a as [|c a IH]; simpl; [reflexivity | now rewrite IH]. Qed.

Lemma splitSlash_nonempty (s : string) : splitSlash s <> [].
Proof.
  destruct s as [|c s]; simpl; [discriminate |].
  destruct (Ascii.eqb c slash); [discriminate |].
  destruct (splitSlash s); discriminate.
Qed.

Lemma splitSlash_append_slash (x y : string) :
  splitSlash (x +:+ String slash y) = splitSlash x ++ splitSlash y.
Proof.
  induction x as [|c x IH]; simpl; [reflexivity |].
  destruct (Ascii.eqb c slash); [now rewrite IH |].
  rewrite IH. destruct (splitSlash x) eqn:E; [|reflexivity].
  now apply splitSlash_nonempty in E.
Qed.

Lemma splitSlash_noSeparator (name : string) :
  noSeparator name = true -> splitSlash name = [name].
Proof.
  induction name as [|c s IH]; simpl; [reflexivity |].
  rewrite !andb_true_iff, !negb_true_iff. intros [[Hs _] Hr].
  now rewrite Hs, (IH Hr).
Qed.

(** Appending a separator-free name extends the last segment. *)
Lemma splitSlash_append_name (pre name : string) :
  noSeparator name = true ->
  exists init lastSeg,
    splitSlash (pre +:+ name) = init ++ [lastSeg +:+ name].
Proof.
  intros Hn. induction pre as [|c pre IH]; simpl.
  - exists [], EmptyString. simpl. now apply splitSlash_noSeparator.
  - destruct IH as [init [lastSeg IH]]. rewrite IH.
    destruct (Ascii.eqb c slash).
    + now exists (EmptyString :: init), lastSeg.
    + destruct init as [|seg init]; simpl.
      * now exists [], (String c lastSeg).
      * now exists (String c seg :: init), lastSeg.
Qed.

Lemma joinSlash_splitSlash (s : string) : joinSlash (splitSlash s) = s.
Proof.
  induction s as [|c s IH]; simpl; [reflexivity |].
  destruct (Ascii.eqb c slash) eqn:E.
  - apply Ascii.eqb_eq in E as ->.
    destruct (splitSlash s) eqn:Es; [now apply splitSlash_nonempty in Es |].
    simpl in *. now rewrite IH.
  - destruct (splitSlash s) as [|seg segs] eqn:Es;
      [now apply splitSlash_nonempty in Es |].
    destruct segs; simpl in *; now rewrite <- IH.
Qed.

Lemma joinSlash_middle (l1 l2 : list string) (seg : string) :
  l2 <> [] ->
  exists pre,
    joinSlash (l1 ++ seg :: l2) = pre +:+ seg +:+ String slash (joinSlash l2).
Proof.
  intros Hl2. induction l1 as [|x l1 [pre IH]].
  - exists EmptyString. simpl. destruct l2; [congruence | reflexivity].
  - exists (x +:+ String slash pre). simpl app.
    change (joinSlash (x :: (l1 ++ seg :: l2))) with
      (match l1 ++ seg :: l2 with
       | [] => x
       | _ :: _ => x +:+ String slash (joinSlash (l1 ++ seg :: l2))
       end).
    destruct (l1 ++ seg :: l2) eqn:E; [now destruct l1 |].
    rewrite IH, append_assoc. reflexivity.
Qed.

Lemma in_removelast_split {A} (x : A) (l : list A) :
  In x (removelast l) -> exists l1 l2, l = l1 ++ x :: l2 /\ l2 <> [].
Proof.
  induction l as [|a l IH]; simpl; [tauto |].
  destruct l as [|b l]; [simpl; tauto |].
  intros [<- | H].
  - exists [], (b :: l). split; [reflexivity | discriminate].
  - destruct (IH H) as [l1 [l2 [E Hne]]].
    exists (a :: l1), l2. split; [simpl; now rewrite E | exact Hne].
Qed.

End StringFacts.

(** ** Directory matching *)

Section DirectoryMatching.
Import JsString QualityRules.

Lemma dirWithSlash_name (name d : string) :
  noSeparator name = true ->
  d = name \/ d = name +:+ String slash EmptyString ->
  dirWithSlash d = name +:+ String slash EmptyString.
Proof.
  intros Hn [-> | ->]; unfold dirWithSlash.
  - now rewrite (replaceBackslashes_noSeparator _ Hn), (endsWithSlash_noSeparator _ Hn).
  - rewrite replaceBackslashes_append, (replaceBackslashes_noSeparator _ Hn).
    simpl. now rewrite endsWithSlash_append_slash.
Qed.

Lemma matchesDirectory_iff_substring (p d : string) :
  matchesDirectory p d = true <->
  exists pre post, replaceBackslashes p = pre +:+ dirWithSlash d +:+ post.
Proof. unfold matchesDirectory. apply includes_spec. Qed.

(** A directory segment of a path is any segment but the last one. *)
Lemma includes_name_slash_iff_segment (P name : string) :
  noSeparator name = true ->
  includes P (name +:+ String slash EmptyString) = true <->
  exists seg x, In seg (removelast (splitSlash P)) /\ seg = x +:+ name.
Proof.
  intros Hn. rewrite includes_spec. split.
  - intros [pre [post ->]].
    rewrite append_assoc. simpl. rewrite <- append_assoc.
    rewrite splitSlash_append_slash.
    destruct (splitSlash_append_name pre name Hn) as [init [lastSeg ->]].
    exists (lastSeg +:+ name), lastSeg. split; [|reflexivity].
    rewrite removelast_app.
    + apply in_or_app. left. apply in_or_app. right. now left.
    + apply splitSlash_nonempty.
  - intros [seg [x [Hin ->]]].
    apply in_removelast_split in Hin as [l1 [l2 [E Hne]]].
    destruct (joinSlash_middle l1 l2 (x +:+ name) Hne) as [pre Hj].
    rewrite <- E, joinSlash_splitSlash in Hj.
    exists (pre +:+ x), (joinSlash l2). rewrite Hj.
    rewrite !append_assoc. reflexivity.
Qed.

(** C1, as the code has it: the directory match is the substring test on
    the normalized path and the slash-terminated rule directory.  For a
    rule directory that is a single name this is exact at the END of the
    name only: the rule matches if and only if some directory segment of
    the path ends with that name.  A segment that merely starts with the
    name (images-backup/) does not match by itself, a segment that merely
    ends with it (my-images/) does. *)
Theorem matchesDirectory_substring_segment_end (p d : string) :
  (matchesDirectory p d = true <->
   exists pre post, replaceBackslashes p = pre +:+ dirWithSlash d +:+ post) /\
  (forall name,
     noSeparator name = true ->
     d = name \/ d = name +:+ String slash EmptyString ->
     (matchesDirectory p d = true <->
      exists seg x,
        In seg (removelast (splitSlash (replaceBackslashes p))) /\
        seg = x +:+ name)).
Proof.
  split; [apply matchesDirectory_iff_substring |].
  intros name Hn Hd. unfold matchesDirectory.
  rewrite (dirWithSlash_name name d Hn Hd).
  now apply includes_name_slash_iff_segment.
Qed.

(** The theorem at the rule directory images/ and a path through
    my-images/. *)
Lemma matchesDirectory_substring_segment_end_witness :
  noSeparator "images" = true /\
  (matchesDirectory "my-images/photo.png" "images/" = true <->
   exists seg x,
     In seg (removelast (splitSlash (replaceBackslashes "my-images/photo.png"))) /\
     seg = x +:+ "images").
Proof.
  split; [reflexivity |].
  apply (proj2 (matchesDirectory_substring_segment_end
                  "my-images/photo.png" "images/") "images").
  - reflexivity.
  - right. reflexivity.
Defined.

(** C1 as stated fails: no segment of my-images/photo.png is named
    images, yet the rule directory images/ matches the path.  The code
    appends the slash 'for proper matching' and its test suite has
    'should not match partial directory names', so the match in front of
    the name is not what the code is meant to do. *)
Lemma matchesDirectory_not_segment_exact :
  ~ (forall p : string,
       (forall seg, In seg (splitSlash (replaceBackslashes p)) -> seg <> "images") ->
       matchesDirectory p "images/" = false).
Proof.
  intros H. specialize (H "my-images/photo.png").
  assert (Hc : matchesDirectory "my-images/photo.png" "images/" = true)
    by reflexivity.
  rewrite H in Hc; [discriminate |].
  intros seg Hin. vm_compute in Hin.
  destruct Hin as [<- | [<- | []]]; discriminate.
Qed.

(** The cases the tests and the specification name. *)
Example matchesDirectory_images_backup :
  matchesDirectory "assets/images-backup/file.png" "assets/images/" = false /\
  matchesDirectory "products-archive/item.png" "products/" = false /\
  matchesDirectory "assets\images\heroes\banner.png" "assets/images/heroes/" = true.
Proof. repeat split; reflexivity. Qed.

End DirectoryMatching.

(** ** Specificity scores *)

Section Specificity.
Import JsString QualityRules.

Lemma patternChars_nonneg (r : Rule) : 0 <= patternChars r.
Proof. unfold patternChars, nonWildcardChars. lia. Qed.

Lemma directorySegments_nonneg (r : Rule) : 0 <= directorySegments r.
Proof. unfold directorySegments, directoryDepth. lia. Qed.

(** Rounding moves a count by at most half a unit of its last place;
    below 2^88 that is at most 2^35. *)
Lemma roundSig_error (n : Z) :
  0 <= n < 2 ^ 88 -> n - 2 ^ 35 <= Binary64.roundSig n <= n + 2 ^ 35.
Proof.
  intros [H0 Hn]. unfold Binary64.roundSig.
  destruct (Z.ltb_spec n (2 ^ 53)) as [Hs | Hs]; [lia|].
  assert (Hpos : 0 < n) by lia.
  assert (Hlo : 53 <= Z.log2 n) by (apply Z.log2_le_pow2; lia).
  assert (Hhi : Z.log2 n < 88) by (apply Z.log2_lt_pow2; lia).
  remember (Z.log2 n - 52) as k eqn:Ek.
  assert (Hk : 1 <= k <= 35) by lia.
  assert (Hpow : 2 ^ k = 2 * 2 ^ (k - 1)).
  { replace k with (Z.succ (k - 1)) at 1 by lia. apply Z.pow_succ_r. lia. }
  assert (Hhalf : 0 < 2 ^ (k - 1) <= 2 ^ 34).
  { split; [apply Z.pow_pos_nonneg; lia | apply Z.pow_le_mono_r; lia]. }
  pose proof (Z.div_mod n (2 ^ k) ltac:(lia)) as Hdm.
  pose proof (Z.mod_pos_bound n (2 ^ k) ltac:(lia)) as Hr.
  cbv zeta.
  remember (n / 2 ^ k) as q. remember (n mod 2 ^ k) as r.
  remember (2 ^ (k - 1)) as P. rewrite Hpow in *.
  change (2 ^ 35) with 34359738368. change (2 ^ 34) with 17179869184 in Hhalf.
  destruct (Z.ltb_spec r P); [nia|].
  destruct (Z.ltb_spec P r); [nia|].
  destruct (Z.even q); nia.
Qed.

Lemma toQ_lt (a b : Z) : (Binary64.toQ a < Binary64.toQ b)%Q <-> a < b.
Proof.
  unfold Binary64.toQ, Qlt. simpl Qnum. simpl Qden.
  split; intros H; nia.
Qed.

(** The units of the score of a rule with a pattern and a directory: 10
    (13 with a size criterion) and a tenth for each counted character and
    segment, up to the rounding of the seven operations. *)
Lemma score_combined (r : Rule) :
  hasPattern r = true -> hasDirectory r = true ->
  patternChars r <= 2 ^ 32 -> directorySegments r <= 2 ^ 32 ->
  exists u,
    getSpecificityScore r = Binary64.toQ u /\
    let exact := (if hasSizeRule r then 13 else 10) * Binary64.one
                 + (patternChars r + directorySegments r) * Binary64.tenth in
    exact - 2 ^ 38 <= u <= exact + 2 ^ 38.
Proof.
  unfold hasPattern, hasDirectory, getSpecificityScore, criteriaCount,
    patternChars, directorySegments.
  intros Hp Hd Hc Hs. rewrite Hp, Hd.
  pose proof (Zle_0_nat (String.length (stripWildcards (default "" (pattern r))))) as Nc.
  fold (nonWildcardChars (default "" (pattern r))) in Nc.
  assert (Nd : 0 <= directoryDepth (default "" (directory r)))
    by (unfold directoryDepth; lia).
  remember (nonWildcardChars (default "" (pattern r))) as c.
  remember (directoryDepth (default "" (directory r))) as d.
  cbv zeta. eexists. split; [reflexivity|].
  unfold Binary64.add, Binary64.mulTenth.
  change (Binary64.roundSig (0 + Binary64.ofInt 4)) with (4 * Binary64.one).
  change (Binary64.ofInt 2) with (2 * Binary64.one).
  change (Binary64.ofInt 1) with (1 * Binary64.one).
  unfold Binary64.one, Binary64.tenth in *.
  change (2 ^ 56) with 72057594037927936.
  change (2 ^ 38) with 274877906944.
  change (2 ^ 32) with 4294967296 in Hc, Hs.
  assert (B : forall n, 0 <= n < 2 ^ 88 ->
                n - 34359738368 <= Binary64.roundSig n <= n + 34359738368)
    by (intros n Hn; apply roundSig_error; exact Hn).
  change (2 ^ 88) with 309485009821345068724781056 in B.
  pose proof (B (c * 7205759403792794) ltac:(lia)) as B1.
  remember (Binary64.roundSig (c * 7205759403792794)) as x1.
  pose proof (B (4 * 72057594037927936 + x1) ltac:(lia)) as B2.
  remember (Binary64.roundSig (4 * 72057594037927936 + x1)) as x2.
  pose proof (B (x2 + 2 * 72057594037927936) ltac:(lia)) as B3.
  remember (Binary64.roundSig (x2 + 2 * 72057594037927936)) as x3.
  pose proof (B (d * 7205759403792794) ltac:(lia)) as B4.
  remember (Binary64.roundSig (d * 7205759403792794)) as x4.
  pose proof (B (x3 + x4) ltac:(lia)) as B5.
  remember (Binary64.roundSig (x3 + x4)) as x5.
  destruct (hasSizeRule r); simpl Z.b2z.
  - change (1 <? 1 + 1 + 1) with true. cbv iota.
    change (Binary64.ofInt ((1 + 1 + 1) * 2)) with (6 * 72057594037927936).
    pose proof (B (x5 + 1 * 72057594037927936) ltac:(lia)) as B6.
    remember (Binary64.roundSig (x5 + 1 * 72057594037927936)) as x6.
    pose proof (B (x6 + 6 * 72057594037927936) ltac:(lia)) as B7.
    lia.
  - change (1 <? 1 + 1 + 0) with true. cbv iota.
    change (Binary64.ofInt ((1 + 1 + 0) * 2)) with (4 * 72057594037927936).
    pose proof (B (x5 + 4 * 72057594037927936) ltac:(lia)) as B7.
    lia.
Qed.

(** The units of the score of a rule with one kind of criterion. *)
Lemma score_onlyPattern (r : Rule) :
  onlyPattern r = true -> patternChars r <= 2 ^ 32 ->
  exists u,
    getSpecificityScore r = Binary64.toQ u /\
    4 * Binary64.one + patternChars r * Binary64.tenth - 2 ^ 38 <= u
    <= 4 * Binary64.one + patternChars r * Binary64.tenth + 2 ^ 38.
Proof.
  unfold onlyPattern, hasPattern, hasDirectory, getSpecificityScore, criteriaCount,
    patternChars.
  rewrite !andb_true_iff, !negb_true_iff. intros [[Hp Hd] Hs] Hc. rewrite Hp, Hd, Hs.
  pose proof (Zle_0_nat (String.length (stripWildcards (default "" (pattern r))))) as Nc.
  fold (nonWildcardChars (default "" (pattern r))) in Nc.
  remember (nonWildcardChars (default "" (pattern r))) as c.
  simpl Z.b2z. change (1 <? 1 + 0 + 0) with false. cbv zeta iota.
  eexists. split; [reflexivity|].
  unfold Binary64.add, Binary64.mulTenth.
  change (Binary64.roundSig (0 + Binary64.ofInt 4)) with (4 * Binary64.one).
  unfold Binary64.one, Binary64.tenth in *.
  change (2 ^ 56) with 72057594037927936.
  change (2 ^ 38) with 274877906944.
  change (2 ^ 32) with 4294967296 in Hc.
  assert (B : forall n, 0 <= n < 2 ^ 88 ->
                n - 34359738368 <= Binary64.roundSig n <= n + 34359738368)
    by (intros n Hn; apply roundSig_error; exact Hn).
  change (2 ^ 88) with 309485009821345068724781056 in B.
  pose proof (B (c * 7205759403792794) ltac:(lia)) as B1.
  remember (Binary64.roundSig (c * 7205759403792794)) as x1.
  pose proof (B (4 * 72057594037927936 + x1) ltac:(lia)) as B2.
  lia.
Qed.

Lemma score_onlyDirectory (r : Rule) :
  onlyDirectory r = true -> directorySegments r <= 2 ^ 32 ->
  exists u,
    getSpecificityScore r = Binary64.toQ u /\
    2 * Binary64.one + directorySegments r * Binary64.tenth - 2 ^ 38 <= u
    <= 2 * Binary64.one + directorySegments r * Binary64.tenth + 2 ^ 38.
Proof.
  unfold onlyDirectory, hasPattern, hasDirectory, getSpecificityScore, criteriaCount,
    directorySegments.
  rewrite !andb_true_iff, !negb_true_iff. intros [[Hd Hp] Hs] Hc. rewrite Hp, Hd, Hs.
  assert (Nd : 0 <= directoryDepth (default "" (directory r)))
    by (unfold directoryDepth; lia).
  remember (directoryDepth (default "" (directory r))) as d.
  simpl Z.b2z. change (1 <? 0 + 1 + 0) with false. cbv zeta iota.
  eexists. split; [reflexivity|].
  unfold Binary64.add, Binary64.mulTenth.
  change (Binary64.roundSig (0 + Binary64.ofInt 2)) with (2 * Binary64.one).
  unfold Binary64.one, Binary64.tenth in *.
  change (2 ^ 56) with 72057594037927936.
  change (2 ^ 38) with 274877906944.
  change (2 ^ 32) with 4294967296 in Hc.
  assert (B : forall n, 0 <= n < 2 ^ 88 ->
                n - 34359738368 <= Binary64.roundSig n <= n + 34359738368)
    by (intros n Hn; apply roundSig_error; exact Hn).
  change (2 ^ 88) with 309485009821345068724781056 in B.
  pose proof (B (d * 7205759403792794) ltac:(lia)) as B1.
  remember (Binary64.roundSig (d * 7205759403792794)) as x1.
  pose proof (B (2 * 72057594037927936 + x1) ltac:(lia)) as B2.
  lia.
Qed.

(** C2, as the code has it.  Up to rounding, a rule with pattern and
    directory scores 10 + (characters + segments)/10 (13 + ... with a
    size criterion), a pattern-only rule 4 + characters/10 and a
    directory-only rule 2 + segments/10, each count taken as what
    [getSpecificityScore] counts.  For counts no string of a JavaScript
    engine exceeds (at most 2^32): the combined rule outranks a
    pattern-only rule whose count is below 60 plus the combined rule's
    own counts (30 more with a size criterion) and is outranked by one
    whose count is above it; likewise for a directory-only rule and 80.
    In particular it outranks every pattern-only rule with fewer than 60
    counted characters and every directory-only rule with fewer than 80
    segments.  At exactly the threshold the rounding of the additions
    decides. *)
Theorem combined_rule_outranks_below_threshold (R1 R2 : Rule) :
  hasPattern R1 = true -> hasDirectory R1 = true ->
  patternChars R1 <= 2 ^ 32 -> directorySegments R1 <= 2 ^ 32 ->
  patternChars R2 <= 2 ^ 32 -> directorySegments R2 <= 2 ^ 32 ->
  let own := patternChars R1 + directorySegments R1 +
             (if hasSizeRule R1 then 30 else 0) in
  (onlyPattern R2 = true ->
     (patternChars R2 < 60 + own ->
      (getSpecificityScore R2 < getSpecificityScore R1)%Q) /\
     (60 + own < patternChars R2 ->
      (getSpecificityScore R1 < getSpecificityScore R2)%Q) /\
     (patternChars R2 < 60 -> (getSpecificityScore R2 < getSpecificityScore R1)%Q)) /\
  (onlyDirectory R2 = true ->
     (directorySegments R2 < 80 + own ->
      (getSpecificityScore R2 < getSpecificityScore R1)%Q) /\
     (80 + own < directorySegments R2 ->
      (getSpecificityScore R1 < getSpecificityScore R2)%Q) /\
     (directorySegments R2 < 80 -> (getSpecificityScore R2 < getSpecificityScore R1)%Q)).
Proof.
  intros Hp Hd Hc1 Hd1 Hc2 Hd2 own.
  destruct (score_combined R1 Hp Hd Hc1 Hd1) as (u1 & E1 & B1).
  pose proof (patternChars_nonneg R1) as N1.
  pose proof (directorySegments_nonneg R1) as N2.
  cbv zeta in B1. unfold Binary64.one, Binary64.tenth in B1.
  change (2 ^ 56) with 72057594037927936 in B1.
  change (2 ^ 38) with 274877906944 in B1.
  split; intros H2.
  - destruct (score_onlyPattern R2 H2 Hc2) as (u2 & E2 & B2).
    unfold Binary64.one, Binary64.tenth in B2.
    change (2 ^ 56) with 72057594037927936 in B2.
    change (2 ^ 38) with 274877906944 in B2.
    rewrite E1, E2, !toQ_lt. unfold own.
    destruct (hasSizeRule R1); repeat split; intros H; lia.
  - destruct (score_onlyDirectory R2 H2 Hd2) as (u2 & E2 & B2).
    unfold Binary64.one, Binary64.tenth in B2.
    change (2 ^ 56) with 72057594037927936 in B2.
    change (2 ^ 38) with 274877906944 in B2.
    rewrite E1, E2, !toQ_lt. unfold own.
    destruct (hasSizeRule R1); repeat split; intros H; lia.
Qed.

(** The rules of the test suite: a hero pattern inside banners/ against
    the hero pattern alone. *)
Lemma combined_rule_outranks_below_threshold_witness :
  (getSpecificityScore Samples.heroRule
   < getSpecificityScore Samples.heroInBannersRule)%Q.
Proof.
  apply (proj1 (proj1 (combined_rule_outranks_below_threshold
                         Samples.heroInBannersRule Samples.heroRule eq_refl eq_refl
                         ltac:(vm_compute; discriminate) ltac:(vm_compute; discriminate)
                         ltac:(vm_compute; discriminate) ltac:(vm_compute; discriminate))
                  eq_refl)).
  vm_compute. reflexivity.
Defined.

(** C2 as stated fails: a pattern-only rule with 70 literal characters
    scores 11, the combined rule (pattern a, directory b) scores
    10.199999999999999. *)
Lemma combined_rule_can_rank_lower :
  ~ (forall R1 R2 : Rule,
       hasPattern R1 = true -> hasDirectory R1 = true ->
       onlyPattern R2 = true \/ onlyDirectory R2 = true ->
       (getSpecificityScore R2 < getSpecificityScore R1)%Q).
Proof.
  intros H.
  specialize (H (mkRule (Some "a") (Some "b") None None None None None)
                (mkRule (Some
    "aaaaaaaaaaaaaaaaaaaaaaaaaaaaaaaaaaaaaaaaaaaaaaaaaaaaaaaaaaaaaaaaaaaaaa")
                   None None None None None None)
                eq_refl eq_refl (or_introl eq_refl)).
  vm_compute in H. discriminate.
Qed.

(** At the threshold the rounding decides: 86 counted characters are 60
    more than the 23 + 3 of the combined rule, and the combined rule
    scores 12.600000000000001 against 12.6; 62 are 60 more than 1 + 1,
    and both rules score 10.199999999999999. *)
Example threshold_decided_by_rounding :
  (getSpecificityScore (ScoreCases.ruleWith 86 0 false)
   < getSpecificityScore (ScoreCases.ruleWith 23 3 false))%Q /\
  (getSpecificityScore (ScoreCases.ruleWith 62 0 false)
   == getSpecificityScore (ScoreCases.ruleWith 1 1 false))%Q.
Proof. split; vm_compute; reflexivity. Qed.

(** Scores that are equal in decimals need not be equal: 4 + 0.1 + 2 + 0.3
    + 4 is 10.399999999999999 and 4 + 0.2 + 2 + 0.2 + 4 is 10.4. *)
Example equal_in_decimals_not_in_doubles :
  (getSpecificityScore ScoreCases.shortInDeep
   < getSpecificityScore ScoreCases.longInShallow)%Q.
Proof. vm_compute. reflexivity. Qed.

(** On every rule of the grid, and on the rules above, the score is the
    double the machine computes. *)
Example score_is_the_machine_double :
  forallb MachineScore.agrees
    (ScoreCases.shortInDeep :: ScoreCases.longInShallow :: Samples.heroRule ::
     Samples.heroInBannersRule :: ScoreCases.grid) = true.
Proof. vm_compute. reflexivity. Qed.

End Specificity.

(** ** Rule order and the merge *)

Section RuleOrder.
Import JsString QualityRules.

Lemma comesBefore_true (b a : Rule) :
  comesBefore b a = true <-> (getSpecificityScore a < getSpecificityScore b)%Q.
Proof.
  unfold comesBefore. rewrite negb_true_iff, <- not_true_iff_false, Qle_bool_iff.
  split; [apply Qnot_le_lt | apply Qlt_not_le].
Qed.

Lemma comesBefore_false (b a : Rule) :
  comesBefore b a = false <-> scoreGe a b.
Proof. unfold comesBefore, scoreGe. now rewrite negb_false_iff, Qle_bool_iff. Qed.

Lemma insertRule_Forall (P : Rule -> Prop) (a : Rule) (s : list Rule) :
  P a -> Forall P s -> Forall P (insertRule a s).
Proof.
  intros Ha Hs. induction Hs as [|b s Hb Hs IH]; simpl.
  - now constructor.
  - destruct (comesBefore b a); repeat constructor; assumption.
Qed.

Lemma insertRule_sorted (a : Rule) (s : list Rule) :
  StronglySorted scoreGe s -> StronglySorted scoreGe (insertRule a s).
Proof.
  induction 1 as [|b s Hs IH Hb]; simpl.
  - repeat constructor.
  - destruct (comesBefore b a) eqn:E.
    + constructor; [exact IH |].
      apply insertRule_Forall; [|exact Hb].
      apply comesBefore_true in E. unfold scoreGe. now apply Qlt_le_weak.
    + apply comesBefore_false in E.
      constructor; [now constructor |].
      constructor; [exact E |].
      eapply Forall_impl; [exact Hb |].
      intros c Hc. unfold scoreGe in *. eapply Qle_trans; eassumption.
Qed.

Lemma sortRulesBySpecificity_sorted (l : list Rule) :
  StronglySorted scoreGe (sortRulesBySpecificity l).
Proof.
  induction l as [|a l IH]; simpl; [constructor | now apply insertRule_sorted].
Qed.

Lemma find_sorted_head (P : Rule -> bool) (b y : Rule) (s : list Rule) :
  StronglySorted scoreGe (b :: s) ->
  List.find P (b :: s) = Some y -> scoreGe b y.
Proof.
  intros Hs Hf. apply StronglySorted_inv in Hs as [_ Hb].
  simpl in Hf. destruct (P b).
  - injection Hf as <-. unfold scoreGe. apply Qle_refl.
  - apply find_some in Hf as [Hin _].
    rewrite Forall_forall in Hb. apply Hb.
    now apply list_elem_of_In.
Qed.

Lemma insertRule_perm (a : Rule) (s : list Rule) :
  Permutation (insertRule a s) (a :: s).
Proof.
  induction s as [|b s IH]; simpl; [reflexivity |].
  destruct (comesBefore b a); [|reflexivity].
  rewrite IH. apply perm_swap.
Qed.

(** The sorted list holds the declared rules, each as often as declared. *)
Lemma sortRulesBySpecificity_perm (l : list Rule) :
  Permutation (sortRulesBySpecificity l) l.
Proof.
  induction l as [|a l IH]; simpl; [reflexivity |].
  rewrite insertRule_perm. now constructor.
Qed.

Lemma insertRule_sameScore (c : Q) (a : Rule) (s : list Rule) :
  List.filter (sameScore c) (insertRule a s)
  = if sameScore c a then a :: List.filter (sameScore c) s
    else List.filter (sameScore c) s.
Proof.
  induction s as [|b s IH]; simpl; [reflexivity |].
  destruct (comesBefore b a) eqn:E; simpl; [|reflexivity].
  rewrite IH. destruct (sameScore c a) eqn:Ea; [|reflexivity].
  assert (Eb : sameScore c b = false).
  { apply comesBefore_true in E. unfold sameScore in *.
    apply Qeq_bool_iff in Ea. apply not_true_iff_false. intros Hb.
    apply Qeq_bool_iff in Hb. rewrite Ea, Hb in E. now apply Qlt_irrefl in E. }
  now rewrite Eb.
Qed.

(** The sort is stable: the rules of every score class keep their
    declaration order.  Together with the two lemmas before, this fixes the
    result of any stable descending sort of the list. *)
Lemma sortRulesBySpecificity_stable (c : Q) (l : list Rule) :
  List.filter (sameScore c) (sortRulesBySpecificity l)
  = List.filter (sameScore c) l.
Proof.
  induction l as [|a l IH]; simpl; [reflexivity |].
  rewrite insertRule_sameScore, IH. reflexivity.
Qed.

(** Looking for the first rule with [P] in a sorted list after one
    insertion. *)
Lemma find_insertRule (P : Rule -> bool) (a : Rule) (s : list Rule) :
  StronglySorted scoreGe s ->
  List.find P (insertRule a s) =
  if P a then
    match List.find P s with
    | Some b => if comesBefore b a then Some b else Some a
    | None => Some a
    end
  else List.find P s.
Proof.
  induction 1 as [|b s Hs IH Hb]; simpl.
  - reflexivity.
  - destruct (comesBefore b a) eqn:E; simpl.
    + destruct (P b) eqn:Pb.
      * rewrite E. now destruct (P a).
      * exact IH.
    + destruct (P a) eqn:Pa; [|reflexivity].
      destruct (if P b then Some b else List.find P s) as [y|] eqn:Ef; [|reflexivity].
      assert (Hy : scoreGe b y).
      { apply (find_sorted_head P b y s); [now constructor | exact Ef]. }
      apply comesBefore_false in E.
      assert (Hya : comesBefore y a = false).
      { apply comesBefore_false. unfold scoreGe in *. eapply Qle_trans; eassumption. }
      now rewrite Hya.
Qed.

(** The first rule with [P] in the sorted list is the top rule of the
    declaration list. *)
Lemma find_sortRulesBySpecificity (P : Rule -> bool) (l : list Rule) :
  List.find P (sortRulesBySpecificity l) = topRule P l.
Proof.
  induction l as [|a l IH]; simpl; [reflexivity |].
  rewrite find_insertRule by apply sortRulesBySpecificity_sorted.
  now rewrite IH.
Qed.

Lemma topRule_Some (P : Rule -> bool) (l : list Rule) (y : Rule) :
  topRule P l = Some y -> In y l /\ P y = true.
Proof.
  induction l as [|a l IH]; simpl; [discriminate |].
  destruct (P a) eqn:Pa.
  - destruct (topRule P l) as [b|].
    + destruct (comesBefore b a).
      * intros [= <-]. destruct (IH eq_refl). tauto.
      * intros [= <-]. tauto.
    + intros [= <-]. tauto.
  - intros H. destruct (IH H). tauto.
Qed.

(** The earliest rule of the highest score is the top rule. *)
Lemma topRule_first_of_highest (P : Rule -> bool) (l1 rest : list Rule) (A : Rule) :
  P A = true ->
  (forall R, In R l1 -> P R = true ->
             (getSpecificityScore R < getSpecificityScore A)%Q) ->
  (forall R, In R rest -> P R = true ->
             (getSpecificityScore R <= getSpecificityScore A)%Q) ->
  topRule P (l1 ++ A :: rest) = Some A.
Proof.
  intros PA H1 H2. induction l1 as [|x l1 IH]; simpl.
  - rewrite PA. destruct (topRule P rest) as [b|] eqn:Eb; [|reflexivity].
    apply topRule_Some in Eb as [Hin Pb].
    assert (E : comesBefore b A = false)
      by (apply comesBefore_false; unfold scoreGe; now apply H2).
    now rewrite E.
  - rewrite IH by (intros R HR; apply H1; now right).
    destruct (P x) eqn:Px; [|reflexivity].
    assert (E : comesBefore A x = true)
      by (apply comesBefore_true; apply H1; [now left | exact Px]).
    now rewrite E.
Qed.

Lemma fold_applyRule_lookup (key : string) (dq : gmap string Z) (l : list Rule) :
  List.fold_left applyRule (List.rev l) dq !! key =
  match List.find (definesKey key) l with
  | Some r => valueFor key r
  | None => dq !! key
  end.
Proof.
  rewrite <- fold_left_rev_right, rev_involutive.
  induction l as [|r l IH]; simpl; [reflexivity |].
  unfold applyRule at 1, definesKey at 1.
  assert (Ev : valueFor key r = quality r ≫= (fun q => q !! key)) by reflexivity.
  destruct (quality r) as [q|]; simpl in Ev.
  - destruct (q !! key) as [v|] eqn:Eq; rewrite Ev; cbv iota.
    + rewrite Ev. now apply lookup_union_Some_l.
    + rewrite lookup_union_r by exact Eq. exact IH.
  - rewrite Ev. exact IH.
Qed.

Lemma find_filter (M Q : Rule -> bool) (l : list Rule) :
  List.find Q (List.filter M l) = List.find (fun r => M r && Q r) l.
Proof.
  induction l as [|r l IH]; simpl; [reflexivity |].
  destruct (M r); simpl; [now rewrite IH | exact IH].
Qed.

(** The value of a key in the resolved map: that of the top rule among
    the matching rules that define the key, else the default. *)
Lemma getQualityForImage_lookup (rs : list Rule) (d : Dependencies)
    (p : string) (md : option Metadata) (dq : gmap string Z) (key : string) :
  getQualityForImage (newEngine rs d) p md dq !! key =
  match topRule (fun r => ruleMatches d r p md && definesKey key r) rs with
  | Some r => valueFor key r
  | None => dq !! key
  end.
Proof.
  unfold getQualityForImage. simpl.
  now rewrite fold_applyRule_lookup, find_filter, find_sortRulesBySpecificity.
Qed.

End RuleOrder.

(** ** Ties between rules *)

Section TieBreak.
Import JsString QualityRules Samples.

(** C9, as the code has it (two rules tie when their scores are the same
    double): the stable descending sort keeps tied rules
    in declaration order, and the merge walks the matching rules in the
    REVERSE of that order, so of two tied rules the one declared first is
    applied last.  On a key both define, the resolved map has the value
    of the earlier-declared rule [A], not that of the later-declared [B],
    whenever no other matching rule that defines the key outranks [A] or
    ties with it from an earlier declaration. *)
Theorem equal_scores_first_declared_wins
    (d : Dependencies) (l1 l2 l3 : list Rule) (A B : Rule)
    (p : string) (md : option Metadata) (dq : gmap string Z)
    (key : string) (va vb : Z) :
  (getSpecificityScore A == getSpecificityScore B)%Q ->
  ruleMatches d A p md = true ->
  ruleMatches d B p md = true ->
  valueFor key A = Some va ->
  valueFor key B = Some vb ->
  (forall R, In R l1 -> ruleMatches d R p md = true -> definesKey key R = true ->
             (getSpecificityScore R < getSpecificityScore A)%Q) ->
  (forall R, In R (l2 ++ l3) -> ruleMatches d R p md = true ->
             definesKey key R = true ->
             (getSpecificityScore R <= getSpecificityScore A)%Q) ->
  getQualityForImage (newEngine (l1 ++ A :: l2 ++ B :: l3) d) p md dq !! key
  = Some va.
Proof.
  intros Htie MA MB VA VB Hbefore Hafter.
  rewrite getQualityForImage_lookup.
  rewrite (topRule_first_of_highest _ l1 (l2 ++ B :: l3) A).
  - exact VA.
  - unfold definesKey. now rewrite MA, VA.
  - intros R HR HP. apply andb_true_iff in HP as [HM HD]. now apply Hbefore.
  - intros R HR HP. apply andb_true_iff in HP as [HM HD].
    apply in_app_or in HR as [HR | [<- | HR]].
    + apply Hafter; [apply in_or_app; now left | exact HM | exact HD].
    + rewrite Htie. apply Qle_refl.
    + apply Hafter; [apply in_or_app; now right | exact HM | exact HD].
Qed.

(** The two tied directory rules of [Samples] on the path x/y/f.png. *)
Lemma equal_scores_first_declared_wins_witness :
  getQualityForImage (newEngine [tieFirst; tieSecond] tieDeps)
    "x/y/f.png" None {[ "webp" := 80 ]} !! "webp" = Some 90.
Proof.
  apply (equal_scores_first_declared_wins tieDeps [] [] [] tieFirst tieSecond
           "x/y/f.png" None {[ "webp" := 80 ]} "webp" 90 70).
  - vm_compute. reflexivity.
  - reflexivity.
  - reflexivity.
  - vm_compute. reflexivity.
  - vm_compute. reflexivity.
  - intros R [].
  - intros R [].
Defined.

(** C9 as stated fails: with the two tied rules above the resolved map
    carries 90, the value of the first-declared rule, not the 70 of the
    later-declared one. *)
Lemma equal_scores_later_declared_loses :
  ~ (forall (d : Dependencies) (A B : Rule) (p : string) (md : option Metadata)
            (dq : gmap string Z) (key : string) (va vb : Z),
       (getSpecificityScore A == getSpecificityScore B)%Q ->
       ruleMatches d A p md = true ->
       ruleMatches d B p md = true ->
       valueFor key A = Some va ->
       valueFor key B = Some vb ->
       getQualityForImage (newEngine [A; B] d) p md dq !! key = Some vb).
Proof.
  intros H.
  specialize (H tieDeps tieFirst tieSecond "x/y/f.png" None {[ "webp" := 80 ]}
                "webp" 90 70).
  assert (E : getQualityForImage (newEngine [tieFirst; tieSecond] tieDeps)
                "x/y/f.png" None {[ "webp" := 80 ]} !! "webp" = Some 90)
    by (vm_compute; reflexivity).
  rewrite H in E.
  - discriminate.
  - vm_compute. reflexivity.
  - reflexivity.
  - reflexivity.
  - vm_compute. reflexivity.
  - vm_compute. reflexivity.
Qed.

(** Two rules whose scores both read 10.4 in decimals do not tie: the
    score of the second is the larger double, so the sort puts it first
    and its value is the one resolved. *)
Example decimal_tie_is_decided_by_rounding :
  sortRulesBySpecificity [ScoreCases.shortInDeep; ScoreCases.longInShallow]
  = [ScoreCases.longInShallow; ScoreCases.shortInDeep] /\
  ruleMatches ScoreCases.matchBoth ScoreCases.shortInDeep "x/y/z/ag" None = true /\
  ruleMatches ScoreCases.matchBoth ScoreCases.longInShallow "x/y/z/ag" None = true /\
  getQualityForImage
    (newEngine [ScoreCases.shortInDeep; ScoreCases.longInShallow] ScoreCases.matchBoth)
    "x/y/z/ag" None {[ "webp" := 80 ]} !! "webp" = Some 70.
Proof. repeat split; vm_compute; reflexivity. Qed.

(** The directory rules of the unit tests: the deeper directory wins, both
    separators are accepted, images-backup/ is left at the default. *)
Example directory_rules_of_the_tests :
  getQualityForImage (newEngine nestedRules tieDeps)
    "assets/images/heroes/banner.png" None {[ "webp" := 80 ]} !! "webp" = Some 90 /\
  getQualityForImage (newEngine nestedRules tieDeps)
    "assets\images\heroes\banner.png" None {[ "webp" := 80 ]} !! "webp" = Some 90 /\
  getQualityForImage (newEngine nestedRules tieDeps)
    "assets/images-backup/file.png" None {[ "webp" := 80 ]} !! "webp" = Some 80.
Proof. repeat split; vm_compute; reflexivity. Qed.

End TieBreak.

(** ** Change detection *)

Section ChangeDetection.
Import Timestamp.

Lemma outputsNeedWork_false (fileStats : FileStats) (tin : Z) (outputPaths : list string) :
  outputsNeedWork fileStats tin outputPaths = false <->
  (forall o, In o outputPaths ->
             exists t, getModTime fileStats o = Some t /\ tin <= t).
Proof.
  induction outputPaths as [|o rest IH]; simpl.
  - split; [intros _ o [] | reflexivity].
  - destruct (getModTime fileStats o) as [t|] eqn:Et.
    + destruct (Z.ltb_spec t tin) as [Hlt | Hge].
      * split; [discriminate |].
        intros H. destruct (H o (or_introl eq_refl)) as [t' [Et' Hle]].
        rewrite Et in Et'. injection Et' as <-. lia.
      * rewrite IH. split.
        -- intros H o' [<- | Hin]; [now exists t | now apply H].
        -- intros H o' Hin. apply H. now right.
    + split; [discriminate |].
      intros H. destruct (H o (or_introl eq_refl)) as [t' [Et' _]].
      rewrite Et in Et'. discriminate.
Qed.

Lemma outputsNeedWork_true (fileStats : FileStats) (tin : Z) (outputPaths : list string) :
  outputsNeedWork fileStats tin outputPaths = true <->
  (exists o, In o outputPaths /\
             (getModTime fileStats o = None \/
              exists t, getModTime fileStats o = Some t /\ t < tin)).
Proof.
  induction outputPaths as [|o rest IH]; simpl.
  - split; [discriminate | intros [o [[] _]]].
  - destruct (getModTime fileStats o) as [t|] eqn:Et.
    + destruct (Z.ltb_spec t tin) as [Hlt | Hge].
      * split; [|reflexivity]. intros _. exists o. split; [now left |].
        right. now exists t.
      * rewrite IH. split.
        -- intros [o' [Hin H]]. exists o'. split; [now right | exact H].
        -- intros [o' [[<- | Hin] H]].
           ++ destruct H as [H | [t' [Et' Hlt]]]; rewrite Et in *; [discriminate |].
              injection Et' as <-. lia.
           ++ now exists o'.
    + split; [|reflexivity]. intros _. exists o. split; [now left | now left].
Qed.

(** C10: without force and with the input's modification time known,
    [shouldProcess] answers false exactly when every output exists and is
    not older than the input (an equal timestamp counts as up to date),
    and true exactly when some output is missing or strictly older. *)
Theorem shouldProcess_up_to_date (fileStats : FileStats) (inputPath : string)
    (outputPaths : list string) (tin : Z) :
  getModTime fileStats inputPath = Some tin ->
  (shouldProcess fileStats inputPath outputPaths false = false <->
   (forall o, In o outputPaths ->
              exists t, getModTime fileStats o = Some t /\ tin <= t)) /\
  (shouldProcess fileStats inputPath outputPaths false = true <->
   (exists o, In o outputPaths /\
              (getModTime fileStats o = None \/
               exists t, getModTime fileStats o = Some t /\ t < tin))).
Proof.
  intros Hin. unfold shouldProcess. rewrite Hin.
  split; [apply outputsNeedWork_false | apply outputsNeedWork_true].
Qed.

(** The theorem on an output whose timestamp equals the input's. *)
Lemma shouldProcess_up_to_date_witness :
  shouldProcess Samples.equalStats "in.png" ["out.webp"] false = false.
Proof.
  apply (proj2 (proj1 (shouldProcess_up_to_date Samples.equalStats
                         "in.png" ["out.webp"] 100 eq_refl))).
  intros o [<- | []]. exists 100. split; [reflexivity | lia].
Defined.

End ChangeDetection.

(** ** The per-file decision *)

Section PerFile.
Import Optimizer.

Lemma missing_input_not_pointer (fs0 : gmap string FileNode) (inputPath : string) :
  fs0 !! inputPath = None -> isGitLfsPointer fs0 inputPath = false.
Proof. unfold isGitLfsPointer. now intros ->. Qed.

Lemma missing_input_no_work (fs0 : gmap string FileNode) (inputPath : string)
    (outputPaths : list string) :
  fs0 !! inputPath = None ->
  Timestamp.shouldProcess (statOf fs0) inputPath outputPaths false = false.
Proof.
  intros H. unfold Timestamp.shouldProcess, Timestamp.getModTime, statOf.
  now rewrite H.
Qed.

(** C8, as the code has it: a file whose input is missing is not
    processed (no collaborator runs, the disk is unchanged, the codec is
    not invoked) and [optimizeImage] reports it as skipped, the same
    answer as for an up-to-date file; the batch loop then counts it under
    skipped and not under errors. *)
Theorem optimizeImage_missing_input_skipped (c : Collaborators) (cfg : Config)
    (inputPath filename : string) (options : Options) (w : World) :
  fs w !! inputPath = None ->
  forceReprocess options = false ->
  optimizeImage c cfg inputPath filename options w
    = (ResSkipped, emit (LogUpToDate filename) w) /\
  (forall stats f w',
     App.updateStats stats ResSkipped f w'
     = (App.mkStats (App.processed stats) (App.skipped stats + 1) (App.errors stats)
                    (App.lfsPointers stats) (App.lfsErrors stats),
        Runtime.emit (Runtime.ProgressIncrement "skipped" f) w')).
Proof.
  intros Hmiss Hforce. split; [|reflexivity].
  unfold optimizeImage.
  rewrite (missing_input_not_pointer _ _ Hmiss), Hforce.
  now rewrite (missing_input_no_work _ _ _ Hmiss).
Qed.

Lemma optimizeImage_missing_input_skipped_witness :
  optimizeImage Samples.idleCollaborators Samples.defaultConfig
    "original/a.png" "a.png" (mkOptions false false) Samples.emptyWorld
  = (ResSkipped, emit (LogUpToDate "a.png") Samples.emptyWorld).
Proof.
  apply (proj1 (optimizeImage_missing_input_skipped Samples.idleCollaborators
                  Samples.defaultConfig "original/a.png" "a.png"
                  (mkOptions false false) Samples.emptyWorld eq_refl eq_refl)).
Defined.

(** C8 as stated fails: on an empty disk the missing input a.png ends as
    skipped, not as a failure. *)
Lemma optimizeImage_missing_input_not_failed :
  ~ (forall (c : Collaborators) (cfg : Config) (inputPath filename : string)
            (options : Options) (w : World),
       fs w !! inputPath = None ->
       forceReprocess options = false ->
       fst (optimizeImage c cfg inputPath filename options w) = ResError \/
       fst (optimizeImage c cfg inputPath filename options w) = ResLfsError).
Proof.
  intros H.
  destruct (H Samples.idleCollaborators Samples.defaultConfig
              "original/a.png" "a.png" (mkOptions false false)
              Samples.emptyWorld eq_refl eq_refl) as [E | E];
    vm_compute in E; discriminate.
Qed.

End PerFile.

(** ** Retry, logging and outcome of [processWithRecovery] *)

Section RecoveryFacts.
Import Runtime Recovery.

Context {R : Type}.
Variable m : Manager.
Variable operation : nat -> Completion R.
Variable ctx : gmap string JsVal.

Lemma retryStep_errors (a : Z) (w : World) :
  errors (retryStep m ctx a w) = errors w /\
  errorLog (retryStep m ctx a w) = errorLog w /\
  stateFile (retryStep m ctx a w) = stateFile w /\
  processedFiles (retryStep m ctx a w) = processedFiles w.
Proof. repeat split. Qed.

Lemma retrySteps_errors (k : nat) (a : Z) (w : World) :
  errors (retrySteps m ctx k a w) = errors w /\
  errorLog (retrySteps m ctx k a w) = errorLog w.
Proof.
  revert a w. induction k as [|k IH]; intros a w; simpl; [now split |].
  destruct (IH (a + 1) (retryStep m ctx a w)) as [-> ->]. now split.
Qed.

(** One pass of the loop on a retryable failure below the limit. *)
Lemma attemptLoop_retry (fuel : nat) (a : Z) (le : option JsError) (w : World)
    (e : JsError) :
  a < maxRetries m ->
  operation (Z.to_nat (a - 1)) = Thrown e ->
  isRetryable e = true ->
  attemptLoop m operation ctx (S fuel) a le w
  = attemptLoop m operation ctx fuel (a + 1) (Some e) (retryStep m ctx a w).
Proof.
  intros Hlt Hop Hre. simpl.
  replace (a <=? maxRetries m) with true by (symmetry; apply Z.leb_le; lia).
  rewrite Hop, Hre.
  replace (a =? maxRetries m) with false by (symmetry; apply Z.eqb_neq; lia).
  reflexivity.
Qed.

(** One pass of the loop on a terminal failure. *)
Lemma attemptLoop_terminal (fuel : nat) (a : Z) (le : option JsError) (w : World)
    (e : JsError) :
  a <= maxRetries m ->
  operation (Z.to_nat (a - 1)) = Thrown e ->
  isRetryable e = false \/ a = maxRetries m ->
  attemptLoop m operation ctx (S fuel) a le w
  = Some (if continueOnError m
          then Returned (mkRecoveryResult false None (Some e) a)
          else Thrown e,
          ErrorLogger.log (ctx !! "file") e (<["attempt" := JsNum a]> ctx) w).
Proof.
  intros Hle Hop Hterm. simpl.
  replace (a <=? maxRetries m) with true by (symmetry; apply Z.leb_le; lia).
  rewrite Hop.
  assert (Hc : negb (isRetryable e) || (a =? maxRetries m) = true).
  { destruct Hterm as [-> | ->]; [reflexivity |].
    rewrite Z.eqb_refl. apply orb_true_r. }
  rewrite Hc. now destruct (continueOnError m).
Qed.

(** One pass of the loop on success. *)
Lemma attemptLoop_success (fuel : nat) (a : Z) (le : option JsError) (w : World)
    (r : R) :
  a <= maxRetries m ->
  operation (Z.to_nat (a - 1)) = Returned r ->
  attemptLoop m operation ctx (S fuel) a le w
  = Some (Returned (mkRecoveryResult true (Some r) None a), w).
Proof.
  intros Hle Hop. simpl.
  replace (a <=? maxRetries m) with true by (symmetry; apply Z.leb_le; lia).
  now rewrite Hop.
Qed.

(** [k] retryable failures in a row, all below the limit. *)
Lemma attemptLoop_retries (k fuel : nat) (a : Z) (le : option JsError) (w : World) :
  (forall j : Z, a <= j < a + Z.of_nat k ->
     j < maxRetries m /\
     exists e, operation (Z.to_nat (j - 1)) = Thrown e /\ isRetryable e = true) ->
  exists le',
    attemptLoop m operation ctx (k + fuel) a le w
    = attemptLoop m operation ctx fuel (a + Z.of_nat k) le' (retrySteps m ctx k a w).
Proof.
  revert a le w. induction k as [|k IH]; intros a le w H.
  - exists le. simpl. now rewrite Z.add_0_r.
  - destruct (H a ltac:(lia)) as [Hlt [e [Hop Hre]]].
    destruct (IH (a + 1) (Some e) (retryStep m ctx a w)) as [le' IH'].
    { intros j Hj. apply H. lia. }
    exists le'. simpl plus.
    rewrite (attemptLoop_retry _ _ _ _ e Hlt Hop Hre), IH'.
    replace (a + Z.of_nat (S k)) with (a + 1 + Z.of_nat k) by lia.
    reflexivity.
Qed.

(** From an attempt within the limit the loop settles, success leaves
    both logs alone, and a failure appends exactly one entry to both. *)
Lemma attemptLoop_logs_once (fuel : nat) (a : Z) (le : option JsError) (w : World) :
  1 <= a <= maxRetries m ->
  (Z.to_nat (maxRetries m - a) < fuel)%nat ->
  exists c w',
    attemptLoop m operation ctx fuel a le w = Some (c, w') /\
    if isSuccess c
    then errors w' = errors w /\ errorLog w' = errorLog w
    else exists entry,
           errors w' = errors w ++ [entry] /\
           errorLog w' = Some (default [] (errorLog w) ++ [entry]).
Proof.
  revert a le w. induction fuel as [|fuel IH]; intros a le w Ha Hfuel; [lia |].
  destruct (operation (Z.to_nat (a - 1))) as [r | e] eqn:Hop.
  - rewrite (attemptLoop_success _ _ _ _ r) by (lia || exact Hop).
    eexists _, _. split; [reflexivity |]. simpl. now split.
  - destruct (isRetryable e) eqn:Hre.
    + destruct (Z.eq_dec a (maxRetries m)) as [Heq | Hne].
      * rewrite (attemptLoop_terminal _ _ _ _ e) by (lia || exact Hop || now right).
        eexists _, _. split; [reflexivity |].
        destruct (continueOnError m); simpl; eexists; split; reflexivity.
      * rewrite (attemptLoop_retry _ _ _ _ e) by (lia || exact Hop || exact Hre).
        destruct (IH (a + 1) (Some e) (retryStep m ctx a w)) as [c [w' [E Hc]]];
          [lia | lia |].
        exists c, w'. split; [exact E | exact Hc].
    + rewrite (attemptLoop_terminal _ _ _ _ e) by (lia || exact Hop || now left).
      eexists _, _. split; [reflexivity |].
      destruct (continueOnError m); simpl; eexists; split; reflexivity.
Qed.

End RecoveryFacts.

Section RecoveryClaims.
Import Runtime Recovery.

Context {R : Type}.

(** Under a limit of at least one attempt some attempt settles the
    invocation: the first one that returns, fails with an error that is
    not retryable, or is the last one allowed. *)
Lemma settling_attempt (m : Manager) (operation : nat -> Completion R)
    (k : nat) (a : Z) :
  1 <= a <= maxRetries m ->
  maxRetries m - a < Z.of_nat k ->
  (forall j : Z, 1 <= j < a ->
     exists ej, operation (Z.to_nat (j - 1)) = Thrown ej /\ isRetryable ej = true) ->
  exists n : Z,
    a <= n <= maxRetries m /\
    (forall j : Z, 1 <= j < n ->
       exists ej, operation (Z.to_nat (j - 1)) = Thrown ej /\ isRetryable ej = true) /\
    ((exists r, operation (Z.to_nat (n - 1)) = Returned r) \/
     (exists e, operation (Z.to_nat (n - 1)) = Thrown e /\
                (isRetryable e = false \/ n = maxRetries m))).
Proof.
  revert a. induction k as [|k IH]; intros a Ha Hk Hprev; [lia|].
  destruct (operation (Z.to_nat (a - 1))) as [r | e] eqn:Hop.
  - exists a. split; [lia|]. split; [exact Hprev|]. left. now exists r.
  - destruct (isRetryable e) eqn:Hre.
    + destruct (Z.eq_dec a (maxRetries m)) as [Heq | Hne].
      * exists a. split; [lia|]. split; [exact Hprev|]. right. exists e. auto.
      * destruct (IH (a + 1)) as (n & Hn & Hbefore & Hat); [lia | lia | |].
        { intros j Hj. destruct (Z.eq_dec j a) as [-> | Hja].
          - now exists e.
          - apply Hprev. lia. }
        exists n. split; [lia|]. split; assumption.
    + exists a. split; [lia|]. split; [exact Hprev|]. right. exists e. auto.
Qed.

(** C3: the log entries of one invocation of [processWithRecovery], by
    what the operation does.  When attempts 1 .. n-1 fail with retryable
    errors and attempt [n] (within the limit) returns, the invocation
    returns success with the value and [attempts = n], and neither the
    in-memory error list nor the log file has changed.  When instead
    attempt [n] fails with an error that is not retryable, or [n] is the
    limit, the invocation fails (it throws the error, or returns the
    failure with [attempts = n] when [continueOnError] is on) and exactly
    one entry, for that error, has been appended to both.  Under a limit
    of at least one attempt every operation is in one of the two cases;
    under a limit below one the operation is not run at all, and the
    invocation returns a failure record without an error and without an
    entry.  An operation that fails twice with a retryable error and
    then succeeds, under a limit of at least three attempts, yields
    success with attempts = 3 and no entry. *)
Theorem processWithRecovery_logs_once (m : Manager) (operation : nat -> Completion R)
    (ctx : gmap string JsVal) (w : World) :
  (forall (n : Z) (r : R),
     1 <= n <= maxRetries m ->
     (forall j : Z, 1 <= j < n ->
        exists ej, operation (Z.to_nat (j - 1)) = Thrown ej /\ isRetryable ej = true) ->
     operation (Z.to_nat (n - 1)) = Returned r ->
     exists w',
       processWithRecovery m operation ctx w
       = Some (Returned (mkRecoveryResult true (Some r) None n), w') /\
       errors w' = errors w /\ errorLog w' = errorLog w) /\
  (forall (n : Z) (e : JsError),
     1 <= n <= maxRetries m ->
     (forall j : Z, 1 <= j < n ->
        exists ej, operation (Z.to_nat (j - 1)) = Thrown ej /\ isRetryable ej = true) ->
     operation (Z.to_nat (n - 1)) = Thrown e ->
     isRetryable e = false \/ n = maxRetries m ->
     exists w' entry,
       processWithRecovery m operation ctx w
       = Some (if continueOnError m
               then Returned (mkRecoveryResult false None (Some e) n)
               else Thrown e, w') /\
       entryError entry = e /\
       errors w' = errors w ++ [entry] /\
       errorLog w' = Some (default [] (errorLog w) ++ [entry])) /\
  (1 <= maxRetries m ->
   exists n : Z,
     1 <= n <= maxRetries m /\
     (forall j : Z, 1 <= j < n ->
        exists ej, operation (Z.to_nat (j - 1)) = Thrown ej /\ isRetryable ej = true) /\
     ((exists r, operation (Z.to_nat (n - 1)) = Returned r) \/
      (exists e, operation (Z.to_nat (n - 1)) = Thrown e /\
                 (isRetryable e = false \/ n = maxRetries m)))) /\
  (maxRetries m < 1 ->
   processWithRecovery m operation ctx w
   = Some (Returned (mkRecoveryResult false None None (maxRetries m)), w)) /\
  (forall (e1 e2 : JsError) (r : R),
     3 <= maxRetries m ->
     operation 0%nat = Thrown e1 -> isRetryable e1 = true ->
     operation 1%nat = Thrown e2 -> isRetryable e2 = true ->
     operation 2%nat = Returned r ->
     exists w',
       processWithRecovery m operation ctx w
       = Some (Returned (mkRecoveryResult true (Some r) None 3), w') /\
       errors w' = errors w /\ errorLog w' = errorLog w).
Proof.
  assert (Hrun : forall n : Z,
            1 <= n <= maxRetries m ->
            (forall j : Z, 1 <= j < n ->
               exists ej, operation (Z.to_nat (j - 1)) = Thrown ej /\
                          isRetryable ej = true) ->
            exists le f,
              processWithRecovery m operation ctx w
              = attemptLoop m operation ctx (S f) n le
                  (retrySteps m ctx (Z.to_nat (n - 1)) 1 w)).
  { intros n Hn Hprev. unfold processWithRecovery.
    assert (Hfuel : exists f, S (Z.to_nat (maxRetries m))
                              = (Z.to_nat (n - 1) + S f)%nat).
    { exists (Z.to_nat (maxRetries m) - Z.to_nat (n - 1))%nat. lia. }
    destruct Hfuel as [f ->].
    destruct (attemptLoop_retries m operation ctx (Z.to_nat (n - 1)) (S f) 1 None w)
      as [le' E].
    { intros j Hj. split; [lia |]. apply Hprev. lia. }
    exists le', f. rewrite E.
    replace (1 + Z.of_nat (Z.to_nat (n - 1))) with n by lia. reflexivity. }
  assert (Hsuccess : forall (n : Z) (r : R),
            1 <= n <= maxRetries m ->
            (forall j : Z, 1 <= j < n ->
               exists ej, operation (Z.to_nat (j - 1)) = Thrown ej /\
                          isRetryable ej = true) ->
            operation (Z.to_nat (n - 1)) = Returned r ->
            exists w',
              processWithRecovery m operation ctx w
              = Some (Returned (mkRecoveryResult true (Some r) None n), w') /\
              errors w' = errors w /\ errorLog w' = errorLog w).
  { intros n r Hn Hprev Hop. destruct (Hrun n Hn Hprev) as (le & f & ->).
    rewrite (attemptLoop_success m operation ctx _ _ _ _ r) by (lia || exact Hop).
    eexists. split; [reflexivity |]. apply retrySteps_errors. }
  split; [exact Hsuccess |]. split; [|split; [|split]].
  - intros n e Hn Hprev Hop Hterm. destruct (Hrun n Hn Hprev) as (le & f & ->).
    rewrite (attemptLoop_terminal m operation ctx _ _ _ _ e) by (lia || assumption).
    destruct (retrySteps_errors m ctx (Z.to_nat (n - 1)) 1 w) as [He Hl].
    eexists _, _. split; [reflexivity |].
    unfold ErrorLogger.log. cbn [errors errorLog withErrors withErrorLog].
    rewrite He, Hl. split; [|split; reflexivity].
    unfold ErrorLogger.makeEntry. cbn [entryError]. now destruct e.
  - intros Hm. destruct (settling_attempt m operation (Z.to_nat (maxRetries m)) 1)
      as (n & Hn & Hbefore & Hat); [lia | lia | intros j Hj; lia |].
    exists n. split; [lia |]. split; assumption.
  - intros Hm. unfold processWithRecovery. simpl.
    replace (1 <=? maxRetries m) with false by (symmetry; apply Z.leb_gt; lia).
    reflexivity.
  - intros e1 e2 r Hm H1 R1 H2 R2 H3.
    apply (Hsuccess 3 r); [lia | | exact H3].
    intros j Hj. assert (Hj' : j = 1 \/ j = 2) by lia.
    destruct Hj' as [-> | ->]; [now exists e1 | now exists e2].
Qed.

(** C4: when attempts 1 .. n-1 failed with retryable errors and attempt
    [n] fails with an error that is not retryable, or [n] is the limit,
    the error is logged once, with the context, the attempt number and
    [retryCount = n], and then the invocation throws the error when
    [continueOnError] is off and returns the failure with [attempts = n]
    when it is on. *)
Theorem processWithRecovery_terminal_failure (m : Manager)
    (operation : nat -> Completion R) (ctx : gmap string JsVal) (w : World)
    (n : Z) (e : JsError) :
  1 <= n <= maxRetries m ->
  (forall j : Z, 1 <= j < n ->
     exists ej, operation (Z.to_nat (j - 1)) = Thrown ej /\ isRetryable ej = true) ->
  operation (Z.to_nat (n - 1)) = Thrown e ->
  isRetryable e = false \/ n = maxRetries m ->
  let before := retrySteps m ctx (Z.to_nat (n - 1)) 1 w in
  let logged :=
    ErrorLogger.log (ctx !! "file") e (<["attempt" := JsNum n]> ctx) before in
  processWithRecovery m operation ctx w
  = Some (if continueOnError m
          then Returned (mkRecoveryResult false None (Some e) n)
          else Thrown e,
          logged) /\
  exists entry,
    errors logged = errors w ++ [entry] /\
    errorLog logged = Some (default [] (errorLog w) ++ [entry]) /\
    file entry = ctx !! "file" /\
    entryError entry = e /\
    context entry !! "attempt" = Some (JsNum n) /\
    context entry !! "retryCount" = Some (JsNum n) /\
    (forall key, key <> "attempt" -> key <> "retryCount" ->
                 context entry !! key = ctx !! key).
Proof.
  intros Hn Hprev Hop Hterm before logged. split.
  - unfold processWithRecovery.
    assert (Hfuel : exists f, S (Z.to_nat (maxRetries m))
                              = (Z.to_nat (n - 1) + S f)%nat).
    { exists (Z.to_nat (maxRetries m) - Z.to_nat (n - 1))%nat. lia. }
    destruct Hfuel as [f ->].
    destruct (attemptLoop_retries m operation ctx (Z.to_nat (n - 1)) (S f) 1 None w)
      as [le' E].
    { intros j Hj. split; [lia |]. apply Hprev. lia. }
    rewrite E. replace (1 + Z.of_nat (Z.to_nat (n - 1))) with n by lia.
    now apply attemptLoop_terminal.
  - destruct (retrySteps_errors m ctx (Z.to_nat (n - 1)) 1 w) as [He Hl].
    fold before in He, Hl.
    exists (ErrorLogger.makeEntry (ctx !! "file") e (<["attempt" := JsNum n]> ctx) before).
    unfold logged, ErrorLogger.log.
    cbn [errors errorLog withErrors withErrorLog].
    rewrite He, Hl.
    unfold ErrorLogger.makeEntry. cbn [file entryError context].
    split; [reflexivity |]. split; [reflexivity |]. split; [reflexivity |].
    split; [now destruct e |].
    assert (Hrc : ErrorLogger.retryCount (<["attempt" := JsNum n]> ctx) = JsNum n).
    { unfold ErrorLogger.retryCount. rewrite lookup_insert_eq.
      unfold ErrorLogger.truthyVal.
      replace (n =? 0) with false by (symmetry; apply Z.eqb_neq; lia).
      reflexivity. }
    rewrite Hrc. split; [|split].
    + rewrite lookup_insert_ne by discriminate. apply lookup_insert_eq.
    + apply lookup_insert_eq.
    + intros key Ha Hr. now rewrite !lookup_insert_ne by congruence.
Qed.

(** C7: the delay computed for attempt [n >= 1] is the base delay for
    [n = 1] whatever the backoff setting, and for [n > 1] the base delay
    times 2^(n-1) with exponential backoff and the base delay without;
    and that is the time the loop sleeps after a retryable failure of
    attempt [n] below the limit before it starts attempt [n + 1]. *)
Theorem retry_delay_schedule (m : Manager) (operation : nat -> Completion R)
    (ctx : gmap string JsVal) (w : World) (n : Z) :
  1 <= n ->
  let delay :=
    if Z.eqb n 1 then retryDelay m
    else if exponentialBackoff m then retryDelay m * 2 ^ (n - 1)
    else retryDelay m in
  retryDelayFor m n = delay /\
  (forall (e : JsError) (fuel : nat) (le : option JsError),
     n < maxRetries m ->
     operation (Z.to_nat (n - 1)) = Thrown e ->
     isRetryable e = true ->
     attemptLoop m operation ctx (S fuel) n le w
     = attemptLoop m operation ctx fuel (n + 1) (Some e)
         (sleep delay
            (emit (ConsoleLog (MsgRetry n (maxRetries m) (ctx !! "file") delay)) w))).
Proof.
  intros Hn delay.
  assert (Hd : retryDelayFor m n = delay).
  { unfold retryDelayFor, delay. destruct (Z.eqb_spec n 1) as [-> | Hne].
    - destruct (exponentialBackoff m); [simpl; lia | reflexivity].
    - reflexivity. }
  split; [exact Hd |].
  intros e fuel le Hlt Hop Hre.
  rewrite (attemptLoop_retry m operation ctx _ _ _ _ e Hlt Hop Hre).
  unfold retryStep. now rewrite Hd.
Qed.

End RecoveryClaims.

Section RecoveryRuns.
Import Runtime Recovery Samples.

(** The flaky operation of the unit tests under the test manager. *)
Lemma processWithRecovery_logs_once_witness :
  exists w',
    processWithRecovery testManager flakyOperation testContext freshWorld
    = Some (Returned (mkRecoveryResult true (Some "success") None 3), w') /\
    errors w' = errors freshWorld /\ errorLog w' = errorLog freshWorld.
Proof.
  apply (proj2 (proj2 (proj2 (proj2
           (processWithRecovery_logs_once testManager flakyOperation
              testContext freshWorld)))) busyError busyError "success").
  - simpl. lia.
  - reflexivity.
  - reflexivity.
  - reflexivity.
  - reflexivity.
  - reflexivity.
Defined.

(** The always-failing operation of the unit tests: one entry. *)
Example processWithRecovery_timeout_logs_one :
  exists c w',
    processWithRecovery testManager alwaysTimeout testContext freshWorld
    = Some (c, w') /\
    isSuccess c = false /\ List.length (errors w') = 1%nat /\
    (List.length <$> errorLog w') = Some 1%nat.
Proof. vm_compute. eexists _, _. repeat split. Qed.

(** A non-retryable error on the first attempt. *)
Lemma processWithRecovery_terminal_failure_witness :
  processWithRecovery testManager alwaysInvalid testContext freshWorld
  = Some (Returned (mkRecoveryResult false None (Some formatError) 1),
          ErrorLogger.log (Some (JsStr "test.png")) formatError
            (<["attempt" := JsNum 1]> testContext) freshWorld).
Proof.
  apply (proj1 (processWithRecovery_terminal_failure testManager alwaysInvalid
                  testContext freshWorld 1 formatError
                  ltac:(simpl; lia)
                  ltac:(intros j Hj; lia)
                  eq_refl
                  (or_introl eq_refl))).
Defined.

(** The first retry of the always-failing operation sleeps 50 ms. *)
Lemma retry_delay_schedule_witness :
  retryDelayFor testManager 1 = 50.
Proof.
  apply (proj1 (retry_delay_schedule testManager alwaysTimeout testContext
                  freshWorld 1 ltac:(lia))).
Defined.

(** The runs of the unit tests: retry delay 50 ms, three attempts, an
    operation that always times out. *)
Example backoff_runs :
  (forall c w',
     processWithRecovery testManager alwaysTimeout testContext freshWorld
     = Some (c, w') ->
     sleptIn (trace w') = [50; 100] /\ now w' = 150 /\
     c = Returned (mkRecoveryResult false None (Some timeoutError) 3) /\
     List.length (errors w') = 1%nat) /\
  (forall c w',
     processWithRecovery
       (mkManager true 3 50 false) alwaysTimeout testContext freshWorld
     = Some (c, w') ->
     sleptIn (trace w') = [50; 50] /\ now w' = 100).
Proof.
  split; intros c w' H; vm_compute in H; injection H as <- <-;
    repeat split; reflexivity.
Qed.

End RecoveryRuns.

(** ** The batch loop *)

Section BatchLoop.
Import Runtime Recovery App.

Variable app : App.
Variable opts : RunOptions.

Lemma optimizedFiles_app (t1 t2 : list Event) :
  optimizedFiles (t1 ++ t2) = optimizedFiles t1 ++ optimizedFiles t2.
Proof. apply omap_app. Qed.

(** One pass of the loop: the file is handed to the optimizer once; the
    pass continues unless the run stops on errors; the error counter
    grows exactly for the outcomes that count as errors, and never
    without a line in the error log. *)
Lemma processOne_facts (i : nat) (f : string) (stats : Stats) (w : World) :
  exists stats' w' ab,
    processOne app opts i f stats w = (stats', w', ab) /\
    optimizedFiles (trace w') = optimizedFiles (trace w) ++ [f] /\
    (continueOnError opts = true -> ab = None) /\
    (ab = None ->
     errors stats' = errors stats + Z.b2z (countsAsError (outcomeOf app opts f))) /\
    errors stats <= errors stats' /\
    (errors stats < errors stats' -> exists l e, errorLog w' = Some (l ++ [e])) /\
    (errors stats' = errors stats -> errorLog w' = errorLog w).
Proof.
  unfold processOne, outcomeOf, catchInLoop.
  destruct (optimizer app _ f _) as [r | e]; [destruct r |];
    destruct (continueOnError opts) eqn:Hc;
    destruct (Nat.eqb (i mod 10) 0);
    cbn -[Z.add List.app String.append];
    eexists _, _, _; (split; [reflexivity |]);
    cbn -[Z.add List.app String.append];
    (split;
     [rewrite !optimizedFiles_app; cbn; rewrite ?app_nil_r, <- ?app_assoc; reflexivity |]);
    (split; [intros H; first [reflexivity | discriminate H] |]);
    (split; [intros H; first [discriminate H | lia] |]);
    (split; [lia |]);
    (split; [intros H; first [lia | eexists _, _; reflexivity]
            | intros H; first [reflexivity | lia]]).
Qed.

Lemma errorCount_cons (f : string) (rest : list string) :
  errorCount app opts (f :: rest)
  = Z.b2z (countsAsError (outcomeOf app opts f)) + errorCount app opts rest.
Proof.
  unfold errorCount. simpl.
  destruct (countsAsError (outcomeOf app opts f)); simpl List.length; simpl Z.b2z; lia.
Qed.

(** The loop over a list of files. *)
Lemma processFiles_facts (l : list string) (i : nat) (stats : Stats) (w : World) :
  exists stats' w' ab,
    processFiles app opts l i stats w = (stats', w', ab) /\
    (exists visited,
       optimizedFiles (trace w') = optimizedFiles (trace w) ++ visited /\
       visited `prefix_of` l /\
       (ab = None -> visited = l)) /\
    (continueOnError opts = true -> ab = None) /\
    (ab = None -> errors stats' = errors stats + errorCount app opts l) /\
    errors stats <= errors stats' /\
    (errors stats < errors stats' -> exists es e, errorLog w' = Some (es ++ [e])) /\
    (errors stats' = errors stats -> errorLog w' = errorLog w).
Proof.
  revert i stats w. induction l as [|f rest IH]; intros i stats w.
  - exists stats, w, None. simpl. split; [reflexivity |].
    split; [exists []; rewrite app_nil_r; repeat split; apply prefix_nil |].
    unfold errorCount. simpl. repeat split; try lia; try reflexivity.
  - destruct (processOne_facts i f stats w)
      as (s1 & w1 & ab1 & E1 & T1 & C1 & N1 & L1 & G1 & U1).
    simpl. rewrite E1. destruct ab1 as [e|].
    + exists s1, w1, (Some e). split; [reflexivity |].
      split; [exists [f]; split; [exact T1 |]; split;
              [now exists rest | discriminate] |].
      split; [intros Hc; now specialize (C1 Hc) |].
      split; [discriminate |]. now repeat split.
    + destruct (IH (S i) s1 w1)
        as (s2 & w2 & ab2 & E2 & (visited & T2 & P2 & V2) & C2 & N2 & L2 & G2 & U2).
      exists s2, w2, ab2. split; [exact E2 |].
      split.
      { exists (f :: visited). split; [|split].
        - rewrite T2, T1, <- app_assoc. reflexivity.
        - now apply prefix_cons.
        - intros Hab. now rewrite (V2 Hab). }
      split; [exact C2 |].
      split.
      { intros Hab. rewrite (N2 Hab), (N1 eq_refl), errorCount_cons. lia. }
      split; [lia |].
      split.
      * intros Hlt. destruct (Z.eq_dec (errors s2) (errors s1)) as [Heq | Hne].
        -- rewrite (U2 Heq). apply G1. lia.
        -- apply G2. lia.
      * intros Heq. rewrite U2 by lia. apply U1. lia.
Qed.

Lemma loadState_valid (s : SavedState) (w : World) :
  stateFile w = Some (Json s) ->
  version s = Some "1.0" ->
  exists w',
    loadState w = (Some s, w') /\
    trace w' = trace w /\ errorLog w' = errorLog w /\ stateFile w' = stateFile w.
Proof.
  intros Hf Hv. unfold loadState, StatePersistence.load. rewrite Hf, Hv.
  change (negb (String.eqb "1.0" "1.0")) with false. cbv beta iota.
  destruct (files s) as [fl|]; [destruct (filesProcessed fl) |];
    eexists; (split; [reflexivity |]); repeat split; exact Hf.
Qed.

(** The start index read from a checkpoint of the current format. *)
Lemma savedStartIndex_progress (s : SavedState) (k : Z) :
  truthyNum (checkpoint s ≫= processedCount) = false ->
  progress s ≫= progressProcessed = Some k ->
  savedStartIndex s = k.
Proof.
  intros Hc Hp. unfold savedStartIndex. rewrite Hc, Hp. simpl.
  destruct (Z.eqb_spec k 0) as [-> | Hne]; reflexivity.
Qed.

Lemma slice_nonneg (l : list string) (k : Z) :
  0 <= k -> slice l k = drop (Z.to_nat k) l.
Proof.
  intros Hk. unfold slice.
  now replace (k <? 0) with false by (symmetry; apply Z.ltb_ge; lia).
Qed.

(** A checkpoint written by [saveState] has the current format: the
    version the loader accepts, no legacy checkpoint object, and the size of
    the ledger as [progress.processed]. *)
Lemma saveState_format (arg : SaveArg) (w : World) :
  exists s,
    stateFile (saveState arg w) = Some (Json s) /\
    version s = Some "1.0" /\
    checkpoint s = None /\
    progress s ≫= progressProcessed
    = Some (Z.of_nat (List.length (processedFiles w))).
Proof. eexists. repeat split. Qed.

End BatchLoop.

Section BatchClaims.
Import Runtime Recovery App.

Lemma optimizedFiles_emit_other (ev : Event) (w : World) :
  (forall p f, ev <> OptimizeCalled p f) ->
  optimizedFiles (trace (emit ev w)) = optimizedFiles (trace w).
Proof.
  intros H. simpl. rewrite optimizedFiles_app. simpl.
  destruct ev; try (now rewrite app_nil_r). now destruct (H inputPath f).
Qed.

Lemma fatal_facts (e : JsError) (w : World) :
  fst (fatal e w) = Thrown e /\
  optimizedFiles (trace (snd (fatal e w))) = optimizedFiles (trace w).
Proof.
  split; [reflexivity |].
  unfold fatal, logError, ErrorLogger.log. cbn [snd trace withErrorLog withErrors].
  now rewrite !optimizedFiles_emit_other by discriminate.
Qed.

Lemma finish_trace (stats : Stats) (w : World) :
  optimizedFiles
    (trace (if Z.eqb (errors stats) 0 then clearState (emit ProgressFinish w)
            else saveState loopSaveArg (emit ProgressFinish w)))
  = optimizedFiles (trace w).
Proof.
  destruct (Z.eqb (errors stats) 0);
    [change (trace (clearState (emit ProgressFinish w)))
       with (trace (emit ProgressFinish w))
    |change (trace (saveState loopSaveArg (emit ProgressFinish w)))
       with (trace (emit ProgressFinish w))];
    now rewrite optimizedFiles_emit_other by discriminate.
Qed.

(** C5: a run started with the resume flag over a loadable checkpoint
    (version 1.0, no count in the legacy [checkpoint] object, which
    [saveState] never writes) whose [progress.processed] is [k] selects for
    processing exactly the files at indices k .. n-1 of the current
    enumeration; the files handed to the optimizer are a leading part of
    that selection, in order, so the k leading files are never touched;
    they are the whole selection whenever the run returns, which it does
    whenever it continues on errors. *)
Theorem resume_skips_processed_prefix (app : App) (env : Environment)
    (opts : RunOptions) (w : World) (found : list string) (s : SavedState) (k : Z) :
  mkdirOutput env = Returned tt ->
  imageFiles env = Returned found ->
  resumeFlag opts = true ->
  stateFile w = Some (Json s) ->
  version s = Some "1.0" ->
  truthyNum (checkpoint s ≫= processedCount) = false ->
  progress s ≫= progressProcessed = Some k ->
  0 <= k ->
  slice found (startIndexOf opts (Some s)) = drop (Z.to_nat k) found /\
  (forall i : nat, drop (Z.to_nat k) found !! i = found !! (Z.to_nat k + i)%nat) /\
  exists visited,
    optimizedFiles (trace (snd (processImages app env opts w)))
    = optimizedFiles (trace w) ++ visited /\
    visited `prefix_of` drop (Z.to_nat k) found /\
    ((exists stats, fst (processImages app env opts w) = Returned stats) ->
     visited = drop (Z.to_nat k) found) /\
    (continueOnError opts = true ->
     exists stats, fst (processImages app env opts w) = Returned stats).
Proof.
  intros Hmk Hfiles Hres Hsf Hv Hc Hp Hk.
  assert (Hstart : startIndexOf opts (Some s) = k).
  { unfold startIndexOf. rewrite Hres. now apply savedStartIndex_progress. }
  split; [rewrite Hstart; now apply slice_nonneg |].
  split; [intros i; apply lookup_drop |].
  unfold processImages. rewrite Hmk, Hfiles.
  destruct (Nat.eqb (List.length found) 0) eqn:El.
  - apply Nat.eqb_eq in El. destruct found; [|discriminate].
    exists []. rewrite drop_nil. cbn [snd fst].
    rewrite optimizedFiles_emit_other by discriminate.
    rewrite app_nil_r. repeat split; eauto. 
  - destruct (pullLfs opts), (forceReprocess opts);
    match goal with |- context [loadState ?x] =>
      destruct (loadState_valid s x Hsf Hv) as (w6 & Hload & Ht6 & _ & _);
      rewrite Hload
    end;
    cbv beta iota zeta; rewrite Hstart, (slice_nonneg _ _ Hk);
    match goal with |- context [processFiles app opts ?l ?i ?st ?x] =>
      destruct (processFiles_facts app opts l i st x)
        as (s2 & w8 & ab & E & (visited & T & P & V) & C & _);
      rewrite E
    end;
    lazymatch type of T with _ = optimizedFiles (trace ?x) ++ _ =>
      assert (T7 : optimizedFiles (trace x) = optimizedFiles (trace w))
        by (destruct (0 <? k);
            [rewrite optimizedFiles_emit_other by discriminate |];
            rewrite Ht6; now rewrite !optimizedFiles_emit_other by discriminate);
      rewrite T7 in T
    end;
    exists visited;
    (destruct ab as [e|];
     [destruct (fatal_facts e w8) as [F1 F2]; rewrite F1, F2
     |cbn [fst snd]; rewrite finish_trace]);
    (split; [exact T |]); (split; [exact P |]);
    (split; [intros [st Hst]; first [discriminate Hst | now apply V] |]);
    intros Hcont; first [now specialize (C Hcont) | now exists s2].
Qed.

Lemma loadState_facts (w : World) :
  optimizedFiles (trace (snd (loadState w))) = optimizedFiles (trace w) /\
  errorLog (snd (loadState w)) = errorLog w.
Proof.
  unfold loadState, StatePersistence.load.
  destruct (stateFile w) as [[s|]|]; cbn [snd].
  - destruct (negb match version s with Some v => String.eqb v "1.0" | None => false end);
      cbn [snd].
    + split; [now rewrite optimizedFiles_emit_other by discriminate | reflexivity].
    + destruct (files s) as [fl|]; [destruct (filesProcessed fl) |];
        split; reflexivity.
  - split; [now rewrite optimizedFiles_emit_other by discriminate | reflexivity].
  - split; reflexivity.
Qed.

(** C6, as the code has it: a run over a non-empty enumeration that
    returns has counted in [stats.errors] exactly the handled files whose
    optimizer call answered 'error' or was rejected ('lfs-error' answers
    are tallied apart and do not count).  When that count is zero the
    checkpoint file and the error log are deleted and the error list and
    the ledger are emptied; when it is not zero the checkpoint file is
    written and the error log, with at least the line of the last
    failure, stays. *)
Theorem completed_run_clears_iff_no_errors (app : App) (env : Environment)
    (opts : RunOptions) (w w' : World) (found : list string) (stats : Stats) :
  mkdirOutput env = Returned tt ->
  imageFiles env = Returned found ->
  found <> [] ->
  processImages app env opts w = (Returned stats, w') ->
  (exists handled,
     optimizedFiles (trace w') = optimizedFiles (trace w) ++ handled /\
     errors stats = errorCount app opts handled) /\
  (errors stats = 0 ->
   stateFile w' = None /\ errorLog w' = None /\
   Runtime.errors w' = [] /\ processedFiles w' = []) /\
  (errors stats <> 0 ->
   (exists s', stateFile w' = Some (Json s')) /\
   (exists es e, errorLog w' = Some (es ++ [e]))).
Proof.
  intros Hmk Hfiles Hne. unfold processImages. rewrite Hmk, Hfiles.
  destruct found as [|f0 rest]; [congruence |]. cbn [List.length Nat.eqb].
  destruct (pullLfs opts), (forceReprocess opts);
    match goal with |- context [loadState ?x] =>
      destruct (loadState_facts x) as [Ht6 _];
      destruct (loadState x) as [saved w6]
    end;
    cbv beta iota zeta;
    match goal with |- context [processFiles app opts ?l ?i ?st ?x] =>
      destruct (processFiles_facts app opts l i st x)
        as (s2 & w8 & ab & E & (visited & T & P & V) & C & N & L & G & U);
      rewrite E
    end;
    (destruct ab as [e|]; [intros H; unfold fatal in H; discriminate H |]);
    intros [= <- <-];
    cbn [snd] in Ht6;
    lazymatch type of T with _ = optimizedFiles (trace ?x) ++ _ =>
      assert (T7 : optimizedFiles (trace x) = optimizedFiles (trace w))
        by (destruct (0 <? startIndexOf opts saved);
            [rewrite optimizedFiles_emit_other by discriminate |];
            rewrite Ht6; now rewrite !optimizedFiles_emit_other by discriminate);
      rewrite T7 in T
    end;
    change (errors zeroStats) with 0 in *;
    (split;
     [exists visited; split;
      [now rewrite finish_trace | rewrite (V eq_refl), (N eq_refl); lia] |]);
    (split;
     [intros H0; rewrite (proj2 (Z.eqb_eq _ _) H0); repeat split
     |intros Hn0; rewrite (proj2 (Z.eqb_neq _ _) Hn0);
      split; [eexists; reflexivity | apply G; lia]]).
Qed.

(** The resume case of the specification: ten files, five processed. *)
Lemma resume_skips_processed_prefix_witness :
  slice Samples.tenFiles (startIndexOf Samples.resumeOptions
                            (Some Samples.checkpointAtFive))
  = drop (Z.to_nat 5) Samples.tenFiles.
Proof.
  apply (proj1 (resume_skips_processed_prefix
                  (Samples.appAnswering (Returned ResProcessed))
                  (Samples.envWith Samples.tenFiles) Samples.resumeOptions
                  Samples.interruptedWorld Samples.tenFiles
                  Samples.checkpointAtFive 5
                  eq_refl eq_refl eq_refl eq_refl eq_refl eq_refl eq_refl
                  ltac:(lia))).
Defined.

Example resume_ten_files :
  optimizedFiles
    (trace (snd (processImages (Samples.appAnswering (Returned ResProcessed))
                   (Samples.envWith Samples.tenFiles) Samples.resumeOptions
                   Samples.interruptedWorld)))
  = ["image5.png"; "image6.png"; "image7.png"; "image8.png"; "image9.png"].
Proof. vm_compute. reflexivity. Qed.

(** Two files that both end as 'error', continuing on errors. *)
Lemma completed_run_clears_iff_no_errors_witness :
  (exists s', stateFile (snd Samples.twoErrorsRun) = Some (Json s')) /\
  (exists es e, errorLog (snd Samples.twoErrorsRun) = Some (es ++ [e])).
Proof.
  refine (proj2 (proj2 (completed_run_clears_iff_no_errors
                  (Samples.appAnswering (Returned ResError))
                  (Samples.envWith ["a.png"; "b.png"]) Samples.plainOptions
                  Samples.freshWorld (snd Samples.twoErrorsRun) ["a.png"; "b.png"]
                  (mkStats 0 0 2 0 0) eq_refl eq_refl _ _)) _).
  - discriminate.
  - vm_compute. reflexivity.
  - simpl. lia.
Defined.

(** C6 as stated fails in both halves.  A run that finds no image files
    returns with zero failures and leaves an existing checkpoint and error
    log in place; a run whose only file ends as 'lfs-error' returns with a
    per-file failure and deletes both. *)
Lemma completed_run_without_files_keeps_checkpoint :
  ~ (forall (app : App) (env : Environment) (opts : RunOptions)
            (w w' : World) (stats : Stats),
       processImages app env opts w = (Returned stats, w') ->
       errors stats = 0 /\ lfsErrors stats = 0 ->
       stateFile w' = None /\ errorLog w' = None) /\
  ~ (forall (app : App) (env : Environment) (opts : RunOptions)
            (w w' : World) (stats : Stats),
       processImages app env opts w = (Returned stats, w') ->
       errors stats <> 0 \/ lfsErrors stats <> 0 ->
       stateFile w' <> None /\ errorLog w' <> None).
Proof.
  split; intros H.
  - destruct (H (Samples.appAnswering (Returned ResProcessed)) (Samples.envWith [])
                Samples.plainOptions Samples.interruptedWorld
                (emit (ConsoleLog MsgNoImages) Samples.interruptedWorld)
                zeroStats eq_refl (conj eq_refl eq_refl)) as [Hs _].
    discriminate Hs.
  - destruct (H (Samples.appAnswering (Returned ResLfsError))
                (Samples.envWith ["a.png"]) Samples.plainOptions
                Samples.interruptedWorld (snd Samples.lfsErrorRun)
                (mkStats 0 0 0 0 1)) as [Hs _].
    + vm_compute. reflexivity.
    + right. simpl. lia.
    + apply Hs. vm_compute. reflexivity.
Qed.

(** A run whose only failure is an 'lfs-error' answer also returns with
    [stats.errors = 0] and deletes the checkpoint and the error log. *)
Example lfs_error_run_clears :
  fst Samples.lfsErrorRun = Returned (mkStats 0 0 0 0 1) /\
  stateFile (snd Samples.lfsErrorRun) = None /\
  errorLog (snd Samples.lfsErrorRun) = None.
Proof. vm_compute. repeat split. Qed.

End BatchClaims.

(** * Further properties of the modelled code *)

(** ** Rule resolution *)

Section Resolution.
Import JsString QualityRules Explain.

Lemma topRule_None (P : Rule -> bool) (l : list Rule) :
  (forall R, In R l -> P R = false) -> topRule P l = None.
Proof.
  induction l as [|a l IH]; intros H; simpl; [reflexivity |].
  rewrite (H a (or_introl eq_refl)). apply IH. intros R HR. apply H. now right.
Qed.

Lemma topRule_is_Some (P : Rule -> bool) (l : list Rule) (A : Rule) :
  In A l -> P A = true -> exists y, topRule P l = Some y.
Proof.
  induction l as [|a l IH]; intros Hin HP; [destruct Hin |].
  simpl. destruct (P a) eqn:Pa.
  - destruct (topRule P l) as [b|]; [destruct (comesBefore b a) |]; eauto.
  - destruct Hin as [-> | Hin]; [congruence | now apply IH].
Qed.

(** The top rule scores at least as high as every rule with [P]. *)
Lemma topRule_max (P : Rule -> bool) (l : list Rule) (y : Rule) :
  topRule P l = Some y ->
  forall R, In R l -> P R = true -> scoreGe y R.
Proof.
  revert y. induction l as [|a l IH]; intros y Hy R HR HP; [destruct HR |].
  simpl in Hy. destruct (P a) eqn:Pa.
  - destruct (topRule P l) as [b|] eqn:Eb.
    + revert Hy. destruct (comesBefore b a) eqn:E; intros [= <-].
      * apply comesBefore_true in E.
        destruct HR as [<- | HR]; [unfold scoreGe; now apply Qlt_le_weak |].
        now apply (IH b eq_refl).
      * apply comesBefore_false in E.
        destruct HR as [<- | HR]; [unfold scoreGe; apply Qle_refl |].
        pose proof (IH b eq_refl R HR HP) as Hb. unfold scoreGe in *.
        eapply Qle_trans; eassumption.
    + injection Hy as <-. destruct HR as [<- | HR]; [unfold scoreGe; apply Qle_refl |].
      destruct (topRule_is_Some P l R HR HP) as [z Hz]. congruence.
  - destruct HR as [<- | HR]; [congruence | now apply (IH y Hy)].
Qed.

Lemma filter_all_false {A} (f : A -> bool) (l : list A) :
  (forall x, In x l -> f x = false) -> List.filter f l = [].
Proof.
  induction l as [|a l IH]; intros H; simpl; [reflexivity |].
  rewrite (H a (or_introl eq_refl)). apply IH. intros x Hx. apply H. now right.
Qed.

Lemma in_sortRulesBySpecificity (l : list Rule) (R : Rule) :
  In R (sortRulesBySpecificity l) <-> In R l.
Proof.
  split; apply Permutation_in;
    [apply sortRulesBySpecificity_perm | symmetry; apply sortRulesBySpecificity_perm].
Qed.

(** X1: When no rule matches the file (in particular with no rules at all) the
    resolved map is the default map, unchanged. *)
Theorem getQualityForImage_no_match (rs : list Rule) (d : Dependencies)
    (p : string) (md : option Metadata) (dq : gmap string Z) :
  (forall R, In R rs -> ruleMatches d R p md = false) ->
  getQualityForImage (newEngine rs d) p md dq = dq.
Proof.
  intros H. unfold getQualityForImage. simpl.
  rewrite filter_all_false; [reflexivity |].
  intros R HR. apply H. now apply in_sortRulesBySpecificity.
Qed.

Lemma getQualityForImage_no_match_witness :
  getQualityForImage (newEngine Samples.nestedRules Samples.tieDeps)
    "random/file.png" None {[ "webp" := 80 ]} = {[ "webp" := 80 ]}.
Proof.
  apply (getQualityForImage_no_match Samples.nestedRules Samples.tieDeps
           "random/file.png" None {[ "webp" := 80 ]}).
  intros R [<- | [<- | []]]; reflexivity.
Defined.

(** X2: The resolved map keeps every default key, takes each of its values
    either from the defaults or from a matching declared rule, and leaves a
    key at its default when no matching rule defines it. *)
Theorem getQualityForImage_keys (rs : list Rule) (d : Dependencies)
    (p : string) (md : option Metadata) (dq : gmap string Z) :
  (forall key, is_Some (dq !! key) ->
               is_Some (getQualityForImage (newEngine rs d) p md dq !! key)) /\
  (forall key v,
     getQualityForImage (newEngine rs d) p md dq !! key = Some v ->
     dq !! key = Some v \/
     exists R, In R rs /\ ruleMatches d R p md = true /\ valueFor key R = Some v) /\
  (forall key,
     (forall R, In R rs -> ruleMatches d R p md = true -> valueFor key R = None) ->
     getQualityForImage (newEngine rs d) p md dq !! key = dq !! key).
Proof.
  repeat split.
  - intros key Hk. rewrite getQualityForImage_lookup.
    destruct (topRule _ rs) as [y|] eqn:E; [|exact Hk].
    apply topRule_Some in E as [_ HP]. apply andb_true_iff in HP as [_ HD].
    unfold definesKey in HD. destruct (valueFor key y); [eauto | discriminate].
  - intros key v. rewrite getQualityForImage_lookup.
    destruct (topRule _ rs) as [y|] eqn:E; [|now left].
    apply topRule_Some in E as [Hin HP]. apply andb_true_iff in HP as [HM _].
    intros Hv. right. now exists y.
  - intros key H. rewrite getQualityForImage_lookup.
    rewrite topRule_None; [reflexivity |].
    intros R HR. destruct (ruleMatches d R p md) eqn:HM; [|reflexivity].
    unfold definesKey. now rewrite (H R HR HM).
Qed.

(** X3: The most specific rule wins: when a matching rule defines a key and
    every other matching rule that defines it scores strictly lower, the
    resolved value of the key is that rule's value, wherever the rule stands
    in the declaration list. *)
Theorem most_specific_rule_wins (rs : list Rule) (d : Dependencies)
    (p : string) (md : option Metadata) (dq : gmap string Z)
    (A : Rule) (key : string) (v : Z) :
  In A rs ->
  ruleMatches d A p md = true ->
  valueFor key A = Some v ->
  (forall R, In R rs -> ruleMatches d R p md = true -> definesKey key R = true ->
             R = A \/ (getSpecificityScore R < getSpecificityScore A)%Q) ->
  getQualityForImage (newEngine rs d) p md dq !! key = Some v.
Proof.
  intros Hin HM HV Hothers. rewrite getQualityForImage_lookup.
  set (P := fun r => ruleMatches d r p md && definesKey key r).
  assert (PA : P A = true) by (unfold P, definesKey; now rewrite HM, HV).
  destruct (topRule_is_Some P rs A Hin PA) as [y Hy]. rewrite Hy.
  pose proof (topRule_max P rs y Hy A Hin PA) as Hmax.
  apply topRule_Some in Hy as [Hyin Py].
  apply andb_true_iff in Py as [My Dy].
  destruct (Hothers y Hyin My Dy) as [-> | Hlt]; [exact HV |].
  unfold scoreGe in Hmax. exfalso. eapply Qlt_not_le; eassumption.
Qed.

Lemma most_specific_rule_wins_witness :
  getQualityForImage (newEngine Samples.nestedRules Samples.tieDeps)
    "assets/images/heroes/banner.png" None {[ "webp" := 80 ]} !! "webp" = Some 90.
Proof.
  apply (most_specific_rule_wins Samples.nestedRules Samples.tieDeps
           "assets/images/heroes/banner.png" None {[ "webp" := 80 ]}
           (QualityRules.mkRule None (Some "assets/images/heroes/") None None None None
              (Some {[ "webp" := 90 ]})) "webp" 90).
  - right. left. reflexivity.
  - reflexivity.
  - vm_compute. reflexivity.
  - intros R [<- | [<- | []]] _ _; [right; vm_compute; reflexivity | now left].
Defined.

(** X4: [sortRulesBySpecificity] rearranges the declared rules without adding
    or dropping one, orders them by descending score, and keeps the rules
    of equal score in their declaration order.  The scores are the
    doubles the code computes, so equal means equal as doubles. *)
Theorem sortRulesBySpecificity_stable_sort (rs : list Rule) :
  Permutation (sortRulesBySpecificity rs) rs /\
  StronglySorted scoreGe (sortRulesBySpecificity rs) /\
  (forall c : Q,
     List.filter (sameScore c) (sortRulesBySpecificity rs)
     = List.filter (sameScore c) rs).
Proof.
  split; [apply sortRulesBySpecificity_perm |].
  split; [apply sortRulesBySpecificity_sorted |].
  intros c. apply sortRulesBySpecificity_stable.
Qed.

End Resolution.

(** ** Size criteria and explanations *)

Section SizeAndExplain.
Import JsString QualityRules Explain.

Lemma bound_test_false (o : option Z) (test : bool) (ok : Z -> Prop) :
  (forall b, o = Some b -> (test = false <-> ok b)) ->
  (truthyNum o && test = false <->
   (forall b, o = Some b -> b <> 0 -> ok b)).
Proof.
  intros H. destruct o as [b|]; simpl.
  - destruct (Z.eqb_spec b 0) as [-> | Hne]; simpl.
    + split; [intros _ b [= <-] Hb; congruence | reflexivity].
    + rewrite (H b eq_refl). split.
      * intros Hok b' [= <-] _. exact Hok.
      * intros Hb. now apply Hb.
  - split; [intros _ b Hb; discriminate | reflexivity].
Qed.

(** X5: A rule without a size bound accepts any metadata, a rule with one
    rejects a file without metadata, and with metadata it matches exactly
    when every non-zero bound holds for the width and the height, a missing
    dimension counting as 0 (so a bare upper bound accepts it). *)
Theorem checkSizeRule_spec (rule : Rule) :
  (hasSizeRule rule = false -> forall md, checkSizeRule rule md = true) /\
  (hasSizeRule rule = true ->
   checkSizeRule rule None = false /\
   forall m : Metadata,
     checkSizeRule rule (Some m) = true <->
     (forall b, minWidth rule = Some b -> b <> 0 -> b <= orZero (width m)) /\
     (forall b, minHeight rule = Some b -> b <> 0 -> b <= orZero (height m)) /\
     (forall b, maxWidth rule = Some b -> b <> 0 -> orZero (width m) <= b) /\
     (forall b, maxHeight rule = Some b -> b <> 0 -> orZero (height m) <= b)).
Proof.
  unfold checkSizeRule. split; [now intros -> | intros ->].
  split; [reflexivity |]. intros m. simpl negb. cbv iota.
  rewrite <- (bound_test_false (minWidth rule)
                (orZero (width m) <? orZero (minWidth rule))
                (fun b => b <= orZero (width m)))
    by (intros b ->; simpl; rewrite Z.ltb_ge; reflexivity).
  rewrite <- (bound_test_false (minHeight rule)
                (orZero (height m) <? orZero (minHeight rule))
                (fun b => b <= orZero (height m)))
    by (intros b ->; simpl; rewrite Z.ltb_ge; reflexivity).
  rewrite <- (bound_test_false (maxWidth rule)
                (orZero (maxWidth rule) <? orZero (width m))
                (fun b => orZero (width m) <= b))
    by (intros b ->; simpl; rewrite Z.ltb_ge; reflexivity).
  rewrite <- (bound_test_false (maxHeight rule)
                (orZero (maxHeight rule) <? orZero (height m))
                (fun b => orZero (height m) <= b))
    by (intros b ->; simpl; rewrite Z.ltb_ge; reflexivity).
  destruct (truthyNum (minWidth rule) && _); [intuition discriminate |].
  destruct (truthyNum (minHeight rule) && _); [intuition discriminate |].
  destruct (truthyNum (maxWidth rule) && _); [intuition discriminate |].
  destruct (truthyNum (maxHeight rule) && _); [intuition discriminate |].
  tauto.
Qed.

(** A bare upper bound accepts metadata without dimensions. *)
Lemma checkSizeRule_spec_witness :
  checkSizeRule Cases.thumbnailRule None = false /\
  checkSizeRule Cases.thumbnailRule (Some Cases.blankMetadata) = true.
Proof.
  destruct (proj2 (checkSizeRule_spec Cases.thumbnailRule) eq_refl) as [H0 H].
  split; [exact H0 |]. apply H. simpl.
  repeat split; intros b Hb; inversion Hb; lia.
Defined.

Lemma StronglySorted_filter {A} (R : A -> A -> Prop) (f : A -> bool) (l : list A) :
  StronglySorted R l -> StronglySorted R (List.filter f l).
Proof.
  induction 1 as [|a l Hs IH Ha]; simpl; [constructor |].
  destruct (f a); [|exact IH].
  constructor; [exact IH |].
  rewrite Forall_forall in *. intros x Hx.
  apply Ha. apply list_elem_of_In. apply list_elem_of_In in Hx.
  apply filter_In in Hx. tauto.
Qed.

Lemma StronglySorted_map {A B} (R : A -> A -> Prop) (S : B -> B -> Prop)
    (g : A -> B) (l : list A) :
  (forall x y, R x y -> S (g x) (g y)) ->
  StronglySorted R l -> StronglySorted S (List.map g l).
Proof.
  intros H. induction 1 as [|a l Hs IH Ha]; simpl; constructor; [exact IH |].
  apply Forall_map. eapply Forall_impl; [exact Ha |]. intros x. apply H.
Qed.

Lemma Permutation_list_filter {A} (f : A -> bool) (l l' : list A) :
  Permutation l l' -> Permutation (List.filter f l) (List.filter f l').
Proof.
  induction 1 as [|a l l' H IH|a b l|l l' l'' H1 IH1 H2 IH2]; simpl.
  - constructor.
  - destruct (f a); [now constructor | exact IH].
  - destruct (f a), (f b); try reflexivity. apply perm_swap.
  - now transitivity (List.filter f l').
Qed.

(** X6: [explainMatch] lists one explanation per matching declared rule, the
    most specific first. *)
Theorem explainMatch_most_specific_first (rs : list Rule) (d : Dependencies)
    (p : string) (md : option Metadata) :
  StronglySorted (fun x y => (specificity y <= specificity x)%Q)
    (explainMatch (newEngine rs d) p md) /\
  Permutation (explainMatch (newEngine rs d) p md)
    (List.map explainRule (List.filter (fun r => ruleMatches d r p md) rs)).
Proof.
  unfold explainMatch. simpl. split.
  - apply (StronglySorted_map scoreGe); [intros x y H; exact H |].
    apply StronglySorted_filter, sortRulesBySpecificity_sorted.
  - apply Permutation_map. apply Permutation_list_filter.
    apply sortRulesBySpecificity_perm.
Qed.

(** X7: The first rule [explainMatch] lists wins with its whole quality map:
    every value of that map is the resolved value of its key. *)
Theorem explainMatch_head_wins (rs : list Rule) (d : Dependencies)
    (p : string) (md : option Metadata) (dq : gmap string Z)
    (x : Explanation) (rest : list Explanation) (q : gmap string Z) :
  explainMatch (newEngine rs d) p md = x :: rest ->
  explainedQuality x = Some q ->
  forall key v, q !! key = Some v ->
    getQualityForImage (newEngine rs d) p md dq !! key = Some v.
Proof.
  unfold explainMatch, getQualityForImage. simpl.
  destruct (List.filter _ (sortRulesBySpecificity rs)) as [|r l]; [discriminate |].
  simpl. intros [= <- _] Hq key v Hv. simpl in Hq.
  rewrite fold_left_app. simpl. unfold applyRule at 1. rewrite Hq.
  now apply lookup_union_Some_l.
Qed.

Lemma explainMatch_head_wins_witness :
  getQualityForImage (newEngine Samples.nestedRules Samples.tieDeps)
    "assets/images/heroes/banner.png" None {[ "webp" := 80 ]} !! "webp" = Some 90.
Proof.
  refine (explainMatch_head_wins Samples.nestedRules Samples.tieDeps
            "assets/images/heroes/banner.png" None {[ "webp" := 80 ]}
            _ _ {[ "webp" := 90 ]} _ _ "webp" 90 _).
  - vm_compute. reflexivity.
  - reflexivity.
  - vm_compute. reflexivity.
Defined.

End SizeAndExplain.

(** ** The order of outputs, LFS pointers and the outcome of processing *)

Section OptimizerFacts.
Import Optimizer.

(** X8: The answer of [shouldProcess] does not depend on the order in which
    the output paths are listed, and listing more outputs never turns a
    needed run into a skip. *)
Theorem shouldProcess_order_independent (fileStats : Timestamp.FileStats)
    (inputPath : string) (l l' : list string) (force : bool) :
  Permutation l l' ->
  Timestamp.shouldProcess fileStats inputPath l force
  = Timestamp.shouldProcess fileStats inputPath l' force /\
  (forall more,
     Timestamp.shouldProcess fileStats inputPath l force = true ->
     Timestamp.shouldProcess fileStats inputPath (l ++ more) force = true).
Proof.
  intros Hperm. unfold Timestamp.shouldProcess.
  destruct force; [split; [reflexivity | intros; reflexivity] |].
  destruct (Timestamp.getModTime fileStats inputPath) as [tin|];
    [|split; [reflexivity | intros; assumption]].
  split.
  - apply eq_true_iff_eq. rewrite !outputsNeedWork_true.
    split; intros (o & Hin & H); exists o; (split; [|exact H]);
      [eapply Permutation_in; [exact Hperm | exact Hin]
      |eapply Permutation_in; [symmetry; exact Hperm | exact Hin]].
  - intros more. rewrite !outputsNeedWork_true.
    intros (o & Hin & H). exists o. split; [apply in_or_app; now left | exact H].
Qed.

Lemma shouldProcess_order_independent_witness :
  Timestamp.shouldProcess Samples.equalStats "in.png" ["missing.avif"; "out.webp"] false
  = Timestamp.shouldProcess Samples.equalStats "in.png" ["out.webp"; "missing.avif"] false.
Proof.
  apply (proj1 (shouldProcess_order_independent Samples.equalStats "in.png"
                  ["missing.avif"; "out.webp"] ["out.webp"; "missing.avif"] false
                  (perm_swap _ _ _))).
Defined.

(** The [try] block answers 'processed' or 'error', nothing else. *)
Lemma processFile_result (c : Collaborators) (cfg : Config)
    (inputPath filename : string) (w : World) :
  fst (processFile c cfg inputPath filename w) = ResProcessed \/
  fst (processFile c cfg inputPath filename w) = ResError.
Proof.
  unfold processFile.
  destruct (mkdir c _ (fs w)) as [[[]|e] fs1]; [|now right].
  destruct (String.eqb _ ".gif").
  - destruct (copyFile c _ _ _) as [[[]|e] fs2]; [now left | now right].
  - destruct (generateConfigs c filename) as [|first rest]; [now left |].
    destruct (mkdir c _ _) as [[[]|e] fs2]; [|now right].
    destruct (processImage c _ _ _) as [[results|e] fs3]; [|now right].
    destruct (List.filter _ results); [now left | now right].
Qed.

(** X9: A file that is an LFS pointer ends as 'lfs-pointer' exactly when no
    pull was asked for, and then nothing is touched, forced or not.  With
    a pull it ends as 'lfs-error' unless the pull command succeeded and the
    file is no longer a pointer afterwards. *)
Theorem optimizeImage_lfs_pointer (c : Collaborators) (cfg : Config)
    (inputPath filename : string) (options : Options) (w : World) :
  isGitLfsPointer (fs w) inputPath = true ->
  (pullLfs options = false ->
   optimizeImage c cfg inputPath filename options w
   = (ResLfsPointer, emit (LogSkipPointer filename) w)) /\
  (pullLfs options = true ->
   fst (optimizeImage c cfg inputPath filename options w) <> ResLfsPointer /\
   (fst (optimizeImage c cfg inputPath filename options w) <> ResLfsError ->
    exists fs',
      execLfsPull c inputPath (fs w) = (Returned tt, fs') /\
      isGitLfsPointer fs' inputPath = false)).
Proof.
  intros Hp. unfold optimizeImage. rewrite Hp. split; intros ->; [reflexivity |].
  unfold pullFile. cbn [fs emit].
  destruct (execLfsPull c inputPath (fs w)) as [[[]|e] fs'] eqn:E; cbn [fs withFs].
  - destruct (isGitLfsPointer fs' inputPath) eqn:Hp'.
    + cbn [fst]. split; [discriminate | intros H; now destruct H].
    + split.
      * destruct (negb _); cbn [fst]; [discriminate |].
        match goal with |- fst (processFile ?a ?b ?x ?y ?z) <> _ =>
          destruct (processFile_result a b x y z) as [-> | ->]; discriminate
        end.
      * intros _. now exists fs'.
  - cbn [fst]. split; [discriminate | intros H; now destruct H].
Qed.

Lemma optimizeImage_lfs_pointer_witness :
  optimizeImage Samples.idleCollaborators Samples.defaultConfig
    "original/a.png" "a.png" (mkOptions true false) OptimizerCases.pointerWorld
  = (ResLfsPointer, emit (LogSkipPointer "a.png") OptimizerCases.pointerWorld).
Proof.
  apply (proj1 (optimizeImage_lfs_pointer Samples.idleCollaborators
                  Samples.defaultConfig "original/a.png" "a.png"
                  (mkOptions true false) OptimizerCases.pointerWorld
                  ltac:(vm_compute; reflexivity))).
  reflexivity.
Defined.

(** X10: For a regular file whose input exists, without force: the file is
    skipped, with nothing touched, exactly when every configured output
    exists and is not older than the input; otherwise it is processed and
    the answer is 'processed' or 'error'. *)
Theorem optimizeImage_skips_iff_up_to_date (c : Collaborators) (cfg : Config)
    (inputPath filename : string) (options : Options) (w : World)
    (input : FileNode) :
  isGitLfsPointer (fs w) inputPath = false ->
  forceReprocess options = false ->
  fs w !! inputPath = Some input ->
  let fresh :=
    forall o, In o (List.map snd (generateConfiguredPaths c cfg filename)) ->
              exists n, fs w !! o = Some n /\ mtime input <= mtime n in
  (fresh ->
   optimizeImage c cfg inputPath filename options w
   = (ResSkipped, emit (LogUpToDate filename) w)) /\
  (fst (optimizeImage c cfg inputPath filename options w) = ResSkipped -> fresh) /\
  (~ fresh ->
   optimizeImage c cfg inputPath filename options w
   = processFile c cfg inputPath filename w /\
   (fst (optimizeImage c cfg inputPath filename options w) = ResProcessed \/
    fst (optimizeImage c cfg inputPath filename options w) = ResError)).
Proof.
  intros Hp Hforce Hin fresh.
  assert (Hstat : Timestamp.getModTime (statOf (fs w)) inputPath = Some (mtime input))
    by (unfold Timestamp.getModTime, statOf; now rewrite Hin).
  assert (Hfalse :
            Timestamp.shouldProcess (statOf (fs w)) inputPath
              (List.map snd (generateConfiguredPaths c cfg filename)) false = false <->
            (forall o, In o (List.map snd (generateConfiguredPaths c cfg filename)) ->
               exists t, Timestamp.getModTime (statOf (fs w)) o = Some t /\
                         mtime input <= t))
    by (unfold Timestamp.shouldProcess; rewrite Hstat; apply outputsNeedWork_false).
  assert (Hfresh : Timestamp.shouldProcess (statOf (fs w)) inputPath
                     (List.map snd (generateConfiguredPaths c cfg filename)) false
                   = false <-> fresh).
  { rewrite Hfalse. unfold fresh, Timestamp.getModTime, statOf. split.
    - intros H o Ho. destruct (H o Ho) as [t [Ht Hle]].
      destruct (fs w !! o) as [n|]; [|discriminate].
      injection Ht as <-. now exists n.
    - intros H o Ho. destruct (H o Ho) as [n [Hn Hle]].
      exists (mtime n). now rewrite Hn. }
  unfold optimizeImage. rewrite Hp, Hforce.
  destruct (Timestamp.shouldProcess _ _ _ false) eqn:E; cbn [negb].
  - split; [|split].
    + intros Hf. apply Hfresh in Hf. discriminate.
    + intros Hs. destruct (processFile_result c cfg inputPath filename w) as [H | H];
        rewrite H in Hs; discriminate.
    + intros _. split; [reflexivity |]. apply processFile_result.
  - split; [reflexivity |]. split; [intros _; now apply Hfresh |].
    intros Hn. destruct Hn. now apply Hfresh.
Qed.

Lemma optimizeImage_skips_iff_up_to_date_witness :
  optimizeImage Samples.idleCollaborators Samples.defaultConfig
    "original/a.png" "a.png" (mkOptions false false) OptimizerCases.upToDateWorld
  = (ResSkipped, emit (LogUpToDate "a.png") OptimizerCases.upToDateWorld).
Proof.
  apply (proj1 (optimizeImage_skips_iff_up_to_date Samples.idleCollaborators
                  Samples.defaultConfig "original/a.png" "a.png"
                  (mkOptions false false) OptimizerCases.upToDateWorld
                  OptimizerCases.imageNode
                  ltac:(vm_compute; reflexivity) eq_refl
                  ltac:(vm_compute; reflexivity))).
  intros o [<- | [<- | [<- | [<- | []]]]];
    eexists; (split; [vm_compute; reflexivity | simpl; lia]).
Defined.

(** X11: A forced run of a regular file is always processed: the answer is
    'processed' or 'error', never 'skipped' and never an LFS state. *)
Theorem optimizeImage_forced (c : Collaborators) (cfg : Config)
    (inputPath filename : string) (options : Options) (w : World) :
  isGitLfsPointer (fs w) inputPath = false ->
  forceReprocess options = true ->
  optimizeImage c cfg inputPath filename options w
  = processFile c cfg inputPath filename w /\
  (fst (optimizeImage c cfg inputPath filename options w) = ResProcessed \/
   fst (optimizeImage c cfg inputPath filename options w) = ResError).
Proof.
  intros Hp Hforce.
  assert (E : optimizeImage c cfg inputPath filename options w
              = processFile c cfg inputPath filename w)
    by (unfold optimizeImage, Timestamp.shouldProcess; now rewrite Hp, Hforce).
  split; [exact E |]. rewrite E. apply processFile_result.
Qed.

Lemma optimizeImage_forced_witness :
  fst (optimizeImage OptimizerCases.workingCodec Samples.defaultConfig
         "original/a.png" "a.png" (mkOptions true false)
         OptimizerCases.upToDateWorld) = ResProcessed \/
  fst (optimizeImage OptimizerCases.workingCodec Samples.defaultConfig
         "original/a.png" "a.png" (mkOptions true false)
         OptimizerCases.upToDateWorld) = ResError.
Proof.
  apply (proj2 (optimizeImage_forced OptimizerCases.workingCodec
                  Samples.defaultConfig "original/a.png" "a.png"
                  (mkOptions true false) OptimizerCases.upToDateWorld
                  ltac:(vm_compute; reflexivity) eq_refl)).
Defined.

(** X12: 'processed' is never reported when an output failed: for a file that
    is not a GIF and has at least one processing config, the answer
    'processed' means the codec was invoked once with all the configs and
    every result it returned is a success; a GIF is copied and the codec is
    not invoked. *)
Theorem processFile_processed_means_all_succeeded (c : Collaborators) (cfg : Config)
    (inputPath filename : string) (w w' : World) :
  processFile c cfg inputPath filename w = (ResProcessed, w') ->
  (parseExtLower c filename <> ".gif" ->
   generateConfigs c filename <> [] ->
   exists fsBefore results,
     processImage c inputPath (generateConfigs c filename) fsBefore
     = (Returned results, fs w') /\
     (forall r, In r results -> success r = true) /\
     events w'
     = events w ++ [CodecInvoked inputPath (generateConfigs c filename);
                    LogOptimized filename]) /\
  (parseExtLower c filename = ".gif" ->
   events w' = events w ++ [LogCopied filename]).
Proof.
  unfold processFile.
  destruct (mkdir c _ (fs w)) as [[[]|e] fs1]; [|discriminate].
  destruct (String.eqb_spec (parseExtLower c filename) ".gif") as [Hgif | Hgif].
  - destruct (copyFile c _ _ _) as [[[]|e] fs2]; [|discriminate].
    intros [= <-]. split; [intros H; now destruct H | intros _; reflexivity].
  - destruct (generateConfigs c filename) as [|first rest] eqn:Ec.
    + intros [= <-]. split; [intros _ H; now destruct H | intros H; now destruct Hgif].
    + destruct (mkdir c _ _) as [[[]|e] fs2]; [|discriminate].
      destruct (processImage c _ _ _) as [[results|e] fs3] eqn:Ep; [|discriminate].
      destruct (List.filter _ results) as [|bad bads] eqn:Ef; [|discriminate].
      intros [= <-]. split; [|intros H; now destruct Hgif].
      intros _ _. exists fs2, results. cbn [fs events emit withFs] in *.
      split; [exact Ep |]. split.
      * intros r Hr. destruct (success r) eqn:Hs; [reflexivity |].
        assert (Hin : In r (List.filter (fun r => negb (success r)) results))
          by (apply filter_In; split; [exact Hr | now rewrite Hs]).
        rewrite Ef in Hin. destruct Hin.
      * now rewrite <- app_assoc.
Qed.

Lemma processFile_processed_means_all_succeeded_witness :
  exists fsBefore results,
    processImage OptimizerCases.workingCodec "original/a.png"
      (generateConfigs OptimizerCases.workingCodec "a.png") fsBefore
    = (Returned results,
       fs (snd (processFile OptimizerCases.workingCodec Samples.defaultConfig
                  "original/a.png" "a.png" OptimizerCases.imageWorld))) /\
    (forall r, In r results -> success r = true) /\
    events (snd (processFile OptimizerCases.workingCodec Samples.defaultConfig
                   "original/a.png" "a.png" OptimizerCases.imageWorld))
    = events OptimizerCases.imageWorld
      ++ [CodecInvoked "original/a.png"
            (generateConfigs OptimizerCases.workingCodec "a.png");
          LogOptimized "a.png"].
Proof.
  apply (proj1 (processFile_processed_means_all_succeeded
                  OptimizerCases.workingCodec Samples.defaultConfig
                  "original/a.png" "a.png" OptimizerCases.imageWorld
                  (snd (processFile OptimizerCases.workingCodec Samples.defaultConfig
                          "original/a.png" "a.png" OptimizerCases.imageWorld))
                  eq_refl)); discriminate.
Defined.

End OptimizerFacts.

(** ** The ledger, the checkpoint and the retry loop *)

Section LedgerFacts.
Import Runtime Recovery Ledger.

Lemma mapHas_In k l : mapHas k l = true <-> In k (keys l).
Proof.
  unfold mapHas, keys. rewrite existsb_exists. split.
  - intros [[k' v] [Hin Heq]]. simpl in Heq. apply String.eqb_eq in Heq. subst.
    apply in_map_iff. exists (k', v). auto.
  - intros Hin. apply in_map_iff in Hin. destruct Hin as [[k' v] [Heq Hin]].
    simpl in Heq. subst. exists (k, v). split; [exact Hin|]. simpl. apply String.eqb_refl.
Qed.

Lemma mapSet_new k v l : mapHas k l = false -> mapSet k v l = l ++ [(k, v)].
Proof.
  induction l as [|[k' v'] l IH]; simpl; [reflexivity|].
  unfold mapHas. simpl. intros H. apply orb_false_iff in H. destruct H as [H1 H2].
  rewrite H1. f_equal. apply IH. exact H2.
Qed.

Lemma mapSet_keys_old k v l : mapHas k l = true -> keys (mapSet k v l) = keys l.
Proof.
  induction l as [|[k' v'] l IH]; simpl; [discriminate|].
  unfold mapHas. simpl. destruct (String.eqb k k') eqn:E; simpl.
  - intros _. apply String.eqb_eq in E. subst. reflexivity.
  - intros H. f_equal. apply IH. exact H.
Qed.

Lemma mapHas_mapSet k k' v l :
  mapHas k (mapSet k' v l) = (String.eqb k k' || mapHas k l).
Proof.
  induction l as [|[k2 v2] l IH]; simpl.
  - unfold mapHas. simpl. rewrite orb_false_r. reflexivity.
  - destruct (String.eqb k' k2) eqn:E.
    + apply String.eqb_eq in E. subst. unfold mapHas. simpl.
      destruct (String.eqb k k2); reflexivity.
    + unfold mapHas in *. simpl. rewrite IH.
      destruct (String.eqb k k'), (String.eqb k k2); reflexivity.
Qed.

Lemma mapSet_In k v l : In (k, v) (mapSet k v l).
Proof.
  induction l as [|[k' v'] l IH]; simpl; [auto|].
  destruct (String.eqb k k'); simpl; auto.
Qed.

Lemma mapSet_NoDup k v l : NoDup (keys l) -> NoDup (keys (mapSet k v l)).
Proof.
  intros Hnd. destruct (mapHas k l) eqn:E.
  - rewrite mapSet_keys_old by exact E. exact Hnd.
  - rewrite mapSet_new by exact E. unfold keys. rewrite List.map_app. simpl.
    apply NoDup_app. split; [exact Hnd|]. split.
    + intros x Hx Hx'. apply list_elem_of_singleton in Hx'. subst.
      apply list_elem_of_In in Hx. apply mapHas_In in Hx. congruence.
    + apply NoDup_singleton.
Qed.

(** Loading the entries of a checkpoint into an empty ledger gives these
    entries back, when no path occurs twice. *)
Lemma restore_fresh recs acc :
  NoDup (keys (acc ++ recs)) ->
  List.fold_left (fun a kv => mapSet (fst kv) (snd kv) a) recs acc = acc ++ recs.
Proof.
  revert acc. induction recs as [|[k v] recs IH]; intros acc Hnd; simpl.
  - rewrite app_nil_r. reflexivity.
  - assert (Hnew : mapHas k acc = false).
    { destruct (mapHas k acc) eqn:E; [|reflexivity]. exfalso.
      apply mapHas_In in E. unfold keys in Hnd. rewrite List.map_app in Hnd. simpl in Hnd.
      apply NoDup_app in Hnd. destruct Hnd as (_ & Hd & _).
      apply (Hd k); [apply list_elem_of_In; exact E | left]. }
    rewrite mapSet_new by exact Hnew.
    rewrite IH; rewrite <- app_assoc; simpl; [reflexivity | exact Hnd].
Qed.

(** Loading them into a ledger that already holds them changes nothing. *)
Lemma mapSet_same k v l : In (k, v) l -> NoDup (keys l) -> mapSet k v l = l.
Proof.
  induction l as [|[k' v'] l IH]; simpl; [tauto|].
  intros Hin Hnd. apply NoDup_cons in Hnd. destruct Hnd as [Hk Hnd].
  destruct (String.eqb k k') eqn:E.
  - apply String.eqb_eq in E. subst k'. destruct Hin as [Heq|Hin]; [congruence|].
    exfalso. apply Hk. apply list_elem_of_In. apply in_map_iff. exists (k, v). auto.
  - destruct Hin as [Heq|Hin].
    + injection Heq as -> ->. rewrite String.eqb_refl in E. discriminate.
    + f_equal. apply IH; assumption.
Qed.

Lemma restore_same recs l :
  (forall kv, In kv recs -> In kv l) -> NoDup (keys l) ->
  List.fold_left (fun a kv => mapSet (fst kv) (snd kv) a) recs l = l.
Proof.
  induction recs as [|[k v] recs IH]; intros Hsub Hnd; simpl; [reflexivity|].
  rewrite mapSet_same; [|apply Hsub; left; reflexivity|exact Hnd].
  apply IH; [|exact Hnd]. intros kv H. apply Hsub. right. exact H.
Qed.

(** X13: recordProcessedFile / isFileProcessed.  After a file is recorded
    it is known to the ledger with the recorded result, every other path
    is known exactly when it was before, a path that was already known
    keeps its place (the ledger does not grow), a new one is appended,
    and no path ever occurs twice. *)
Theorem recordProcessedFile_ledger (f : string) (r : LedgerEntry) (w : World) :
  isFileProcessed f (recordProcessedFile f r w) = true /\
  In (f, r) (processedFiles (recordProcessedFile f r w)) /\
  (forall g, g <> f ->
     isFileProcessed g (recordProcessedFile f r w) = isFileProcessed g w) /\
  keys (processedFiles (recordProcessedFile f r w)) =
    (if isFileProcessed f w then keys (processedFiles w)
     else keys (processedFiles w) ++ [f]) /\
  (NoDup (keys (processedFiles w)) ->
   NoDup (keys (processedFiles (recordProcessedFile f r w)))).
Proof.
  unfold isFileProcessed, recordProcessedFile. simpl. repeat split.
  - rewrite mapHas_mapSet, String.eqb_refl. reflexivity.
  - apply mapSet_In.
  - intros g Hg. rewrite mapHas_mapSet.
    apply String.eqb_neq in Hg. rewrite Hg. reflexivity.
  - destruct (mapHas f (processedFiles w)) eqn:E.
    + apply mapSet_keys_old. exact E.
    + rewrite mapSet_new by exact E. unfold keys. rewrite List.map_app. reflexivity.
  - apply mapSet_NoDup.
Qed.

End LedgerFacts.

Section CheckpointFacts.
Import Runtime Recovery Ledger.

(** X14: StatePersistenceManager.load.  A checkpoint is returned exactly
    when the file holds parsable JSON whose version is "1.0"; the file,
    the ledger and the error log are never changed by loading; a file
    that is there but rejected costs exactly one console message, a
    missing file none. *)
Theorem load_accepts_exactly_version_1_0 (w : World) :
  (forall s, fst (StatePersistence.load w) = Some s <->
             stateFile w = Some (Json s) /\ version s = Some "1.0") /\
  stateFile (snd (StatePersistence.load w)) = stateFile w /\
  processedFiles (snd (StatePersistence.load w)) = processedFiles w /\
  errors (snd (StatePersistence.load w)) = errors w /\
  errorLog (snd (StatePersistence.load w)) = errorLog w /\
  (fst (StatePersistence.load w) = None ->
   match stateFile w with
   | None => trace (snd (StatePersistence.load w)) = trace w
   | Some _ => exists ev, trace (snd (StatePersistence.load w)) = trace w ++ [ev]
   end).
Proof.
  unfold StatePersistence.load.
  destruct (stateFile w) as [[s0|]|] eqn:Hf.
  - destruct (version s0) as [v|] eqn:Hv;
      [destruct (String.eqb v "1.0") eqn:E|]; simpl.
    + apply String.eqb_eq in E. subst v.
      split; [|repeat split; try assumption; discriminate].
      intros s. split.
      * intros [= <-]. split; [reflexivity | exact Hv].
      * intros [[= <-] _]. reflexivity.
    + split; [|repeat split; try assumption; intros _; eexists; reflexivity].
      intros s. split; [discriminate|].
      intros [[= <-] Hv']. rewrite Hv in Hv'. injection Hv' as Hv'. subst v.
      cbv in E. discriminate E.
    + split; [|repeat split; try assumption; intros _; eexists; reflexivity].
      intros s. split; [discriminate|]. intros [[= <-] Hv']. congruence.
  - simpl. split; [|repeat split; try assumption; intros _; eexists; reflexivity].
    intros s. split; [discriminate|]. intros [[=] _].
  - simpl. split; [|repeat split; try assumption].
    intros s. split; [discriminate|]. intros [[=] _].
Qed.

(** JSON keeps an entry without an error object as it is. *)
Lemma jsonLedger_plain (l : list (string * LedgerEntry)) :
  plainEntries l -> jsonLedger l = l.
Proof.
  unfold plainEntries, jsonLedger. induction 1 as [|[k r] l Hr _ IH]; [reflexivity|].
  simpl in *. rewrite IH. destruct r as [st er out]. simpl in Hr. subst er.
  reflexivity.
Qed.

(** Writing what was read loses nothing more. *)
Lemma jsonLedger_idempotent (l : list (string * LedgerEntry)) :
  jsonLedger (jsonLedger l) = jsonLedger l.
Proof.
  unfold jsonLedger. rewrite List.map_map. apply List.map_ext.
  intros [k [st [e|] out]]; reflexivity.
Qed.

(** X15: save, load, clear and exists of the StatePersistenceManager, one
    after the other.  What [save] writes is what [load] returns, as far
    as JSON keeps it: the given configuration and progress, the start
    time that was given (the time of the call otherwise), the time of
    the call as last update, and the given files, where every entry
    comes back under its path, in order, with its status and outputs,
    and an [Error] object comes back with its code only, its message and
    stack lost; entries without an error object come back unchanged, and
    writing what was read loses nothing more.  Without given files the
    empty lists are written.  After [clear] nothing can be loaded. *)
Theorem save_load_clear (st : StatePersistence.StateToSave) (w : World) :
  (exists s,
     StatePersistence.load (StatePersistence.save st w)
     = (Some s, StatePersistence.save st w) /\
     configuration s = default ∅ (StatePersistence.argConfiguration st) /\
     (forall p, StatePersistence.argProgress st = Some p -> progress s = Some p) /\
     (forall t, StatePersistence.argStartedAt st = Some t -> startedAt s = Some t) /\
     (StatePersistence.argStartedAt st = None -> startedAt s = Some (now w)) /\
     lastUpdatedAt s = Some (now w) /\
     (StatePersistence.argFiles st = None -> files s = Some (mkFiles (Some []) [])) /\
     (forall f l,
        StatePersistence.argFiles st = Some f -> filesProcessed f = Some l ->
        exists fl l',
          files s = Some fl /\ pending fl = pending f /\
          filesProcessed fl = Some l' /\
          List.map fst l' = List.map fst l /\
          (forall i k r,
             l !! i = Some (k, r) ->
             exists r',
               l' !! i = Some (k, r') /\
               status r' = status r /\ outputs r' = outputs r /\
               match ledgerError r with
               | Some e => ledgerError r' = Some (mkJsError None (code e) None)
               | None => r' = r
               end) /\
          (plainEntries l -> l' = l) /\
          jsonLedger l' = l')) /\
  StatePersistence.exists_ (StatePersistence.save st w) = true /\
  StatePersistence.exists_ (StatePersistence.clear w) = false /\
  StatePersistence.load (StatePersistence.clear (StatePersistence.save st w))
  = (None, StatePersistence.clear w).
Proof.
  split; [|repeat split].
  eexists. split; [reflexivity|]. cbn.
  split; [reflexivity|].
  split; [intros p ->; reflexivity|].
  split; [intros t ->; reflexivity|].
  split; [intros ->; reflexivity|].
  split; [reflexivity|].
  split; [intros ->; reflexivity|].
  intros f l -> Hl. cbn. unfold jsonFiles. rewrite Hl. cbn.
  eexists _, _. split; [reflexivity|]. cbn.
  split; [reflexivity|]. split; [reflexivity|].
  split; [|split; [|split]].
  - unfold jsonLedger. rewrite List.map_map. reflexivity.
  - intros i k r Hi. exists (jsonEntry r). split.
    + unfold jsonLedger. rewrite list_lookup_fmap_Some. exists (k, r). auto.
    + destruct r as [sr [e|] o]; repeat split.
  - apply jsonLedger_plain.
  - apply jsonLedger_idempotent.
Qed.

(** A ledger entry that carries the error Busy with code EBUSY comes
    back from the checkpoint with the code alone. *)
Example error_object_loses_message :
  let entry := mkLedgerEntry (Some "failed") (Some Samples.busyError) None in
  let st := StatePersistence.mkStateToSave None None None
              (Some (mkFiles (Some [("a.png", entry)]) [])) in
  exists s,
    fst (StatePersistence.load (StatePersistence.save st Samples.freshWorld)) = Some s /\
    files s
    = Some (mkFiles
              (Some [("a.png",
                      mkLedgerEntry (Some "failed")
                        (Some (mkJsError None (Some "EBUSY") None)) None)]) []) /\
    files s <> StatePersistence.argFiles st.
Proof.
  eexists. split; [reflexivity|]. split; [reflexivity|]. discriminate.
Qed.




(** X17: saveState followed by loadState.  When no path occurs twice in the
    ledger and no entry carries an error object, a manager that starts
    with an empty ledger gets the saved ledger back from the checkpoint,
    entry for entry and in the same order; the manager that wrote the
    checkpoint keeps its ledger when it loads it; both are handed the
    checkpoint, whose [progress.processed] is the size of the ledger. *)
Theorem saveState_loadState_round_trip (arg : SaveArg) (w : World) :
  NoDup (keys (processedFiles w)) ->
  plainEntries (processedFiles w) ->
  exists s,
    stateFile (saveState arg w) = Some (Json s) /\
    progress s ≫= progressProcessed
    = Some (Z.of_nat (List.length (processedFiles w))) /\
    fst (loadState (restarted (saveState arg w))) = Some s /\
    processedFiles (snd (loadState (restarted (saveState arg w))))
    = processedFiles w /\
    loadState (saveState arg w) = (Some s, saveState arg w).
Proof.
  intros Hnd Hp. eexists. split; [reflexivity|]. split; [reflexivity|].
  unfold loadState, StatePersistence.load.
  cbn -[saveState List.fold_left jsonLedger].
  unfold saveState, StatePersistence.save.
  cbn -[List.fold_left jsonLedger].
  change (negb (String.eqb "1.0" "1.0")) with false. cbv beta iota.
  cbn -[List.fold_left jsonLedger].
  rewrite !(jsonLedger_plain _ Hp).
  split; [reflexivity|]. split.
  - rewrite (restore_fresh (processedFiles w) []); [reflexivity | exact Hnd].
  - rewrite restore_same; [destruct w; reflexivity | auto | exact Hnd].
Qed.

Lemma saveState_loadState_round_trip_witness :
  exists s,
    stateFile (saveState App.loopSaveArg twoFilesWorld) = Some (Json s) /\
    progress s ≫= progressProcessed = Some 2 /\
    fst (loadState (restarted (saveState App.loopSaveArg twoFilesWorld))) = Some s /\
    processedFiles (snd (loadState (restarted (saveState App.loopSaveArg twoFilesWorld))))
    = twoFiles /\
    loadState (saveState App.loopSaveArg twoFilesWorld)
    = (Some s, saveState App.loopSaveArg twoFilesWorld).
Proof.
  apply (saveState_loadState_round_trip App.loopSaveArg twoFilesWorld).
  - change (NoDup ["a.png"; "b.png"]). apply (bool_decide_unpack (NoDup ["a.png"; "b.png"])). vm_compute. exact I.
  - repeat constructor.
Defined.

End CheckpointFacts.

Section RetryFacts.
Import Runtime Recovery Ledger.

Context {R : Type}.
Variable m : Manager.
Variable operation : nat -> Completion R.
Variable ctx : gmap string JsVal.

Lemma retryDelaysFrom_S (a : Z) (k : nat) :
  retryDelaysFrom m a (S k) = retryDelayFor m a :: retryDelaysFrom m (a + 1) k.
Proof.
  unfold retryDelaysFrom. simpl. f_equal; [f_equal; lia|].
  rewrite <- seq_shift, List.map_map. apply List.map_ext.
  intros i. f_equal. lia.
Qed.

Lemma sleptIn_app (t1 t2 : list Event) :
  sleptIn (t1 ++ t2) = sleptIn t1 ++ sleptIn t2.
Proof. apply omap_app. Qed.

Lemma retryDelayFor_nonneg (a : Z) :
  0 <= retryDelay m -> 0 <= retryDelayFor m a.
Proof.
  intros H. unfold retryDelayFor. destruct (exponentialBackoff m); [|exact H].
  apply Z.mul_nonneg_nonneg; [exact H|]. apply Z.pow_nonneg. lia.
Qed.

(** The closed form of the sum of the delays. *)
Lemma totalDelay_from (a : Z) (k : nat) :
  1 <= a ->
  totalDelay (retryDelaysFrom m a k) =
  if exponentialBackoff m
  then retryDelay m * 2 ^ (a - 1) * (2 ^ Z.of_nat k - 1)
  else Z.of_nat k * retryDelay m.
Proof.
  revert a. induction k as [|k IH]; intros a Ha.
  - unfold retryDelaysFrom, totalDelay. simpl.
    destruct (exponentialBackoff m); simpl; lia.
  - rewrite retryDelaysFrom_S. unfold totalDelay in *. simpl List.fold_right.
    rewrite IH by lia. unfold retryDelayFor.
    destruct (exponentialBackoff m).
    + replace (a + 1 - 1) with (Z.succ (a - 1)) by lia.
      rewrite Nat2Z.inj_succ.
      rewrite (Z.pow_succ_r 2 (a - 1)) by lia.
      rewrite (Z.pow_succ_r 2 (Z.of_nat k)) by lia. ring.
    + lia.
Qed.

(** From an attempt within the limit the loop settles after some number
    [k] of retries that stays within the limit; it has slept the delays
    of these retries and nothing else, and a returned record counts
    [k] retries and one more attempt. *)
Lemma attemptLoop_sleeps (n fuel : nat) (a : Z) (le : option JsError) (w : World) :
  1 <= a <= maxRetries m -> maxRetries m - a < Z.of_nat n -> (n <= fuel)%nat ->
  0 <= retryDelay m ->
  exists c w' (k : nat),
    attemptLoop m operation ctx fuel a le w = Some (c, w') /\
    a + Z.of_nat k <= maxRetries m /\
    sleptIn (trace w') = sleptIn (trace w) ++ retryDelaysFrom m a k /\
    now w' = now w + totalDelay (retryDelaysFrom m a k) /\
    (forall r, c = Returned r -> attempts r = a + Z.of_nat k) /\
    (forall i, (i < k)%nat ->
       exists e, operation (Z.to_nat (a - 1) + i)%nat = Thrown e /\ isRetryable e = true).
Proof.
  revert fuel a le w. induction n as [|n IH]; intros fuel a le w Ha Hn Hf Hd; [lia|].
  destruct fuel as [|fuel]; [lia|].
  simpl attemptLoop.
  replace (a <=? maxRetries m) with true by (symmetry; apply Z.leb_le; lia).
  assert (Hzero : forall w0 : World,
            sleptIn (trace w0) = sleptIn (trace w0) ++ retryDelaysFrom m a 0 /\
            now w0 = now w0 + totalDelay (retryDelaysFrom m a 0)).
  { intros w0. unfold retryDelaysFrom, totalDelay. simpl. rewrite app_nil_r. split; [reflexivity | lia]. }
  destruct (operation (Z.to_nat (a - 1))) as [r|e] eqn:Hop.
  - exists (Returned (mkRecoveryResult true (Some r) None a)), w, O.
    split; [reflexivity|]. split; [lia|].
    split; [apply Hzero|]. split; [apply Hzero|].
    split; [intros r0 [= <-]; simpl; lia | intros i Hi; lia].
  - destruct (negb (isRetryable e) || (a =? maxRetries m)) eqn:Hterm.
    + destruct (continueOnError m);
        eexists _, _, O; (split; [reflexivity|]); (split; [lia|]);
        (split; [apply (Hzero w)|]); (split; [apply (Hzero w)|]);
        (split; [intros r0 H; first [discriminate H | injection H as <-; simpl; lia]
                | intros i Hi; lia]).
    + apply orb_false_iff in Hterm. destruct Hterm as [Hretry Hlim].
      apply negb_false_iff in Hretry. apply Z.eqb_neq in Hlim.
      destruct (IH fuel (a + 1) (Some e)
                  (sleep (retryDelayFor m a)
                     (emit (ConsoleLog (MsgRetry a (maxRetries m) (ctx !! "file")
                                          (retryDelayFor m a))) w)))
        as (c & w' & k & E & Hk & Hs & Hnow & Hat & Hops); try lia.
      exists c, w', (S k). split; [exact E|]. split; [lia|].
      rewrite retryDelaysFrom_S. split; [|split; [|split]].
      * rewrite Hs. cbn [trace sleep emit]. rewrite !sleptIn_app. cbn.
        rewrite app_nil_r, <- app_assoc. reflexivity.
      * rewrite Hnow. cbn [now sleep emit]. unfold totalDelay. simpl List.fold_right.
        pose proof (retryDelayFor_nonneg a Hd). lia.
      * intros r0 Hr. rewrite (Hat r0 Hr). lia.
      * intros i Hi. destruct i as [|i].
        -- exists e. rewrite Nat.add_0_r. split; assumption.
        -- destruct (Hops i) as (e' & He' & Hr'); [lia|].
           exists e'. split; [|exact Hr'].
           replace (Z.to_nat (a - 1) + S i)%nat with (Z.to_nat (a + 1 - 1) + i)%nat by lia.
           exact He'.
Qed.

(** X18: processWithRecovery, the retry schedule as a whole.  With a limit
    of at least one attempt and a delay that is not negative, every
    invocation settles after some number [k] of retries below the
    limit; each of the first [k] calls of the operation failed with a
    retryable error; the invocation slept exactly the [k] delays of the
    schedule, one after each of these calls, for a total of
    [retryDelay * (2^k - 1)] milliseconds with exponential backoff and
    [k * retryDelay] without; and a returned record reports [k + 1]
    attempts. *)
Theorem processWithRecovery_sleeps_between_attempts (w : World) :
  1 <= maxRetries m -> 0 <= retryDelay m ->
  exists c w' (k : nat),
    processWithRecovery m operation ctx w = Some (c, w') /\
    Z.of_nat k < maxRetries m /\
    (forall i, (i < k)%nat ->
       exists e, operation i = Thrown e /\ isRetryable e = true) /\
    sleptIn (trace w') = sleptIn (trace w) ++ retryDelays m k /\
    now w' = now w + backoffTotal m k /\
    (forall r, c = Returned r -> attempts r = Z.of_nat k + 1).
Proof.
  intros Hm Hd.
  destruct (attemptLoop_sleeps (Z.to_nat (maxRetries m)) (S (Z.to_nat (maxRetries m)))
              1 None w) as (c & w' & k & E & Hk & Hs & Hnow & Hat & Hops); try lia.
  exists c, w', k. split; [exact E|]. split; [lia|]. split; [exact Hops|].
  split; [exact Hs|]. split.
  - rewrite Hnow, totalDelay_from by lia. unfold backoffTotal.
    destruct (exponentialBackoff m); [|reflexivity].
    change (2 ^ (1 - 1)) with 1. ring.
  - intros r Hr. rewrite (Hat r Hr). lia.
Qed.

End RetryFacts.

Section RetryWitnesses.
Import Runtime Recovery Ledger Samples.

Lemma processWithRecovery_sleeps_between_attempts_witness :
  exists c w' (k : nat),
    processWithRecovery testManager flakyOperation testContext freshWorld = Some (c, w') /\
    Z.of_nat k < maxRetries testManager /\
    (forall i, (i < k)%nat ->
       exists e, flakyOperation i = Thrown e /\ isRetryable e = true) /\
    sleptIn (trace w') = sleptIn (trace freshWorld) ++ retryDelays testManager k /\
    now w' = now freshWorld + backoffTotal testManager k /\
    (forall r, c = Returned r -> attempts r = Z.of_nat k + 1).
Proof.
  apply (processWithRecovery_sleeps_between_attempts testManager flakyOperation
           testContext freshWorld); vm_compute; congruence.
Defined.

End RetryWitnesses.

Section RunAccounts.
Import Runtime Recovery App Ledger Accounts.

Variable app : App.
Variable opts : RunOptions.

Lemma failureEntry_now (f : string) (e : JsError) (w1 w2 : World) :
  now w1 = now w2 -> failureEntry f e w1 = failureEntry f e w2.
Proof. intros H. unfold failureEntry, ErrorLogger.makeEntry. rewrite H. reflexivity. Qed.

Lemma loggedFailures_cons (f : string) (l : list string) (w : World) :
  loggedFailures app opts (f :: l) w
  = loggedFailures app opts [f] w ++ loggedFailures app opts l w.
Proof.
  unfold loggedFailures. simpl. destruct (failureOf app opts f); reflexivity.
Qed.

Lemma loggedFailures_now (l : list string) (w1 w2 : World) :
  now w1 = now w2 -> loggedFailures app opts l w1 = loggedFailures app opts l w2.
Proof.
  intros H. induction l as [|f l IH]; [reflexivity|].
  rewrite (loggedFailures_cons f l w1), (loggedFailures_cons f l w2), IH. f_equal.
  unfold loggedFailures. simpl. destruct (failureOf app opts f); simpl; [|reflexivity].
  rewrite (failureEntry_now _ _ _ _ H). reflexivity.
Qed.

Lemma mirrored_log (f : option JsVal) (e : JsError) (c : gmap string JsVal) (w : World) :
  mirrored w -> mirrored (ErrorLogger.log f e c w).
Proof.
  unfold mirrored, ErrorLogger.log. cbn. intros ->. reflexivity.
Qed.

Lemma mirrored_same (w1 w2 : World) :
  Runtime.errors w2 = Runtime.errors w1 -> errorLog w2 = errorLog w1 ->
  mirrored w1 -> mirrored w2.
Proof. unfold mirrored. intros -> ->. auto. Qed.

(** One pass of the loop, by what it leaves behind. *)
Lemma processOne_accounts (i : nat) (f : string) (stats : Stats) (w : World) :
  exists stats' w' ab,
    processOne app opts i f stats w = (stats', w', ab) /\
    now w' = now w /\
    (mirrored w -> mirrored w') /\
    ab = (if continueOnError opts then None else failureOf app opts f) /\
    (ab = None ->
     stats' = addOutcome stats (outcomeOf app opts f) /\
     Runtime.errors w' = Runtime.errors w ++ loggedFailures app opts [f] w /\
     processedFiles w' = ledgerAfter app opts [f] (processedFiles w)) /\
    (ab <> None ->
     Runtime.errors w' = Runtime.errors w ++ abortEntries app opts f w /\
     processedFiles w' = processedFiles w /\
     stateFile w' = stateFile w).
Proof.
  unfold mirrored, processOne, loggedFailures, abortEntries, ledgerAfter, failureOf,
    catchInLoop.
  remember (outcomeOf app opts f) as c eqn:Ec.
  assert (Eo : outcomeOf app opts f = c) by (symmetry; exact Ec).
  unfold outcomeOf in Ec. cbv zeta. rewrite <- Ec. clear Ec.
  destruct c as [r | e]; [destruct r |];
    destruct (continueOnError opts) eqn:Hc;
    destruct (Nat.eqb (i mod 10) 0);
    cbn -[Z.add List.app String.append outcomeOf];
    rewrite ?Eo;
    eexists _, _, _; (split; [reflexivity |]);
    cbn -[Z.add List.app String.append outcomeOf];
    (split; [reflexivity |]);
    (split; [intros Hm; rewrite ?Hm, ?app_nil_r, <- ?app_assoc; reflexivity |]);
    (split; [reflexivity |]);
    (split;
     [intros H; first [discriminate H
                      | rewrite ?app_nil_r; repeat split; reflexivity]
     |intros H; first [now destruct H
                      | rewrite ?app_nil_r, <- ?app_assoc; repeat split; reflexivity]]).
Qed.

Lemma processFiles_accounts (l : list string) (i : nat) (stats : Stats) (w : World) :
  exists stats' w' ab,
    processFiles app opts l i stats w = (stats', w', ab) /\
    now w' = now w /\
    (mirrored w -> mirrored w') /\
    (ab = None ->
     stats' = List.fold_left addOutcome (List.map (outcomeOf app opts) l) stats /\
     Runtime.errors w' = Runtime.errors w ++ loggedFailures app opts l w /\
     processedFiles w' = ledgerAfter app opts l (processedFiles w)).
Proof.
  revert i stats w. induction l as [|f rest IH]; intros i stats w.
  - exists stats, w, None. simpl. repeat split; auto.
    unfold loggedFailures. simpl. rewrite app_nil_r. reflexivity.
  - destruct (processOne_accounts i f stats w)
      as (s1 & w1 & ab1 & E1 & N1 & M1 & A1 & C1 & _).
    simpl processFiles. rewrite E1. destruct ab1 as [e|].
    + exists s1, w1, (Some e). repeat split; auto; discriminate.
    + destruct (C1 eq_refl) as (S1 & L1 & P1).
      destruct (IH (S i) s1 w1) as (s2 & w2 & ab2 & E2 & N2 & M2 & C2).
      exists s2, w2, ab2. split; [exact E2|]. split; [congruence|].
      split; [auto|]. intros Hab. destruct (C2 Hab) as (S2 & L2 & P2).
      split; [|split].
      * rewrite S2, S1. reflexivity.
      * rewrite L2, L1, (loggedFailures_cons f rest w), <- app_assoc.
        rewrite (loggedFailures_now rest w1 w N1). reflexivity.
      * rewrite P2, P1. reflexivity.
Qed.

(** With [continueOnError] off the loop stops at the first failing file. *)
Lemma processFiles_stops (before : list string) (f : string) (after : list string)
    (e : JsError) (i : nat) (stats : Stats) (w : World) :
  continueOnError opts = false ->
  Forall (fun g => failureOf app opts g = None) before ->
  failureOf app opts f = Some e ->
  exists stats' w',
    processFiles app opts (before ++ f :: after) i stats w = (stats', w', Some e) /\
    now w' = now w /\
    optimizedFiles (trace w') = optimizedFiles (trace w) ++ before ++ [f] /\
    Runtime.errors w' = Runtime.errors w ++ abortEntries app opts f w /\
    processedFiles w' = ledgerAfter app opts before (processedFiles w).
Proof.
  intros Hc Hb Hf. revert i stats w.
  induction Hb as [|g before Hg Hb IH]; intros i stats w.
  - destruct (processOne_accounts i f stats w)
      as (s1 & w1 & ab1 & E1 & N1 & _ & A1 & _ & C1).
    destruct (processOne_facts app opts i f stats w)
      as (s1' & w1' & ab1' & E1' & T1 & _).
    rewrite E1 in E1'. injection E1' as <- <- <-.
    rewrite Hc, Hf in A1. subst ab1.
    destruct C1 as (L1 & P1 & _); [discriminate|].
    exists s1, w1. simpl. rewrite E1. repeat split; assumption.
  - destruct (processOne_accounts i g stats w)
      as (s1 & w1 & ab1 & E1 & N1 & _ & A1 & C1 & _).
    destruct (processOne_facts app opts i g stats w)
      as (s1' & w1' & ab1' & E1' & T1 & _).
    rewrite E1 in E1'. injection E1' as <- <- <-.
    rewrite Hc, Hg in A1. subst ab1.
    destruct (C1 eq_refl) as (_ & L1 & P1).
    destruct (IH (S i) s1 w1) as (s2 & w2 & E2 & N2 & T2 & L2 & P2).
    exists s2, w2. simpl. rewrite E1. split; [exact E2|]. split; [congruence|].
    split; [|split].
    + rewrite T2, T1, <- app_assoc. reflexivity.
    + rewrite L2, L1. unfold loggedFailures. simpl. rewrite Hg. simpl.
      rewrite app_nil_r. unfold abortEntries, failureEntry, ErrorLogger.makeEntry.
      rewrite N1. reflexivity.
    + rewrite P2, P1. reflexivity.
Qed.

(** The counters are the numbers of files with each outcome. *)
Lemma tally_counts (l : list string) (stats : Stats) :
  let stats' := List.fold_left addOutcome (List.map (outcomeOf app opts) l) stats in
  processed stats' = processed stats + countWhere app opts isProcessed l /\
  skipped stats' = skipped stats + countWhere app opts isSkipped l /\
  errors stats' = errors stats + countWhere app opts countsAsError l /\
  lfsPointers stats' = lfsPointers stats + countWhere app opts isLfsPointer l /\
  lfsErrors stats' = lfsErrors stats + countWhere app opts isLfsError l.
Proof.
  revert stats. unfold countWhere.
  induction l as [|f l IH]; intros stats; [simpl; lia|].
  simpl List.fold_left. simpl List.filter.
  specialize (IH (addOutcome stats (outcomeOf app opts f))). cbv zeta in *.
  destruct IH as (I1 & I2 & I3 & I4 & I5).
  rewrite I1, I2, I3, I4, I5.
  destruct (outcomeOf app opts f) as [[]|]; simpl; lia.
Qed.

Lemma loadState_keeps (w : World) :
  now (snd (loadState w)) = now w /\
  stateFile (snd (loadState w)) = stateFile w /\
  Runtime.errors (snd (loadState w)) = Runtime.errors w /\
  errorLog (snd (loadState w)) = errorLog w.
Proof.
  unfold loadState, StatePersistence.load.
  destruct (stateFile w) as [[s|]|] eqn:Hs; cbn; auto.
  destruct (negb match version s with Some v => String.eqb v "1.0" | None => false end);
    cbn; auto.
  destruct (files s) as [fl|]; [destruct (filesProcessed fl)|]; cbn; auto.
Qed.

Lemma loadState_ext (w1 w2 : World) :
  stateFile w1 = stateFile w2 -> processedFiles w1 = processedFiles w2 ->
  fst (loadState w1) = fst (loadState w2) /\
  processedFiles (snd (loadState w1)) = processedFiles (snd (loadState w2)).
Proof.
  intros Hs Hp. unfold loadState, StatePersistence.load. rewrite Hs.
  destruct (stateFile w2) as [[s|]|]; cbn; auto.
  destruct (negb match version s with Some v => String.eqb v "1.0" | None => false end);
    cbn; auto.
  destruct (files s) as [fl|]; [destruct (filesProcessed fl)|]; cbn; auto.
  rewrite Hp. auto.
Qed.

End RunAccounts.

Section RunFacts.
Import Runtime Recovery App Ledger Accounts.

Variable app : App.
Variable opts : RunOptions.
Variable env : Environment.

Lemma toProcess_nil (w : World) : toProcess [] opts w = [].
Proof. unfold toProcess, slice. destruct (_ <? 0); apply drop_nil. Qed.

(** A run that finds files, from the loop on.  The world the loop starts
    in differs from the initial one by console output and by the ledger
    restored from the checkpoint. *)
Lemma processImages_loop (w : World) (u : unit) (found : list string) :
  mkdirOutput env = Returned u ->
  imageFiles env = Returned found ->
  found <> [] ->
  exists w7,
    now w7 = now w /\ stateFile w7 = stateFile w /\
    Runtime.errors w7 = Runtime.errors w /\ errorLog w7 = errorLog w /\
    processedFiles w7 = restoredLedger w /\
    optimizedFiles (trace w7) = optimizedFiles (trace w) /\
    processImages app env opts w =
    match processFiles app opts (toProcess found opts w) 0 zeroStats w7 with
    | (_, w8, Some e) => fatal e w8
    | (stats, w8, None) =>
        (Returned stats,
         if Z.eqb (errors stats) 0 then clearState (emit ProgressFinish w8)
         else saveState loopSaveArg (emit ProgressFinish w8))
    end.
Proof.
  intros Hmk Hfiles Hne. unfold processImages.
  rewrite Hmk, Hfiles.
  replace (Nat.eqb (List.length found) 0) with false
    by (destruct found; [congruence | reflexivity]).
  destruct (forceReprocess opts), (pullLfs opts);
    match goal with |- context [loadState ?x] =>
      pose proof (loadState_keeps x) as (K1 & K2 & K3 & K4);
      pose proof (loadState_ext x w eq_refl eq_refl) as (X1 & X2);
      pose proof (loadState_facts x) as (F1 & _);
      destruct (loadState x) as [saved w6]
    end;
    unfold toProcess, restoredLedger; cbn [fst snd] in *; rewrite <- X1;
    (exists (if Z.ltb 0 (startIndexOf opts saved)
             then emit (ConsoleLog (MsgResuming (startIndexOf opts saved))) w6
             else w6));
    (split; [destruct (Z.ltb 0 _); cbn; rewrite K1; reflexivity|]);
    (split; [destruct (Z.ltb 0 _); cbn; rewrite K2; reflexivity|]);
    (split; [destruct (Z.ltb 0 _); cbn; rewrite K3; reflexivity|]);
    (split; [destruct (Z.ltb 0 _); cbn; rewrite K4; reflexivity|]);
    (split; [destruct (Z.ltb 0 _); cbn; rewrite X2; reflexivity|]);
    (split;
     [destruct (Z.ltb 0 _);
      [rewrite optimizedFiles_emit_other by discriminate |];
      rewrite F1; rewrite !optimizedFiles_emit_other by discriminate; reflexivity
     |destruct (processFiles app opts _ 0 zeroStats _) as [[st w8] [e|]]; reflexivity]).
Qed.

Lemma mirrored_fatal (e : JsError) (w : World) :
  mirrored w -> mirrored (snd (fatal e w)).
Proof.
  intros H. unfold fatal, logError. cbn [snd]. apply mirrored_log.
  apply (mirrored_same w); [reflexivity | reflexivity | exact H].
Qed.

Lemma sumStats_tally (l : list string) (stats : Stats) :
  sumStats (List.fold_left addOutcome (List.map (outcomeOf app opts) l) stats)
  = sumStats stats + Z.of_nat (List.length l).
Proof.
  revert stats. induction l as [|f l IH]; intros stats; [simpl; lia|].
  simpl List.fold_left. rewrite IH. simpl List.length.
  unfold sumStats. destruct (outcomeOf app opts f) as [[]|]; simpl; lia.
Qed.

Lemma loggedFailures_length (l : list string) (w : World) :
  Z.of_nat (List.length (loggedFailures app opts l w))
  = countWhere app opts countsAsError l.
Proof.
  unfold countWhere. induction l as [|f l IH]; [reflexivity|].
  rewrite loggedFailures_cons, List.length_app, Nat2Z.inj_add, IH.
  unfold loggedFailures, failureOf. simpl.
  destruct (outcomeOf app opts f) as [[]|]; simpl; lia.
Qed.

(** A run that returns, from the loop on. *)
Lemma processImages_returned (w : World) (stats : Stats) (w' : World) :
  processImages app env opts w = (Returned stats, w') ->
  exists found,
    imageFiles env = Returned found /\
    optimizedFiles (trace w') = optimizedFiles (trace w) ++ toProcess found opts w /\
    stats = List.fold_left addOutcome
              (List.map (outcomeOf app opts) (toProcess found opts w)) zeroStats /\
    now w' = now w /\
    (errors stats <> 0 ->
     Runtime.errors w' = Runtime.errors w ++ loggedFailures app opts (toProcess found opts w) w /\
     errorLog w' <> None /\
     processedFiles w' = ledgerAfter app opts (toProcess found opts w) (restoredLedger w) /\
     stateFile w' = stateFile (saveState loopSaveArg w')).
Proof.
  intros H.
  destruct (mkdirOutput env) as [u|e] eqn:Hmk;
    [|unfold processImages in H; rewrite Hmk in H; discriminate H].
  destruct (imageFiles env) as [found|e] eqn:Hfiles;
    [|unfold processImages in H; rewrite Hmk, Hfiles in H; discriminate H].
  exists found. split; [reflexivity|].
  destruct found as [|f0 found0].
  - unfold processImages in H. rewrite Hmk, Hfiles in H. simpl in H.
    injection H as <- <-. rewrite toProcess_nil.
    rewrite optimizedFiles_emit_other by discriminate. rewrite app_nil_r.
    split; [reflexivity|]. split; [reflexivity|]. split; [reflexivity|].
    intros Hz. now destruct Hz.
  - destruct (processImages_loop w u (f0 :: found0) Hmk Hfiles)
      as (w7 & N7 & S7 & E7 & L7 & P7 & T7 & Hrun); [discriminate|].
    rewrite Hrun in H. clear Hrun.
    destruct (processFiles_accounts app opts (toProcess (f0 :: found0) opts w) 0 zeroStats w7)
      as (s8 & w8 & ab & E8 & N8 & _ & C8).
    destruct (processFiles_facts app opts (toProcess (f0 :: found0) opts w) 0 zeroStats w7)
      as (s8' & w8' & ab' & E8' & (visited & T8 & _ & V8) & _ & _ & Le8 & G8 & _).
    rewrite E8 in E8'. injection E8' as <- <- <-.
    rewrite E8 in H. destruct ab as [e|]; [discriminate H|].
    injection H as <- <-.
    destruct (C8 eq_refl) as (S8 & L8 & P8). rewrite (V8 eq_refl) in T8.
    split; [rewrite finish_trace, T8, T7; reflexivity|].
    split; [exact S8|].
    split; [destruct (Z.eqb (errors s8) 0); cbn; congruence|].
    intros Hz. apply Z.eqb_neq in Hz. rewrite Hz.
    cbn [Runtime.errors processedFiles saveState StatePersistence.save withStateFile emit
         errorLog stateFile].
    split; [|split; [|split]].
    + rewrite L8, E7, (loggedFailures_now app opts _ w7 w N7). reflexivity.
    + apply Z.eqb_neq in Hz. change (errors zeroStats) with 0 in Le8, G8.
      destruct G8 as (es & e & G8); [lia|].
      rewrite G8. discriminate.
    + rewrite P8, P7. reflexivity.
    + reflexivity.
Qed.

Lemma abortEntries_now (f : string) (w1 w2 : World) :
  now w1 = now w2 -> abortEntries app opts f w1 = abortEntries app opts f w2.
Proof.
  intros H. unfold abortEntries, failureEntry, ErrorLogger.makeEntry. rewrite H.
  reflexivity.
Qed.

Lemma returnedEntries_cons (f : string) (l : list string) :
  returnedEntries app opts (f :: l)
  = returnedEntries app opts [f] ++ returnedEntries app opts l.
Proof.
  unfold returnedEntries. simpl. destruct (outcomeOf app opts f); reflexivity.
Qed.

(** Over distinct files none of which is in the ledger yet, the loop
    appends one entry for each file whose call returned. *)
Lemma ledgerAfter_fresh (l : list string) (acc : list (string * LedgerEntry)) :
  NoDup l -> (forall f, In f l -> mapHas f acc = false) ->
  ledgerAfter app opts l acc = acc ++ returnedEntries app opts l.
Proof.
  revert acc. induction l as [|f l IH]; intros acc Hnd Hnew.
  - unfold returnedEntries. simpl. rewrite app_nil_r. reflexivity.
  - apply NoDup_cons in Hnd. destruct Hnd as [Hf Hnd].
    rewrite returnedEntries_cons. change (ledgerAfter app opts (f :: l) acc)
      with (ledgerAfter app opts l (ledgerAfter app opts [f] acc)).
    unfold ledgerAfter at 2. unfold returnedEntries at 1. simpl.
    destruct (outcomeOf app opts f) as [r|e]; simpl.
    + rewrite mapSet_new by (apply Hnew; left; reflexivity).
      rewrite IH; [rewrite <- app_assoc; reflexivity | exact Hnd |].
      intros g Hg. rewrite <- mapSet_new by (apply Hnew; left; reflexivity).
      rewrite mapHas_mapSet, (Hnew g (or_intror Hg)), orb_false_r.
      apply String.eqb_neq. intros ->. apply Hf. apply list_elem_of_In. exact Hg.
    + apply IH; [exact Hnd|]. intros g Hg. apply Hnew. right. exact Hg.
Qed.

Lemma returnedEntries_length (l : list string) :
  Z.of_nat (List.length (returnedEntries app opts l)) = countWhere app opts hasReturned l.
Proof.
  unfold countWhere. induction l as [|f l IH]; [reflexivity|].
  rewrite returnedEntries_cons, List.length_app, Nat2Z.inj_add, IH.
  unfold returnedEntries. simpl.
  destruct (outcomeOf app opts f); simpl; lia.
Qed.

(** The statuses the loop records are result strings, none of which is
    'success' or 'failed'. *)
Lemma returnedEntries_no_success (l : list string) :
  countStatus "success" (returnedEntries app opts l) = 0 /\
  countStatus "failed" (returnedEntries app opts l) = 0.
Proof.
  unfold countStatus. induction l as [|f l IH]; [split; reflexivity|].
  rewrite returnedEntries_cons, !List.filter_app, !List.length_app, !Nat2Z.inj_add.
  destruct IH as [-> ->]. unfold returnedEntries. simpl.
  destruct (outcomeOf app opts f) as [[]|]; split; reflexivity.
Qed.

(** The entries the loop records carry no error object. *)
Lemma returnedEntries_plain (l : list string) :
  Ledger.plainEntries (returnedEntries app opts l).
Proof.
  unfold Ledger.plainEntries, returnedEntries.
  induction l as [|f l IH]; simpl; [constructor|].
  destruct (outcomeOf app opts f); simpl; [constructor; [reflexivity | exact IH] | exact IH].
Qed.

Lemma clean_start (w : World) (found : list string) :
  stateFile w = None ->
  toProcess found opts w = found /\ restoredLedger w = processedFiles w.
Proof.
  intros Hs. unfold toProcess, restoredLedger, loadState, StatePersistence.load.
  rewrite Hs. simpl. split; [|reflexivity].
  unfold slice. simpl. apply drop_0.
Qed.

(** X19: processImages, the counters of a run that returns.  Each file
    selected for the run is handed to the optimizer once, in order; each
    counter is the number of these files with the matching outcome (a
    rejected call and the result 'error' both count as errors, and both
    'lfs-pointer' and 'lfs-error' have a counter of their own), so the
    five counters add up to the number of files handled. *)
Theorem completed_run_counts_every_file (w : World) (stats : Stats) (w' : World) :
  processImages app env opts w = (Returned stats, w') ->
  exists found,
    imageFiles env = Returned found /\
    optimizedFiles (trace w') = optimizedFiles (trace w) ++ toProcess found opts w /\
    processed stats = countWhere app opts isProcessed (toProcess found opts w) /\
    skipped stats = countWhere app opts isSkipped (toProcess found opts w) /\
    errors stats = countWhere app opts countsAsError (toProcess found opts w) /\
    lfsPointers stats = countWhere app opts isLfsPointer (toProcess found opts w) /\
    lfsErrors stats = countWhere app opts isLfsError (toProcess found opts w) /\
    sumStats stats = Z.of_nat (List.length (toProcess found opts w)).
Proof.
  intros H. destruct (processImages_returned w stats w' H)
    as (found & Hf & T & S & _).
  exists found. split; [exact Hf|]. split; [exact T|].
  pose proof (tally_counts app opts (toProcess found opts w) zeroStats) as Q.
  pose proof (sumStats_tally (toProcess found opts w) zeroStats) as Q'.
  cbv zeta in Q. rewrite <- S in Q, Q'.
  destruct Q as (Q1 & Q2 & Q3 & Q4 & Q5). simpl in *.
  repeat split; assumption.
Qed.

(** X20: processImages, the error log of a run that returns with failures.
    The run has added to the in-memory error list one entry for each
    failing file, in the order of the files and none else, so as many
    entries as [stats.errors] says; the log file is there. *)
Theorem completed_run_logs_each_failure_once (w : World) (stats : Stats) (w' : World) :
  processImages app env opts w = (Returned stats, w') ->
  errors stats <> 0 ->
  exists found,
    imageFiles env = Returned found /\
    Runtime.errors w'
    = Runtime.errors w ++ loggedFailures app opts (toProcess found opts w) w /\
    Z.of_nat (List.length (loggedFailures app opts (toProcess found opts w) w))
    = errors stats /\
    errorLog w' <> None.
Proof.
  intros H Hz. destruct (processImages_returned w stats w' H)
    as (found & Hf & _ & S & _ & C).
  destruct (C Hz) as (L & G & _).
  exists found. split; [exact Hf|]. split; [exact L|]. split; [|exact G].
  rewrite loggedFailures_length.
  pose proof (tally_counts app opts (toProcess found opts w) zeroStats) as Q.
  cbv zeta in Q. rewrite <- S in Q. simpl in Q. symmetry. apply Q.
Qed.

(** The checkpoint a first run with failures leaves behind. *)
Lemma first_run_checkpoint
    (w : World) (stats : Stats) (w' : World) (found : list string) :
  stateFile w = None ->
  processedFiles w = [] ->
  NoDup found ->
  imageFiles env = Returned found ->
  processImages app env opts w = (Returned stats, w') ->
  errors stats <> 0 ->
  exists s,
    stateFile w' = Some (Json s) /\
    version s = Some "1.0" /\
    checkpoint s = None /\
    files s = Some (mkFiles (Some (returnedEntries app opts found)) []) /\
    progress s
    = Some (mkProgress (Some 0) (Some (countWhere app opts hasReturned found))
              (Some 0) (Some 0) None) /\
    processedFiles w' = returnedEntries app opts found.
Proof.
  intros Hs Hp Hnd Hf H Hz.
  destruct (processImages_returned w stats w' H) as (found' & Hf' & _ & _ & _ & C).
  rewrite Hf in Hf'. injection Hf' as <-.
  destruct (C Hz) as (_ & _ & P & F).
  destruct (clean_start w found Hs) as [Ht Hr]. rewrite Ht, Hr, Hp in P.
  rewrite (ledgerAfter_fresh found []) in P by (auto; intros; reflexivity).
  simpl in P. rewrite F. unfold saveState, StatePersistence.save.
  cbn [stateFile withStateFile]. rewrite P.
  destruct (returnedEntries_no_success found) as [-> ->].
  rewrite returnedEntries_length.
  eexists. split; [reflexivity|]. cbn -[jsonLedger].
  unfold jsonFiles. cbn -[jsonLedger].
  rewrite (jsonLedger_plain _ (returnedEntries_plain found)). repeat split.
Qed.

(** X21: processImages, the checkpoint a first run leaves behind.  A run
    from a clean start (no checkpoint, empty ledger) over distinct files
    that returns with failures writes a checkpoint that lists exactly the
    files whose optimizer call returned, each with its result string as
    status, in order; files whose call was rejected are not listed.  Its
    [progress.processed] is the number of listed files, [succeeded] and
    [failed] are 0 (no result string is 'success' or 'failed'), [total]
    is 0 and [remaining] is not a number. *)
Theorem first_run_checkpoint_lists_returned_files
    (w : World) (stats : Stats) (w' : World) (found : list string) :
  stateFile w = None ->
  processedFiles w = [] ->
  NoDup found ->
  imageFiles env = Returned found ->
  processImages app env opts w = (Returned stats, w') ->
  errors stats <> 0 ->
  exists s,
    stateFile w' = Some (Json s) /\
    version s = Some "1.0" /\
    files s = Some (mkFiles (Some (returnedEntries app opts found)) []) /\
    progress s
    = Some (mkProgress (Some 0) (Some (countWhere app opts hasReturned found))
              (Some 0) (Some 0) None) /\
    processedFiles w' = returnedEntries app opts found.
Proof.
  intros Hs Hp Hnd Hf H Hz.
  destruct (first_run_checkpoint w stats w' found Hs Hp Hnd Hf H Hz)
    as (s & H1 & H2 & _ & H4 & H5 & H6).
  exists s. auto.
Qed.

(** X22: a run with the resume flag after a first run with failures.  When
    a first run from a clean start over distinct files has returned with
    failures, a run with the resume flag over the checkpoint it left
    (by the same manager or by a new process) and over the same files
    selects the files from the index that is the number of files whose
    call had returned: it skips that many leading files, whichever files
    had failed. *)
Theorem resume_after_failures_skips_by_count
    (w : World) (stats : Stats) (w' : World) (found : list string)
    (resumed : RunOptions) (w2 : World) :
  stateFile w = None ->
  processedFiles w = [] ->
  NoDup found ->
  imageFiles env = Returned found ->
  processImages app env opts w = (Returned stats, w') ->
  errors stats <> 0 ->
  resumeFlag resumed = true ->
  stateFile w2 = stateFile w' ->
  toProcess found resumed w2
  = drop (Z.to_nat (countWhere app opts hasReturned found)) found /\
  countWhere app opts hasReturned found
  = Z.of_nat (List.length found) - countWhere app opts (fun c => negb (hasReturned c)) found.
Proof.
  intros Hs Hp Hnd Hf H Hz Hres Hw2.
  destruct (first_run_checkpoint w stats w' found Hs Hp Hnd Hf H Hz)
    as (s & H1 & H2 & H3 & _ & H5 & _).
  split.
  - rewrite <- Hw2 in H1.
    destruct (loadState_valid s w2 H1 H2) as (w3 & Hload & _).
    unfold toProcess. rewrite Hload. cbn [fst]. unfold startIndexOf. rewrite Hres.
    rewrite (savedStartIndex_progress s (countWhere app opts hasReturned found));
      [|rewrite H3; reflexivity | rewrite H5; reflexivity].
    apply slice_nonneg. unfold countWhere. lia.
  - unfold countWhere. clear. induction found as [|f l IH]; [reflexivity|].
    simpl List.filter. destruct (hasReturned (outcomeOf app opts f));
      simpl negb; cbv iota; simpl List.length; lia.
Qed.

(** X23: processImages with [continueOnError] off.  The run stops at the
    first selected file that fails: it rejects with the error of that
    file (the one the optimizer threw, or "Failed to process <file>" for
    the result 'error'), no later file is handed to the optimizer, the
    files before it are in the ledger, and the error list has grown by
    the entries for that file (two for the result 'error', one for a
    rejected call) followed by one FATAL entry. *)
Theorem run_stops_at_first_failure (w : World) (found before : list string)
    (f : string) (after : list string) (e : JsError) :
  mkdirOutput env = Returned tt ->
  imageFiles env = Returned found ->
  continueOnError opts = false ->
  toProcess found opts w = before ++ f :: after ->
  Forall (fun g => failureOf app opts g = None) before ->
  failureOf app opts f = Some e ->
  exists w',
    processImages app env opts w = (Thrown e, w') /\
    optimizedFiles (trace w') = optimizedFiles (trace w) ++ before ++ [f] /\
    Runtime.errors w'
    = Runtime.errors w ++ abortEntries app opts f w ++ [fatalEntry e w] /\
    processedFiles w' = ledgerAfter app opts before (restoredLedger w).
Proof.
  intros Hmk Hfiles Hc Hsel Hb Hf.
  assert (Hne : found <> []).
  { intros ->. rewrite toProcess_nil in Hsel. destruct before; discriminate Hsel. }
  destruct (processImages_loop w tt found Hmk Hfiles Hne)
    as (w7 & N7 & S7 & E7 & L7 & P7 & T7 & Hrun).
  rewrite Hrun, Hsel.
  destruct (processFiles_stops app opts before f after e 0 zeroStats w7 Hc Hb Hf)
    as (s8 & w8 & E8 & N8 & T8 & L8 & P8).
  rewrite E8. exists (snd (fatal e w8)). split; [reflexivity|].
  destruct (fatal_facts e w8) as [_ F2]. rewrite F2, T8, T7.
  split; [reflexivity|].
  unfold fatal, logError, ErrorLogger.log.
  cbn [snd Runtime.errors processedFiles withErrorLog withErrors emit].
  split.
  - rewrite L8, E7, <- !app_assoc. rewrite (abortEntries_now f w7 w N7).
    unfold fatalEntry, ErrorLogger.makeEntry. cbn [now emit]. rewrite N8, N7.
    reflexivity.
  - rewrite P8, P7. reflexivity.
Qed.

(** X24: processImages when the set-up fails.  If the output directory
    cannot be made or the files cannot be listed, the run rejects with
    that error, no file is handed to the optimizer, exactly one entry,
    for FATAL, is added to the error list and to the log file, and the
    checkpoint and the ledger are left as they were. *)
Theorem setup_failure_is_fatal (w : World) (e : JsError) :
  mkdirOutput env = Thrown e \/
  (mkdirOutput env = Returned tt /\ imageFiles env = Thrown e) ->
  exists w',
    processImages app env opts w = (Thrown e, w') /\
    optimizedFiles (trace w') = optimizedFiles (trace w) /\
    Runtime.errors w' = Runtime.errors w ++ [fatalEntry e w] /\
    errorLog w' = Some (default [] (errorLog w) ++ [fatalEntry e w]) /\
    stateFile w' = stateFile w /\
    processedFiles w' = processedFiles w.
Proof.
  intros H. exists (snd (fatal e w)).
  assert (Hrun : processImages app env opts w = fatal e w).
  { unfold processImages. destruct H as [-> | [-> ->]]; reflexivity. }
  split; [rewrite Hrun; reflexivity|].
  split; [apply fatal_facts|]. repeat split.
Qed.

(** The retry loop keeps the error list and the log file in step. *)
Lemma attemptLoop_mirrored {R : Type} (m : Manager) (operation : nat -> Completion R)
    (ctx : gmap string JsVal) (fuel : nat) (a : Z) (le : option JsError)
    (w : World) (c : Completion (RecoveryResult R)) (w' : World) :
  attemptLoop m operation ctx fuel a le w = Some (c, w') ->
  mirrored w -> mirrored w'.
Proof.
  revert a le w. induction fuel as [|fuel IH]; intros a le w H Hm; [discriminate H|].
  simpl in H. destruct (a <=? maxRetries m); [|injection H as <- <-; exact Hm].
  destruct (operation (Z.to_nat (a - 1))) as [r|e]; [injection H as <- <-; exact Hm|].
  destruct (negb (isRetryable e) || (a =? maxRetries m)).
  - destruct (Recovery.continueOnError m); injection H as <- <-;
      apply mirrored_log; exact Hm.
  - apply IH in H; [exact H|]. revert Hm. apply mirrored_same; reflexivity.
Qed.

(** X25: the error log mirrors the error list.  Whenever the in-memory
    error list and the lines of the log file agree, they still agree
    after a run of [processImages], after an invocation of
    [processWithRecovery], and after [logError], [clearState],
    [saveState] and [loadState]: an entry is never in one of the two
    only.  (The appends to the log file are taken to succeed.) *)
Theorem error_log_mirrors_memory {R : Type} (w : World) :
  mirrored w ->
  mirrored (snd (processImages app env opts w)) /\
  (forall (m : Manager) (operation : nat -> Completion R) ctx c w',
     processWithRecovery m operation ctx w = Some (c, w') -> mirrored w') /\
  (forall f e c, mirrored (logError f e c w)) /\
  mirrored (clearState w) /\
  (forall arg, mirrored (saveState arg w)) /\
  mirrored (snd (loadState w)).
Proof.
  intros Hm. split; [|split; [|split; [|split; [|split]]]].
  - destruct (mkdirOutput env) as [u|e] eqn:Hmk;
      [|unfold processImages; rewrite Hmk; apply mirrored_fatal; exact Hm].
    destruct (imageFiles env) as [found|e] eqn:Hfiles;
      [|unfold processImages; rewrite Hmk, Hfiles; apply mirrored_fatal; exact Hm].
    destruct found as [|f0 found0].
    + unfold processImages. rewrite Hmk, Hfiles. simpl. exact Hm.
    + destruct (processImages_loop w u (f0 :: found0) Hmk Hfiles)
        as (w7 & N7 & S7 & E7 & L7 & P7 & T7 & Hrun); [discriminate|].
      rewrite Hrun.
      destruct (processFiles_accounts app opts (toProcess (f0 :: found0) opts w)
                  0 zeroStats w7) as (s8 & w8 & ab & E8 & _ & M8 & _).
      rewrite E8.
      assert (Hm8 : mirrored w8) by (apply M8; apply (mirrored_same w); assumption).
      destruct ab as [e|]; [apply mirrored_fatal; exact Hm8|].
      cbn [snd]. destruct (Z.eqb (errors s8) 0); [reflexivity|].
      apply (mirrored_same w8); [reflexivity | reflexivity | exact Hm8].
  - intros m operation ctx c w' H. unfold processWithRecovery in H.
    apply (attemptLoop_mirrored _ _ _ _ _ _ _ _ _ H Hm).
  - intros f e c. apply mirrored_log. exact Hm.
  - reflexivity.
  - intros arg. apply (mirrored_same w); [reflexivity | reflexivity | exact Hm].
  - destruct (loadState_keeps w) as (_ & _ & K3 & K4).
    apply (mirrored_same w); assumption.
Qed.

End RunFacts.

Section ManagerFacts.
Import Runtime Recovery Ledger.

(** X26: the constructor of the manager and the first attempt.  Options
    whose numbers are not negative give a manager with a limit of at
    least one attempt and a delay of at least one millisecond: a limit of
    0 becomes 3 and a delay of 0 becomes 1000.  With such a manager every
    invocation settles, and when the first call of the operation returns,
    the invocation returns its value with [attempts = 1] and touches
    nothing. *)
Theorem newManager_attempts_at_least_once {R : Type} (o : ManagerOptions)
    (operation : nat -> Completion R) (ctx : gmap string JsVal) (w : World) :
  (forall n, optMaxRetries o = Some n -> 0 <= n) ->
  (forall d, optRetryDelay o = Some d -> 0 <= d) ->
  1 <= maxRetries (newManager o) /\
  1 <= retryDelay (newManager o) /\
  (optMaxRetries o = Some 0 -> maxRetries (newManager o) = 3) /\
  (optRetryDelay o = Some 0 -> retryDelay (newManager o) = 1000) /\
  exists c w',
    processWithRecovery (newManager o) operation ctx w = Some (c, w') /\
    (forall r, operation O = Returned r ->
       c = Returned (mkRecoveryResult true (Some r) None 1) /\ w' = w).
Proof.
  intros Hn Hd.
  assert (H1 : 1 <= maxRetries (newManager o)).
  { unfold newManager. simpl. destruct (optMaxRetries o) as [n|]; simpl; [|lia].
    specialize (Hn n eq_refl). destruct (Z.eqb_spec n 0); simpl; lia. }
  assert (H2 : 1 <= retryDelay (newManager o)).
  { unfold newManager. simpl. destruct (optRetryDelay o) as [d|]; simpl; [|lia].
    specialize (Hd d eq_refl). destruct (Z.eqb_spec d 0); simpl; lia. }
  split; [exact H1|]. split; [exact H2|].
  split; [intros E; unfold newManager; simpl; rewrite E; reflexivity|].
  split; [intros E; unfold newManager; simpl; rewrite E; reflexivity|].
  destruct (attemptLoop_sleeps (newManager o) operation ctx
              (Z.to_nat (maxRetries (newManager o)))
              (S (Z.to_nat (maxRetries (newManager o)))) 1 None w)
    as (c & w' & k & E & _); try lia.
  exists c, w'. split; [exact E|].
  intros r Hr. unfold processWithRecovery in E. cbn [attemptLoop] in E.
  replace (1 <=? maxRetries (newManager o)) with true in E
    by (symmetry; apply Z.leb_le; exact H1).
  change (Z.to_nat (1 - 1)) with O in E. rewrite Hr in E.
  injection E as <- <-. split; reflexivity.
Qed.

End ManagerFacts.

Section RunWitnesses.
Import Runtime Recovery App Ledger Accounts Samples.

Lemma completed_run_counts_every_file_witness :
  exists found,
    imageFiles (envWith mixedFiles) = Returned found /\
    optimizedFiles (trace mixedWorld)
    = optimizedFiles (trace freshWorld) ++ toProcess found plainOptions freshWorld /\
    processed mixedStats
    = countWhere mixedApp plainOptions isProcessed (toProcess found plainOptions freshWorld) /\
    skipped mixedStats
    = countWhere mixedApp plainOptions isSkipped (toProcess found plainOptions freshWorld) /\
    errors mixedStats
    = countWhere mixedApp plainOptions countsAsError (toProcess found plainOptions freshWorld) /\
    lfsPointers mixedStats
    = countWhere mixedApp plainOptions isLfsPointer (toProcess found plainOptions freshWorld) /\
    lfsErrors mixedStats
    = countWhere mixedApp plainOptions isLfsError (toProcess found plainOptions freshWorld) /\
    sumStats mixedStats
    = Z.of_nat (List.length (toProcess found plainOptions freshWorld)).
Proof.
  apply (completed_run_counts_every_file mixedApp plainOptions (envWith mixedFiles)
           freshWorld mixedStats mixedWorld).
  vm_compute. reflexivity.
Defined.

Lemma completed_run_logs_each_failure_once_witness :
  exists found,
    imageFiles (envWith mixedFiles) = Returned found /\
    Runtime.errors mixedWorld
    = Runtime.errors freshWorld
      ++ loggedFailures mixedApp plainOptions (toProcess found plainOptions freshWorld)
           freshWorld /\
    Z.of_nat (List.length
                (loggedFailures mixedApp plainOptions
                   (toProcess found plainOptions freshWorld) freshWorld))
    = errors mixedStats /\
    errorLog mixedWorld <> None.
Proof.
  apply (completed_run_logs_each_failure_once mixedApp plainOptions (envWith mixedFiles)
           freshWorld mixedStats mixedWorld).
  - vm_compute. reflexivity.
  - vm_compute. discriminate.
Defined.

Lemma first_run_checkpoint_lists_returned_files_witness :
  exists s,
    stateFile mixedWorld = Some (Json s) /\
    version s = Some "1.0" /\
    files s = Some (mkFiles (Some (returnedEntries mixedApp plainOptions mixedFiles)) []) /\
    progress s
    = Some (mkProgress (Some 0)
              (Some (countWhere mixedApp plainOptions hasReturned mixedFiles))
              (Some 0) (Some 0) None) /\
    processedFiles mixedWorld = returnedEntries mixedApp plainOptions mixedFiles.
Proof.
  apply (first_run_checkpoint_lists_returned_files mixedApp plainOptions
           (envWith mixedFiles) freshWorld mixedStats mixedWorld mixedFiles).
  - reflexivity.
  - reflexivity.
  - apply (bool_decide_unpack (NoDup mixedFiles)). vm_compute. exact I.
  - reflexivity.
  - vm_compute. reflexivity.
  - vm_compute. discriminate.
Defined.

Lemma resume_after_failures_skips_by_count_witness :
  toProcess mixedFiles resumeOptions (restarted mixedWorld)
  = drop (Z.to_nat (countWhere mixedApp plainOptions hasReturned mixedFiles)) mixedFiles /\
  countWhere mixedApp plainOptions hasReturned mixedFiles
  = Z.of_nat (List.length mixedFiles)
    - countWhere mixedApp plainOptions (fun c => negb (hasReturned c)) mixedFiles.
Proof.
  apply (resume_after_failures_skips_by_count mixedApp plainOptions (envWith mixedFiles)
           freshWorld mixedStats mixedWorld mixedFiles resumeOptions
           (restarted mixedWorld)).
  - reflexivity.
  - reflexivity.
  - apply (bool_decide_unpack (NoDup mixedFiles)). vm_compute. exact I.
  - reflexivity.
  - vm_compute. reflexivity.
  - vm_compute. discriminate.
  - reflexivity.
  - reflexivity.
Defined.

Lemma run_stops_at_first_failure_witness :
  exists w',
    processImages mixedApp (envWith mixedFiles) stopOptions freshWorld
    = (Thrown busyError, w') /\
    optimizedFiles (trace w')
    = optimizedFiles (trace freshWorld) ++ ["a.png"] ++ ["bad.png"] /\
    Runtime.errors w'
    = Runtime.errors freshWorld
      ++ abortEntries mixedApp stopOptions "bad.png" freshWorld
      ++ [fatalEntry busyError freshWorld] /\
    processedFiles w'
    = ledgerAfter mixedApp stopOptions ["a.png"] (restoredLedger freshWorld).
Proof.
  apply (run_stops_at_first_failure mixedApp stopOptions (envWith mixedFiles)
           freshWorld mixedFiles ["a.png"] "bad.png" ["broken.png"; "b.png"] busyError).
  - reflexivity.
  - reflexivity.
  - reflexivity.
  - vm_compute. reflexivity.
  - repeat constructor.
  - vm_compute. reflexivity.
Defined.

Lemma setup_failure_is_fatal_witness :
  exists w',
    processImages mixedApp noOutputDir plainOptions freshWorld
    = (Thrown busyError, w') /\
    optimizedFiles (trace w') = optimizedFiles (trace freshWorld) /\
    Runtime.errors w' = Runtime.errors freshWorld ++ [fatalEntry busyError freshWorld] /\
    errorLog w'
    = Some (default [] (errorLog freshWorld) ++ [fatalEntry busyError freshWorld]) /\
    stateFile w' = stateFile freshWorld /\
    processedFiles w' = processedFiles freshWorld.
Proof.
  apply (setup_failure_is_fatal mixedApp plainOptions noOutputDir freshWorld busyError).
  left. reflexivity.
Defined.

Lemma error_log_mirrors_memory_witness :
  mirrored (snd (processImages mixedApp (envWith mixedFiles) plainOptions freshWorld)) /\
  (forall (m : Manager) (operation : nat -> Completion string) ctx c w',
     processWithRecovery m operation ctx freshWorld = Some (c, w') -> mirrored w') /\
  (forall f e c, mirrored (logError f e c freshWorld)) /\
  mirrored (clearState freshWorld) /\
  (forall arg, mirrored (saveState arg freshWorld)) /\
  mirrored (snd (loadState freshWorld)).
Proof.
  apply (error_log_mirrors_memory mixedApp plainOptions (envWith mixedFiles)
           (R := string) freshWorld).
  reflexivity.
Defined.

Lemma newManager_attempts_at_least_once_witness :
  1 <= maxRetries (newManager zeroRetries) /\
  1 <= retryDelay (newManager zeroRetries) /\
  (optMaxRetries zeroRetries = Some 0 -> maxRetries (newManager zeroRetries) = 3) /\
  (optRetryDelay zeroRetries = Some 0 -> retryDelay (newManager zeroRetries) = 1000) /\
  exists c w',
    processWithRecovery (newManager zeroRetries) flakyOperation testContext freshWorld
    = Some (c, w') /\
    (forall r, flakyOperation O = Returned r ->
       c = Returned (mkRecoveryResult true (Some r) None 1) /\ w' = freshWorld).
Proof.
  apply (newManager_attempts_at_least_once zeroRetries flakyOperation testContext
           freshWorld).
  - intros n [= <-]. lia.
  - intros d [= <-]. lia.
Defined.

End RunWitnesses.

(** ** The processing configurations of a file *)

Section GeneratorFacts.
Import Generator.

Variable np : NodePath.
Variables defaultConfig customConfig : GeneratorConfig.
Variable filename : string.
Variable paths : Paths.

Lemma qualityOr_nonzero (config : GeneratorConfig) (k : string) (d : Z) :
  d <> 0 -> qualityOr config k d <> 0.
Proof.
  intros Hd. unfold qualityOr.
  destruct (quality config ≫= _) as [q|]; [|exact Hd].
  destruct (Z.eqb_spec q 0); assumption.
Qed.

(** The members of the generated list, one by one. *)
Lemma generate_In (c : OutputConfig) :
  In c (generate np defaultConfig filename paths customConfig) ->
  let config := mergeConfig defaultConfig customConfig in
  let ext := parseExtLower np filename in
  (wants config "webp" = true /\ ext <> ".webp" /\
   c = mkOutputConfig (webp paths) "webp" (QualityOption (qualityOr config "webp" 85))
         (default defaultResize (resize config))) \/
  (wants config "avif" = true /\
   c = mkOutputConfig (avif paths) "avif" (QualityOption (qualityOr config "avif" 80))
         (default defaultResize (resize config))) \/
  ((ext = ".jpg" \/ ext = ".jpeg") /\
   c = mkOutputConfig (original paths) "jpeg" (QualityOption (qualityOr config "jpeg" 90))
         (default defaultResize (resize config))) \/
  (ext <> ".jpg" /\ ext <> ".jpeg" /\ (wants config "original" = true \/ ext = ".png") /\
   c = mkOutputConfig (original paths) "png" (CompressionLevel 9)
         (default defaultResize (resize config))) \/
  (generateThumbnails config = Some true /\ isOriginalOnly config = false /\
   c = mkOutputConfig (thumbnail paths) "webp"
         (QualityOption (qualityOr config "thumbnail" 70)) (thumbnailResize config)).
Proof.
  unfold generate. cbv zeta. rewrite !in_app_iff.
  intros [H | [H | [H | H]]].
  - destruct (wants _ "webp") eqn:E1; [|destruct H].
    destruct (String.eqb_spec (parseExtLower np filename) ".webp") as [E2|E2];
      simpl in H; [destruct H|].
    destruct H as [<- | []]. left. auto.
  - destruct (wants _ "avif") eqn:E1; [|destruct H].
    destruct H as [<- | []]. right. left. auto.
  - destruct (String.eqb_spec (parseExtLower np filename) ".jpg") as [E1|E1];
      destruct (String.eqb_spec (parseExtLower np filename) ".jpeg") as [E2|E2];
      destruct (String.eqb_spec (parseExtLower np filename) ".png") as [E3|E3];
      destruct (wants _ "original") eqn:E4;
      destruct (wants _ "png") eqn:E5;
      destruct (wants _ "jpeg") eqn:E6;
      simpl in H; try (destruct H as [<- | []]); try (destruct H);
      try (right; right; left; split; [auto | reflexivity]);
      right; right; right; left; auto.
  - destruct (generateThumbnails _) as [[|]|] eqn:E1; simpl in H; try (destruct H).
    destruct (isOriginalOnly _) eqn:E2; simpl in H; [destruct H|].
    destruct H as [<- | []]. right. right. right. right. auto.
Qed.

(** X27: ProcessingConfigGenerator.generate.  At most four outputs are
    asked for.  A quality that is passed on is never 0 (a configured 0
    gives way to the default); a compression level is 9 and goes with
    'png'.  The 'jpeg' encoding is used for [.jpg] and [.jpeg] inputs
    only and the 'png' encoding for every other input, both for the
    [original] path.  A [.webp] input is never converted to a full-size
    WebP: the only 'webp' output it can get is the thumbnail.  With
    [formats] equal to ['original'] the list holds the original output
    and nothing else, even when thumbnails are enabled; without
    [formats] it holds at most the thumbnail. *)
Theorem generate_output_configs :
  (List.length (generate np defaultConfig filename paths customConfig) <= 4)%nat /\
  (forall c, In c (generate np defaultConfig filename paths customConfig) ->
     match options c with
     | QualityOption q => q <> 0
     | CompressionLevel n => n = 9 /\ format c = "png"
     end) /\
  (forall c, In c (generate np defaultConfig filename paths customConfig) ->
     format c = "jpeg" ->
     (parseExtLower np filename = ".jpg" \/ parseExtLower np filename = ".jpeg") /\
     outputPath c = original paths) /\
  (forall c, In c (generate np defaultConfig filename paths customConfig) ->
     format c = "png" ->
     parseExtLower np filename <> ".jpg" /\ parseExtLower np filename <> ".jpeg" /\
     outputPath c = original paths) /\
  (parseExtLower np filename = ".webp" ->
   forall c, In c (generate np defaultConfig filename paths customConfig) ->
     format c = "webp" ->
     isThumbnailOf (mergeConfig defaultConfig customConfig) paths c) /\
  (formats (mergeConfig defaultConfig customConfig) = Some ["original"] ->
   exists c, generate np defaultConfig filename paths customConfig = [c] /\
             outputPath c = original paths) /\
  (formats (mergeConfig defaultConfig customConfig) = None ->
   forall c, In c (generate np defaultConfig filename paths customConfig) ->
     isThumbnailOf (mergeConfig defaultConfig customConfig) paths c).
Proof.
  split; [|split; [|split; [|split; [|split; [|split]]]]].
  - unfold generate. cbv zeta. rewrite !List.length_app.
    repeat match goal with |- context [if ?b then _ else _] => destruct b end;
      simpl; lia.
  - intros c Hc. destruct (generate_In c Hc)
      as [(_ & _ & ->) | [(_ & ->) | [(_ & ->) | [(_ & _ & _ & ->) | (_ & _ & ->)]]]];
      simpl; try (apply qualityOr_nonzero; lia); auto.
  - intros c Hc Hf. destruct (generate_In c Hc)
      as [(_ & _ & ->) | [(_ & ->) | [(He & ->) | [(_ & _ & _ & ->) | (_ & _ & ->)]]]];
      simpl in *; try discriminate Hf. auto.
  - intros c Hc Hf. destruct (generate_In c Hc)
      as [(_ & _ & ->) | [(_ & ->) | [(_ & ->) | [(H1 & H2 & _ & ->) | (_ & _ & ->)]]]];
      simpl in *; try discriminate Hf. auto.
  - intros He c Hc Hf. destruct (generate_In c Hc)
      as [(_ & Hne & ->) | [(_ & ->) | [(_ & ->) | [(_ & _ & _ & ->) | (_ & _ & ->)]]]];
      simpl in *; try discriminate Hf; [now destruct Hne|].
    repeat split.
  - intros Hfm. unfold generate. cbv zeta. unfold wants, isOriginalOnly. rewrite Hfm.
    simpl. rewrite andb_false_r. simpl. eexists. split; reflexivity.
  - intros Hfm c Hc. destruct (generate_In c Hc)
      as [(Hw & _) | [(Hw & _) | [(_ & Hq) | [(_ & _ & Hw & Hq) | (_ & _ & ->)]]]];
      try (unfold wants in Hw; rewrite Hfm in Hw; discriminate Hw);
      [| |repeat split].
    + revert Hc. unfold generate. cbv zeta. unfold wants. rewrite Hfm. simpl.
      rewrite !andb_false_r. simpl. subst c.
      destruct (_ && _); simpl; [intros [H|[]]; discriminate H | intros []].
    + revert Hc. unfold generate. cbv zeta. unfold wants. rewrite Hfm. simpl.
      rewrite !andb_false_r. simpl. subst c.
      destruct (_ && _); simpl; [intros [H|[]]; discriminate H | intros []].
Qed.

End GeneratorFacts.
(** ** Validated configurations *)

Section ConfigFacts.
Import JsString QualityRules ConfigLoader.

Variable isBlank : string -> bool.

Lemma andThen_None (a b : option ConfigError) :
  andThen a b = None -> a = None /\ b = None.
Proof. destruct a; simpl; [discriminate | auto]. Qed.

Lemma inRange_spec (lo hi v : Z) : inRange lo hi v = true <-> lo <= v <= hi.
Proof. unfold inRange. rewrite andb_true_iff, !Z.leb_le. tauto. Qed.

Lemma checkRules_In (rules : list Rule) (index : nat) (R : Rule) :
  checkRules index rules = None -> In R rules ->
  exists i, checkRule i R = None.
Proof.
  revert index. induction rules as [|a rules IH]; intros index H Hin; [destruct Hin|].
  simpl in H. apply andThen_None in H. destruct H as [Ha Hr].
  destruct Hin as [<- | Hin]; [eauto | apply (IH (S index)); assumption].
Qed.

(** What the validation of one rule guarantees. *)
Lemma checkRule_None (i : nat) (R : Rule) :
  checkRule i R = None ->
  1 <= criteriaCount R /\
  (forall b, In (Some b) [minWidth R; minHeight R; maxWidth R; maxHeight R] -> 0 < b) /\
  exists q, QualityRules.quality R = Some q /\
            forall key v, q !! key = Some v -> 1 <= v <= 100.
Proof.
  unfold checkRule.
  destruct (negb (truthy (pattern R)) && _ && _ && _ && _ && _) eqn:Ec; [discriminate|].
  destruct (List.find _ (sizeProps R)) as [p|] eqn:Es; [discriminate|].
  destruct (QualityRules.quality R) as [q|]; [|discriminate].
  destruct (qualityValuesOk q) eqn:Eq; [|discriminate]. intros _.
  split; [|split].
  - unfold criteriaCount, hasSizeRule.
    destruct (truthy (pattern R)), (truthy (directory R)),
      (truthyNum (minWidth R)), (truthyNum (minHeight R)),
      (truthyNum (maxWidth R)), (truthyNum (maxHeight R));
      simpl in *; try discriminate Ec; lia.
  - intros b Hb.
    assert (Hall : forall p, In p (sizeProps R) ->
              match snd p with Some v => Z.leb v 0 | None => false end = false).
    { apply (find_none _ _ Es). }
    unfold sizeProps in Hall. simpl in Hb.
    destruct Hb as [Hb | [Hb | [Hb | [Hb | []]]]].
    + specialize (Hall ("minWidth", minWidth R) (or_introl eq_refl)).
      simpl in Hall. rewrite Hb in Hall. apply Z.leb_gt in Hall. exact Hall.
    + specialize (Hall ("minHeight", minHeight R) (or_intror (or_introl eq_refl))).
      simpl in Hall. rewrite Hb in Hall. apply Z.leb_gt in Hall. exact Hall.
    + specialize (Hall ("maxWidth", maxWidth R)
                    (or_intror (or_intror (or_introl eq_refl)))).
      simpl in Hall. rewrite Hb in Hall. apply Z.leb_gt in Hall. exact Hall.
    + specialize (Hall ("maxHeight", maxHeight R)
                    (or_intror (or_intror (or_intror (or_introl eq_refl))))).
      simpl in Hall. rewrite Hb in Hall. apply Z.leb_gt in Hall. exact Hall.
  - exists q. split; [reflexivity|]. intros key v Hv.
    unfold qualityValuesOk in Eq. rewrite forallb_forall in Eq.
    apply inRange_spec. apply (Eq (key, v)).
    apply list_elem_of_In. apply elem_of_map_to_list. exact Hv.
Qed.

Lemma checkQuality_None (config : ImageConfig) (dq : gmap string Z) (f : string) (v : Z) :
  checkQuality config = None -> quality config = Some (QualityObject dq) ->
  In f ["webp"; "avif"; "jpeg"] -> dq !! f = Some v -> 1 <= v <= 100.
Proof.
  unfold checkQuality. intros H Hq Hf Hv. rewrite Hq in H.
  destruct (List.find _ _) as [g|] eqn:E; [discriminate H|].
  pose proof (find_none _ _ E f Hf) as Hn. simpl in Hn. rewrite Hv in Hn.
  apply negb_false_iff in Hn. apply inRange_spec. exact Hn.
Qed.

(** The value the engine resolves for a key, over validated rules. *)
Lemma validated_lookup (rs : list Rule) (deps : Dependencies) (p : string)
    (md : option Metadata) (dq : gmap string Z) (key : string) (v : Z) :
  checkRules 0 rs = None ->
  getQualityForImage (newEngine rs deps) p md dq !! key = Some v ->
  1 <= v <= 100 \/ dq !! key = Some v.
Proof.
  intros Hr. rewrite getQualityForImage_lookup.
  destruct (topRule _ rs) as [R|] eqn:E; [|auto].
  apply topRule_Some in E. destruct E as [Hin _].
  destruct (checkRules_In rs 0 R Hr Hin) as [i Hi].
  destruct (checkRule_None i R Hi) as (_ & _ & q & Hq & Hall).
  unfold valueFor. rewrite Hq. simpl. intros Hv. left. apply (Hall key v Hv).
Qed.

(** X28: validateConfig and the quality rules engine.  In a configuration
    the validation accepts, every rule has at least one criterion that
    counts, positive size bounds and a quality object; and whatever the
    image, a quality the engine resolves from these rules over the
    configured quality object lies between 1 and 100, unless it is the
    configured value of a key other than webp, avif and jpeg (the
    validation does not look at such a key). *)
Theorem validated_qualities_in_range (config : ImageConfig) (dq : gmap string Z)
    (rs : list Rule) (deps : Dependencies) (p : string) (md : option Metadata) :
  validateConfig isBlank config = None ->
  quality config = Some (QualityObject dq) ->
  qualityRules config = Some rs ->
  (forall R, In R rs ->
     1 <= criteriaCount R /\
     (forall b, In (Some b) [minWidth R; minHeight R; maxWidth R; maxHeight R] -> 0 < b) /\
     is_Some (QualityRules.quality R)) /\
  (forall key v,
     getQualityForImage (newEngine rs deps) p md dq !! key = Some v ->
     1 <= v <= 100 \/ (dq !! key = Some v /\ ~ In key ["webp"; "avif"; "jpeg"])).
Proof.
  intros Hv Hq Hrs. unfold validateConfig in Hv.
  apply andThen_None in Hv. destruct Hv as [_ Hv].
  apply andThen_None in Hv. destruct Hv as [Hcq Hv].
  apply andThen_None in Hv. destruct Hv as [_ Hv].
  apply andThen_None in Hv. destruct Hv as [_ Hv].
  apply andThen_None in Hv. destruct Hv as [_ Hcr].
  unfold checkQualityRules in Hcr. rewrite Hrs in Hcr.
  split.
  - intros R HR. destruct (checkRules_In rs 0 R Hcr HR) as [i Hi].
    destruct (checkRule_None i R Hi) as (H1 & H2 & q & Hq' & _).
    split; [exact H1|]. split; [exact H2|]. rewrite Hq'. eauto.
  - intros key v Hl.
    destruct (validated_lookup rs deps p md dq key v Hcr Hl) as [H|H]; [now left|].
    destruct (in_dec String.string_dec key ["webp"; "avif"; "jpeg"]) as [Hin|Hout].
    + left. apply (checkQuality_None config dq key v Hcq Hq Hin H).
    + right. split; assumption.
Qed.






End ConfigFacts.

Section ConfigWitnesses.
Import JsString QualityRules ConfigLoader.

Lemma validated_qualities_in_range_witness :
  (forall R, In R heroRules ->
     1 <= criteriaCount R /\
     (forall b, In (Some b) [minWidth R; minHeight R; maxWidth R; maxHeight R] -> 0 < b) /\
     is_Some (QualityRules.quality R)) /\
  (forall key v,
     getQualityForImage (newEngine heroRules Samples.tieDeps) "products/a-hero.png" None
       heroQuality !! key = Some v ->
     1 <= v <= 100 \/ (heroQuality !! key = Some v /\ ~ In key ["webp"; "avif"; "jpeg"])).
Proof.
  apply (validated_qualities_in_range asciiBlank heroMerged heroQuality heroRules
           Samples.tieDeps "products/a-hero.png" None).
  - vm_compute. reflexivity.
  - vm_compute. reflexivity.
  - reflexivity.
Defined.


(** A file that holds [{ "quality": 85 }] passes the validation and is
    loaded with the quality 85, which has no quality for any format;
    with [{ quality: { webp: 90 } }] on the command line it is loaded
    with a quality for webp alone. *)
Example number_quality_is_loaded :
  (exists merged,
     loadConfig asciiBlank (Parsed numberFile) emptyConfig = inr merged /\
     quality merged = Some (QualityOther (ScalarNumber 85))) /\
  (exists merged,
     loadConfig asciiBlank (Parsed numberFile) webpArgs = inr merged /\
     quality merged = Some (QualityObject {[ "webp" := 90 ]}) /\
     qualityOf (QualityObject {[ "webp" := 90 ]}) "avif" = None /\
     qualityOf (QualityObject {[ "webp" := 90 ]}) "jpeg" = None).
Proof.
  split; eexists; (split; [vm_compute; reflexivity|]); repeat split.
Qed.

End ConfigWitnesses.
(** ** The enumeration of the input directory *)

Section EnumerationFacts.
Import Enumeration.

Variable join : string -> string -> string.

Lemma scanEntry_directory (relativePath name : string) (entries : list DirEntry) :
  scanEntry join relativePath (EntryDirectory name (Returned entries))
  = scanEntries join (relJoin join relativePath name) entries.
Proof.
  simpl. induction entries as [|first rest IH]; [reflexivity|].
  simpl. rewrite IH. reflexivity.
Qed.

Lemma entrySize_directory (name : string) (entries : list DirEntry) :
  entrySize (EntryDirectory name (Returned entries)) = S (entriesSize entries).
Proof.
  reflexivity.
Qed.

Lemma entrySize_pos (entry : DirEntry) : (1 <= entrySize entry)%nat.
Proof. destruct entry as [?|? [?|?]|?]; simpl; lia. Qed.

Lemma listed_cons (relativePath : string) (first : DirEntry) (rest : list DirEntry)
    (p : string) :
  listed join relativePath (first :: rest) p <->
  headListed join relativePath first p \/ listed join relativePath rest p.
Proof.
  split.
  - intros H. inversion H as [r es name Hin Himg | r es name sub q Hin Hsub]; subst.
    + destruct Hin as [-> | Hin]; [left; simpl; auto | right; now constructor].
    + destruct Hin as [-> | Hin]; [left; exact Hsub | right].
      eapply listed_below; eassumption.
  - intros [H | H].
    + destruct first as [name | name [sub | e] | name]; simpl in H; try contradiction.
      * destruct H as [Himg ->]. apply listed_here; [left; reflexivity | exact Himg].
      * eapply listed_below; [left; reflexivity | exact H].
    + inversion H as [r es name Hin Himg | r es name sub q Hin Hsub]; subst.
      * apply listed_here; [right; exact Hin | exact Himg].
      * eapply listed_below; [right; exact Hin | exact Hsub].
Qed.

Lemma listed_nil (relativePath p : string) : ~ listed join relativePath [] p.
Proof. intros H. inversion H; subst; contradiction. Qed.

Lemma unreadable_cons (first : DirEntry) (rest : list DirEntry) :
  unreadable (first :: rest) <-> headUnreadable first \/ unreadable rest.
Proof.
  split.
  - intros H. inversion H as [es name e Hin | es name sub Hin Hsub]; subst.
    + destruct Hin as [-> | Hin]; [left; exact I | right; econstructor; exact Hin].
    + destruct Hin as [-> | Hin]; [left; exact Hsub | right].
      eapply unreadable_below; eassumption.
  - intros [H | H].
    + destruct first as [name | name [sub | e] | name]; simpl in H; try contradiction.
      * eapply unreadable_below; [left; reflexivity | exact H].
      * eapply unreadable_here. left. reflexivity.
    + inversion H as [es name e Hin | es name sub Hin Hsub]; subst.
      * eapply unreadable_here. right. exact Hin.
      * eapply unreadable_below; [right; exact Hin | exact Hsub].
Qed.

Lemma unreadable_nil : ~ unreadable [].
Proof. intros H. inversion H; subst; contradiction. Qed.

(** The loop over the entries, by the number of entries below. *)
Lemma scanEntries_spec (n : nat) (entries : list DirEntry) (relativePath : string) :
  (entriesSize entries <= n)%nat ->
  (forall l, scanEntries join relativePath entries = Returned l ->
             forall p, In p l <-> listed join relativePath entries p) /\
  ((exists e, scanEntries join relativePath entries = Thrown e) <-> unreadable entries).
Proof.
  revert entries relativePath.
  induction n as [|n IH]; intros entries relativePath Hn.
  - destruct entries as [|first rest];
      [|pose proof (entrySize_pos first); simpl in Hn; lia].
    simpl. split.
    + intros l [= <-] p. split; [intros [] | intros H; now apply listed_nil in H].
    + split; [intros [e He]; discriminate He | intros H; now apply unreadable_nil in H].
  - destruct entries as [|first rest].
    + simpl. split.
      * intros l [= <-] p. split; [intros [] | intros H; now apply listed_nil in H].
      * split; [intros [e He]; discriminate He | intros H; now apply unreadable_nil in H].
    + pose proof (entrySize_pos first) as Hpos. simpl in Hn.
      destruct (IH rest relativePath ltac:(lia)) as [Rl Ru].
      assert (Hfirst :
                (forall l, scanEntry join relativePath first = Returned l ->
                           forall p, In p l <-> headListed join relativePath first p) /\
                ((exists e, scanEntry join relativePath first = Thrown e) <->
                 headUnreadable first)).
      { destruct first as [name | name [sub | e] | name].
        - simpl. split.
          + intros l [= <-] p. destruct (isImageName name); simpl.
            * split; [intros [<- | []]; auto | intros [_ ->]; auto].
            * split; [intros [] | intros [H _]; discriminate H].
          + split; [intros [e He]; discriminate He | intros []].
        - rewrite scanEntry_directory. rewrite entrySize_directory in Hn.
          apply (IH sub (relJoin join relativePath name)). lia.
        - simpl. split; [intros l H; discriminate H|].
          split; [auto | intros _; eauto].
        - simpl. split.
          + intros l [= <-] p. split; [intros [] | intros []].
          + split; [intros [e He]; discriminate He | intros []]. }
      destruct Hfirst as [Fl Fu]. simpl scanEntries.
      destruct (scanEntry join relativePath first) as [a | e] eqn:Ea.
      * destruct (scanEntries join relativePath rest) as [b | e] eqn:Eb.
        -- split.
           ++ intros l [= <-] p. rewrite in_app_iff, listed_cons.
              rewrite (Fl a eq_refl p), (Rl b eq_refl p). reflexivity.
           ++ rewrite unreadable_cons. split; [intros [e He]; discriminate He|].
              intros [H | H].
              ** apply Fu in H. destruct H as [e He]. discriminate He.
              ** apply Ru in H. destruct H as [e He]. discriminate He.
        -- split; [intros l H; discriminate H|].
           rewrite unreadable_cons. split; [|eauto].
           intros _. right. apply Ru. eauto.
      * split; [intros l H; discriminate H|].
        rewrite unreadable_cons. split; [|eauto].
        intros _. left. apply Fu. eauto.
Qed.

Lemma toLowerAscii_idempotent (c : ascii) :
  toLowerAscii (toLowerAscii c) = toLowerAscii c.
Proof.
  destruct c as [[] [] [] [] [] [] [] []]; reflexivity.
Qed.

Lemma lower_idempotent (s : string) : lower (lower s) = lower s.
Proof.
  induction s as [|c s IH]; [reflexivity|].
  simpl. rewrite toLowerAscii_idempotent, IH. reflexivity.
Qed.

Example findImageFiles_sample :
  findImageFiles slashJoin EmptyString (Returned sampleTree)
  = Returned ["a.PNG"; "shots.png/b.jpeg"].
Proof. reflexivity. Qed.

(** X30: _findImageFiles.  The enumeration of a directory that was read
    returns exactly when every directory below it can be read, and
    rejects otherwise; when it returns, it lists exactly the paths of the
    regular files with an image name in the directory and below it (a
    link or a socket is never listed, a directory is searched whatever
    its name); and whether a name is an image name does not depend on
    the case of its letters. *)
Theorem findImageFiles_lists_image_files (relativePath : string)
    (entries : list DirEntry) :
  (forall l, findImageFiles join relativePath (Returned entries) = Returned l ->
             forall p, In p l <-> listed join relativePath entries p) /\
  ((exists e, findImageFiles join relativePath (Returned entries) = Thrown e) <->
   unreadable entries) /\
  ((exists l, findImageFiles join relativePath (Returned entries) = Returned l) <->
   ~ unreadable entries) /\
  (forall e, findImageFiles join relativePath (Thrown e) = Thrown e) /\
  (forall name, isImageName (lower name) = isImageName name).
Proof.
  destruct (scanEntries_spec (entriesSize entries) entries relativePath (le_n _))
    as [Hl Hu].
  split; [exact Hl|]. split; [exact Hu|]. split; [|split].
  - unfold findImageFiles. split.
    + intros [l Hr] Hun. apply Hu in Hun. destruct Hun as [e He]. congruence.
    + intros Hun. destruct (scanEntries join relativePath entries) as [l|e] eqn:E;
        [eauto|]. exfalso. apply Hun. apply Hu. eauto.
  - reflexivity.
  - intros name. unfold isImageName. rewrite lower_idempotent. reflexivity.
Qed.

End EnumerationFacts.
